(** * Runtime dependency resolver: version ranges, catalog selection, extractors

    A shallow embedding of [scripts/resolve-runtime-deps-from-metadata.py]
    and the properties its specification states about it.

    Modelling conventions.
    - A Python [str] is a Rocq [string]; each [ascii] stands for the code
      point of the same number (U+0000..U+00FF).  On this range the
      classes [\d], [\s] and [str.strip]'s whitespace are the ones given by
      [Py.is_digit] and [Py.is_space].
    - A Python [int] is a [Z].  The constraint engine takes the
      conversions between digit strings and integers as total; the
      interpreter's limit on the number of digits of a conversion is
      given apart, with the parser as it runs under that limit
      ([parse_constraints_limited]).
    - A raised exception is the [Raise] case of [result]; the exception
      carries its class and its message.
    - The functions of [re] used by the script are given by a small
      backtracking matcher ([Re]) with Python's priorities: ordered
      alternation, greedy and lazy repetition, capture groups; the script's
      patterns are transcribed as terms of [Re.re].
    - The file system and the network are inputs: the extractors start
      from the parsed manifests, the resolvers from the documents the
      catalogs answer, and what the script takes from the interpreter's
      library is gathered in the class [Runtime].  A timestamp is a
      [datetime], naive or aware, as [datetime.fromisoformat] gives it. *)

From Stdlib Require Import String Ascii List ZArith Lia Bool Arith PeanoNat.
From Stdlib Require Import DecimalString DecimalPos Permutation Sorted.
From Stdlib Require DecimalFacts.
Import ListNotations.

Local Open Scope list_scope.
Local Open Scope string_scope.

(* ================================================================== *)
(** * Exceptions *)

Inductive exn_class : Type :=
| RuntimeError | ValueError | TypeError | AttributeError | OtherError.

Record exn : Type := Exn { exn_kind : exn_class; exn_msg : string }.

Inductive result (A : Type) : Type :=
| Ok (a : A)
| Raise (e : exn).
Arguments Ok {A} a.
Arguments Raise {A} e.

Definition bind {A B} (m : result A) (f : A -> result B) : result B :=
  match m with
  | Ok a => f a
  | Raise e => Raise e
  end.

Notation "x <- m ;; k" := (bind m (fun x => k))
  (at level 61, m at next level, right associativity).
Notation "' pat <- m ;; k" := (bind m (fun x => match x with pat => k end))
  (at level 61, pat pattern, m at next level, right associativity).

Definition is_ok {A} (m : result A) : bool :=
  match m with Ok _ => true | Raise _ => false end.

(* ================================================================== *)
(** * Python string primitives *)

Module Py.

Definition code (c : ascii) : nat := nat_of_ascii c.

(** [\d] and [str.isdecimal] on U+0000..U+00FF: the ten ASCII digits. *)
Definition is_digit (c : ascii) : bool :=
  ((48 <=? code c) && (code c <=? 57))%nat.

(** [\s] and the whitespace of [str.strip] on U+0000..U+00FF:
    TAB LF VT FF CR, FS GS RS US, SPACE, NEL, NBSP. *)
Definition is_space (c : ascii) : bool :=
  let n := code c in
  (((9 <=? n) && (n <=? 13)) || ((28 <=? n) && (n <=? 32))
   || (n =? 133) || (n =? 160))%nat.

Definition is_upper_ascii (c : ascii) : bool :=
  ((65 <=? code c) && (code c <=? 90))%nat.
Definition is_lower_ascii (c : ascii) : bool :=
  ((97 <=? code c) && (code c <=? 122))%nat.
Definition is_alnum_ascii (c : ascii) : bool :=
  is_upper_ascii c || is_lower_ascii c || is_digit c.

Definition newline : ascii := ascii_of_nat 10.
Definition dquote : ascii := ascii_of_nat 34.

Definition nonempty (s : string) : bool :=
  match s with EmptyString => false | String _ _ => true end.

(** [s.lstrip()] *)
Fixpoint lstrip (s : string) : string :=
  match s with
  | EmptyString => EmptyString
  | String c s' => if is_space c then lstrip s' else s
  end.

(** [s.rstrip()] *)
Fixpoint rstrip (s : string) : string :=
  match s with
  | EmptyString => EmptyString
  | String c s' =>
      match rstrip s' with
      | EmptyString => if is_space c then EmptyString else String c EmptyString
      | r => String c r
      end
  end.

(** [s.strip()] *)
Definition strip (s : string) : string := rstrip (lstrip s).

(** [s.startswith(p)] *)
Definition startswith (s p : string) : bool := String.prefix p s.

Fixpoint rev (s : string) : string :=
  match s with
  | EmptyString => EmptyString
  | String c s' => rev s' ++ String c EmptyString
  end.

(** [s.endswith(p)] *)
Definition endswith (s p : string) : bool := String.prefix (rev p) (rev s).

(** [needle in hay] on strings *)
Fixpoint contains (hay needle : string) : bool :=
  String.prefix needle hay
  || match hay with
     | EmptyString => false
     | String _ hay' => contains hay' needle
     end.

(** [s[1:]] *)
Definition slice_from1 (s : string) : string :=
  match s with EmptyString => EmptyString | String _ s' => s' end.

(** [s[:-1]] *)
Fixpoint slice_to_m1 (s : string) : string :=
  match s with
  | EmptyString => EmptyString
  | String c EmptyString => EmptyString
  | String c s' => String c (slice_to_m1 s')
  end.

(** [s[1:-1]] *)
Definition slice_1_m1 (s : string) : string := slice_to_m1 (slice_from1 s).

(** [s.split(sep, 1)] for a one-character separator: the pieces around
    the first occurrence, or the string alone. *)
Fixpoint split1 (sep : ascii) (s : string) : list string :=
  match s with
  | EmptyString => [EmptyString]
  | String c s' =>
      if Ascii.eqb c sep then [EmptyString; s']
      else match split1 sep s' with
           | [a] => [String c a]
           | a :: rest => String c a :: rest
           | [] => []
           end
  end.

(** [s.replace(old, new)] for a one-character [old]. *)
Fixpoint replace_char (old : ascii) (new : string) (s : string) : string :=
  match s with
  | EmptyString => EmptyString
  | String c s' =>
      (if Ascii.eqb c old then new else String c EmptyString)
      ++ replace_char old new s'
  end.

(** [s.lower()] on U+0000..U+00FF. *)
Definition lower_char (c : ascii) : ascii :=
  let n := code c in
  if is_upper_ascii c then ascii_of_nat (n + 32)
  else if ((192 <=? n) && (n <=? 222) && negb (n =? 215))%nat
       then ascii_of_nat (n + 32)
       else c.

Fixpoint lower (s : string) : string :=
  match s with
  | EmptyString => EmptyString
  | String c s' => String (lower_char c) (lower s')
  end.

(** [int(s)] on a run of decimal digits. *)
Definition digit_value (c : ascii) : Z := Z.of_nat (code c) - 48.

Fixpoint int_acc (s : string) (acc : Z) : Z :=
  match s with
  | EmptyString => acc
  | String c s' => int_acc s' (10 * acc + digit_value c)
  end.

Definition int_of_digits (s : string) : Z := int_acc s 0.

(** [str(n)] and [f"{n}"] for an integer. *)
Definition str_int (n : Z) : string := NilEmpty.string_of_int (Z.to_int n).

(** Tuple ordering: [a < b] on tuples of integers.  The first position
    where the tuples differ decides; when one is a prefix of the other
    the shorter is the smaller. *)
Fixpoint tuple_ltb (a b : list Z) : bool :=
  match a, b with
  | [], [] => false
  | [], _ :: _ => true
  | _ :: _, [] => false
  | x :: a', y :: b' =>
      if (x =? y)%Z then tuple_ltb a' b' else (x <? y)%Z
  end.

End Py.

(* ================================================================== *)
(** * The regular-expression matcher *)

Module Re.

(** Patterns.  Repetition is over one character class, which is all the
    script's patterns use. *)
Inductive re : Type :=
| Eps                                   (* empty pattern *)
| Chr (p : ascii -> bool)               (* one character of a class *)
| Seq (r1 r2 : re)                      (* r1 r2 *)
| Alt (r1 r2 : re)                      (* r1|r2, r1 tried first *)
| Star (greedy : bool) (p : ascii -> bool)  (* p* and p*? *)
| Group (i : nat) (r : re)              (* capture group number i *)
| Bol                                   (* ^ *)
| Eol.                                  (* $ *)

Definition Plus (greedy : bool) (p : ascii -> bool) : re :=
  Seq (Chr p) (Star greedy p).
(** [r?] *)
Definition Opt (r : re) : re := Alt r Eps.
(** a literal string *)
Fixpoint Lit (s : string) : re :=
  match s with
  | EmptyString => Eps
  | String c s' => Seq (Chr (Ascii.eqb c)) (Lit s')
  end.

(** Captured groups, by number. *)
Definition caps : Type := list (nat * string).

Fixpoint group (g : caps) (i : nat) : option string :=
  match g with
  | [] => None
  | (j, s) :: g' => if Nat.eqb i j then Some s else group g' i
  end.

(** [$] without MULTILINE: at the end, or before a final newline. *)
Definition at_eol (s : string) : bool :=
  match s with
  | EmptyString => true
  | String c EmptyString => Ascii.eqb c Py.newline
  | _ => false
  end.

Section Matcher.
Context {A : Type}.

(** A continuation receives the position reached, the text that
    remains and the groups captured so far. *)
Definition cont : Type := nat -> string -> caps -> option A.

Fixpoint star (greedy : bool) (p : ascii -> bool) (k : cont)
         (pos : nat) (s : string) (g : caps) : option A :=
  match s with
  | String c s' =>
      if p c then
        if greedy then
          match star greedy p k (S pos) s' g with
          | Some a => Some a
          | None => k pos s g
          end
        else
          match k pos s g with
          | Some a => Some a
          | None => star greedy p k (S pos) s' g
          end
      else k pos s g
  | EmptyString => k pos s g
  end.

Fixpoint m (r : re) (k : cont) (pos : nat) (s : string) (g : caps)
  : option A :=
  match r with
  | Eps => k pos s g
  | Chr p =>
      match s with
      | String c s' => if p c then k (S pos) s' g else None
      | EmptyString => None
      end
  | Seq r1 r2 => m r1 (m r2 k) pos s g
  | Alt r1 r2 =>
      match m r1 k pos s g with
      | Some a => Some a
      | None => m r2 k pos s g
      end
  | Star greedy p => star greedy p k pos s g
  | Group i r' =>
      m r' (fun pos' s' g' =>
              k pos' s' ((i, String.substring 0 (pos' - pos) s) :: g'))
        pos s g
  | Bol => if Nat.eqb pos 0 then k pos s g else None
  | Eol => if at_eol s then k pos s g else None
  end.
End Matcher.

(** A match: where it ends, what follows it, and its groups. *)
Record found : Type :=
  Found { f_end : nat; f_rest : string; f_groups : caps }.

Definition accept : @cont found :=
  fun pos s g => Some (Found pos s g).

(** [re.match(r, s)]: a match at the start of [s]. *)
Definition match_ (r : re) (s : string) : option found :=
  m r accept 0 s [].

Definition accept_at_end : @cont found :=
  fun pos s g =>
    match s with EmptyString => accept pos s g | _ => None end.

(** [re.fullmatch(r, s)]: a match of the whole of [s]. *)
Definition fullmatch (r : re) (s : string) : option found :=
  m r accept_at_end 0 s [].

(** The leftmost match at or after the current position: the text
    skipped before it, the text matched, and the match. *)
Fixpoint search_from (r : re) (pos : nat) (s : string)
  : option (string * string * found) :=
  match m r accept pos s [] with
  | Some f => Some (EmptyString, String.substring 0 (f_end f - pos) s, f)
  | None =>
      match s with
      | EmptyString => None
      | String c s' =>
          match search_from r (S pos) s' with
          | Some (skipped, matched, f) => Some (String c skipped, matched, f)
          | None => None
          end
      end
  end.

(** The successive non-overlapping matches, left to right, each with the
    text between it and the previous one, and the text after the last.
    Every pattern the script scans with consumes at least one character
    per match, so the length of the text bounds the number of matches. *)
Fixpoint scan (fuel : nat) (r : re) (pos : nat) (s : string)
  : list (string * string * found) * string :=
  match fuel with
  | O => ([], s)
  | S fuel' =>
      match search_from r pos s with
      | None => ([], s)
      | Some (skipped, matched, f) =>
          let (ms, last) := scan fuel' r (f_end f) (f_rest f) in
          ((skipped, matched, f) :: ms, last)
      end
  end.

Definition matches (r : re) (s : string) : list (string * string * found) :=
  fst (scan (S (String.length s)) r 0 s).

(** [re.findall(r, s)] for a pattern without groups: the matched texts. *)
Definition findall (r : re) (s : string) : list string :=
  map (fun x => snd (fst x)) (matches r s).

Definition group_or_empty (f : found) (i : nat) : string :=
  match group (f_groups f) i with Some t => t | None => EmptyString end.

(** [re.findall(r, s)] for a pattern with two groups: the pairs of group
    texts. *)
Definition findall2 (r : re) (s : string) : list (string * string) :=
  map (fun x => (group_or_empty (snd x) 1, group_or_empty (snd x) 2))
      (matches r s).

(** [re.split(r, s)] for a pattern without groups: the texts between
    the matches. *)
Definition split (r : re) (s : string) : list string :=
  let (ms, last) := scan (S (String.length s)) r 0 s in
  map (fun x => fst (fst x)) ms ++ [last].

End Re.

(* ================================================================== *)
(** * The constraint engine *)

(** [\d+] *)
Definition re_digits : Re.re := Re.Plus true Py.is_digit.

(** [parse_version_key]: the integers of the digit runs, or [(0,)]. *)
Definition parse_version_key (version_str : string) : list Z :=
  let nums := Re.findall re_digits version_str in
  match nums with
  | [] => [0%Z]
  | _ => map Py.int_of_digits nums
  end.

(** [compare_versions] *)
Definition compare_versions (a b : string) : Z :=
  let ka := parse_version_key a in
  let kb := parse_version_key b in
  if Py.tuple_ltb ka kb then (-1)%Z
  else if Py.tuple_ltb kb ka then 1%Z
  else 0%Z.

Record Constraint : Type := mkConstraint { op : string; version : string }.

(** [expand_semver_compat] *)
Definition expand_semver_compat (op_ : string) (version_ : string)
  : list Constraint :=
  let key := parse_version_key version_ in
  let major := match key with x :: _ => x | [] => 0%Z end in
  let minor := match key with _ :: y :: _ => y | _ => 0%Z end in
  let upper :=
    if String.eqb op_ "~" then
      Py.str_int major ++ "." ++ Py.str_int (minor + 1) ++ ".0"
    else
      if negb (major =? 0)%Z then Py.str_int (major + 1) ++ ".0.0"
      else "0." ++ Py.str_int (minor + 1) ++ ".0" in
  [mkConstraint ">=" version_; mkConstraint "<" upper].

Definition is_comma (c : ascii) : bool := Ascii.eqb c ",".
Definition not_newline (c : ascii) : bool := negb (Ascii.eqb c Py.newline).

(** [\s+|\s*,\s*] *)
Definition re_separators : Re.re :=
  Re.Alt (Re.Plus true Py.is_space)
         (Re.Seq (Re.Star true Py.is_space)
                 (Re.Seq (Re.Chr is_comma) (Re.Star true Py.is_space))).

(** [(>=|<=|>|<|=)] *)
Definition re_comparator : Re.re :=
  Re.Group 1
    (Re.Alt (Re.Lit ">=")
    (Re.Alt (Re.Lit "<=")
    (Re.Alt (Re.Lit ">")
    (Re.Alt (Re.Lit "<") (Re.Lit "="))))).

(** [\s*(.+)$] *)
Definition re_version_part : Re.re :=
  Re.Seq (Re.Star true Py.is_space)
    (Re.Seq (Re.Group 2 (Re.Plus true not_newline)) Re.Eol).

(** [^(>=|<=|>|<|=)?\s*(.+)$] *)
Definition re_token : Re.re :=
  Re.Seq Re.Bol (Re.Seq (Re.Opt re_comparator) re_version_part).

(** The body of the loop over the tokens of a comparator range: the
    constraints one token adds. *)
Definition token_constraints (part : string) : list Constraint :=
  if negb (Py.nonempty part) then []
  else
    match Re.match_ re_token part with
    | None => []
    | Some f =>
        let op_ := match Re.group (Re.f_groups f) 1 with
                   | Some o => if Py.nonempty o then o else "="
                   | None => "="
                   end in
        let version_ := Py.strip (Re.group_or_empty f 2) in
        if Py.nonempty version_ then [mkConstraint op_ version_] else []
    end.

(** [parse_constraints].  With total conversions, the only statement
    that can raise is the unpacking [lo, hi = ...] of the interval
    branch. *)
Definition parse_constraints (range_str : string) : result (list Constraint) :=
  let s := Py.strip range_str in
  if negb (Py.nonempty s) || String.eqb s "*" then Ok []
  else if (Py.startswith s "[" || Py.startswith s "(")
          && (Py.endswith s "]" || Py.endswith s ")")
          && Py.contains s ","
  then
    let left_inclusive := Py.startswith s "[" in
    let right_inclusive := Py.endswith s "]" in
    let inner := Py.slice_1_m1 s in
    match map Py.strip (Py.split1 "," inner) with
    | [lo; hi] =>
        Ok ((if Py.nonempty lo
             then [mkConstraint (if left_inclusive then ">=" else ">") lo]
             else [])
            ++
            (if Py.nonempty hi
             then [mkConstraint (if right_inclusive then "<=" else "<") hi]
             else []))%list
    | _ => Raise (Exn ValueError "not enough values to unpack (expected 2, got 1)")
    end
  else if Py.startswith s "^" then
    Ok (expand_semver_compat "^" (Py.strip (Py.slice_from1 s)))
  else if Py.startswith s "~" then
    Ok (expand_semver_compat "~" (Py.strip (Py.slice_from1 s)))
  else
    Ok (flat_map token_constraints (Re.split re_separators s)).

(** [satisfies_constraints] *)
Fixpoint satisfies_constraints (version_ : string) (constraints : list Constraint)
  : bool :=
  match constraints with
  | [] => true
  | c :: rest =>
      let cmp_val := compare_versions version_ (version c) in
      if String.eqb (op c) ">" then
        if (cmp_val <=? 0)%Z then false else satisfies_constraints version_ rest
      else if String.eqb (op c) ">=" then
        if (cmp_val <? 0)%Z then false else satisfies_constraints version_ rest
      else if String.eqb (op c) "<" then
        if (cmp_val >=? 0)%Z then false else satisfies_constraints version_ rest
      else if String.eqb (op c) "<=" then
        if (cmp_val >? 0)%Z then false else satisfies_constraints version_ rest
      else if String.eqb (op c) "=" then
        if negb (cmp_val =? 0)%Z then false else satisfies_constraints version_ rest
      else false
  end.

(* ================================================================== *)
(** * The interpreter's limit on integer conversions

    CPython refuses a conversion between [str] and [int] of more than
    [sys.int_max_str_digits] digits, 4300 unless it is configured
    otherwise, with a [ValueError].  The constraint engine above takes
    the conversions as total; here is the parser with the limit, as the
    interpreter runs it. *)










(* ================================================================== *)
(** * Values read from JSON and TOML documents *)

(** A float appears by what the script can observe of it: whether it is
    zero (its truth value) and the text [str] gives for it.  An object
    keeps its items in document order. *)
#[local] Set Warnings "-register-all".
Inductive json : Type :=
| JNull
| JBool (b : bool)
| JInt (n : Z)
| JFloat (zero : bool) (text : string)
| JStr (s : string)
| JList (items : list json)
| JDict (items : list (string * json)).

(** [d.get(key)]: the value, or [None]. *)
Fixpoint dict_get (d : list (string * json)) (key : string) : json :=
  match d with
  | [] => JNull
  | (k, v) :: d' => if String.eqb k key then v else dict_get d' key
  end.

(** The truth value of [x], as in [x or y] and [if x]. *)
Definition truthy (j : json) : bool :=
  match j with
  | JNull => false
  | JBool b => b
  | JInt n => negb (n =? 0)%Z
  | JFloat zero _ => negb zero
  | JStr s => Py.nonempty s
  | JList l => match l with [] => false | _ => true end
  | JDict d => match d with [] => false | _ => true end
  end.

(** [text in values] for a string and a list of JSON values. *)
Definition str_in_list (text : string) (values : list json) : bool :=
  existsb (fun j => match j with JStr s => String.eqb text s | _ => false end)
          values.

(** Timestamps.  A naive [datetime] is ordered by its wall-clock fields,
    an aware one by its UTC instant; both are given in microseconds, the
    naive ones counted from [datetime.min]. *)
Inductive datetime : Type :=
| Naive (us : N)
| Aware (us : Z).

(** [datetime.min], which carries no time zone. *)
Definition datetime_min : datetime := Naive 0.

(** [a < b] on timestamps: ordering a naive against an aware one raises
    [TypeError]. *)
Definition datetime_lt (a b : datetime) : result bool :=
  match a, b with
  | Naive x, Naive y => Ok (x <? y)%N
  | Aware x, Aware y => Ok (x <? y)%Z
  | _, _ => Raise (Exn TypeError
                      "can't compare offset-naive and offset-aware datetimes")
  end.

(** What the script takes from the interpreter's library and from the
    network. *)
Class Runtime : Type := {
  (** [datetime.fromisoformat]; [None] stands for [ValueError]. *)
  fromisoformat : string -> option datetime;
  (** [repr(x)] *)
  py_repr : json -> string;
  (** [json.dumps(s)] on a string *)
  json_dumps : string -> string;
  (** [http_get_json] on the version listing of a Modrinth project, by
      project alias, loader and Minecraft version *)
  modrinth_versions : string -> string -> string -> result json;
  (** [http_get_json] on the file listing of a CurseForge project, by
      numeric project id *)
  curseforge_files : string -> result json
}.

(** [str(x)] *)
Definition py_str `{Runtime} (j : json) : string :=
  match j with
  | JStr s => s
  | JInt n => Py.str_int n
  | JBool true => "True"
  | JBool false => "False"
  | JNull => "None"
  | JFloat _ text => text
  | _ => py_repr j
  end.

(** [x or ""] followed by [str]. *)
Definition str_or_empty `{Runtime} (j : json) : string :=
  if truthy j then py_str j else "".

(** * Sorting *)

Section Sorting.
Context {A K : Type}.
Variable lt : K -> K -> result bool.

(** Insertion of [x] after the elements it is not smaller than. *)
Fixpoint insert_sorted (x : K * A) (l : list (K * A)) : result (list (K * A)) :=
  match l with
  | [] => Ok [x]
  | y :: l' =>
      b <- lt (fst x) (fst y) ;;
      if b then Ok (x :: y :: l')
      else (r <- insert_sorted x l' ;; Ok (y :: r))
  end.

Fixpoint sort_pairs (done : list (K * A)) (todo : list (K * A))
  : result (list (K * A)) :=
  match todo with
  | [] => Ok done
  | x :: todo' => d <- insert_sorted x done ;; sort_pairs d todo'
  end.

(** [l.sort(key=key)]: stable, by [<] on the keys alone. *)
Definition sort_by_key (key : A -> K) (l : list A) : result (list A) :=
  r <- sort_pairs [] (map (fun a => (key a, a)) l) ;;
  Ok (map snd r).
End Sorting.

(** [l[0] if policy == "min" else l[-1]] *)
Definition choose {A} (policy : string) (l : list A) (default : A) : A :=
  if String.eqb policy "min" then hd default l else last l default.

(* ================================================================== *)
(** * Dependencies and their resolution *)

Record Dependency : Type := mkDependency {
  mod_id : string;
  version_range : string;
  modrinth : option string;
  curseforge : option string
}.

Record ResolvedDependency : Type := mkResolved {
  source_type : string;
  name : string;
  modrinth_id : option string;
  modrinth_version : option string;
  curseforge_id : option string;
  curseforge_file_id : option string
}.

(** The truth value of an optional string. *)
Definition some_nonempty (o : option string) : bool :=
  match o with Some s => Py.nonempty s | None => false end.

Definition runtime_error {A} (msg : string) : result A :=
  Raise (Exn RuntimeError msg).

Definition assertion_error {A} : result A := Raise (Exn OtherError "").

Section Resolvers.
Context `{Runtime}.

(** The sort key of both resolvers: the parsed timestamp of the field,
    or [datetime.min]. *)
Definition timestamp_of (field : string) (item : json) : datetime :=
  match item with
  | JDict d =>
      match dict_get d field with
      | JStr value =>
          match fromisoformat (Py.replace_char "Z" "+00:00" value) with
          | Some t => t
          | None => datetime_min
          end
      | _ => datetime_min
      end
  | _ => datetime_min
  end.

Definition published_dt : json -> datetime := timestamp_of "date_published".
Definition file_dt : json -> datetime := timestamp_of "fileDate".

(** The filter of [resolve_modrinth]: the entries with a non-empty
    [version_number] that satisfies the constraints. *)
Definition modrinth_candidate (constraints : list Constraint) (v : json) : bool :=
  match v with
  | JDict d =>
      match dict_get d "version_number" with
      | JStr vn =>
          Py.nonempty vn
          && negb (match constraints with [] => false | _ => true end
                   && negb (satisfies_constraints vn constraints))
      | _ => false
      end
  | _ => false
  end.

Definition version_number_of (v : json) : string :=
  match v with
  | JDict d => py_str (dict_get d "version_number")
  | _ => ""
  end.

(** [resolve_modrinth] *)
Definition resolve_modrinth (dep : Dependency)
           (loader minecraft_version policy : string)
  : result ResolvedDependency :=
  match modrinth dep with
  | Some alias =>
      if negb (Py.nonempty alias) then assertion_error else
      versions <- modrinth_versions alias loader minecraft_version ;;
      match versions with
      | JList vs =>
          constraints <- parse_constraints (version_range dep) ;;
          let candidates := filter (modrinth_candidate constraints) vs in
          match candidates with
          | [] =>
              runtime_error
                ("No Modrinth versions for " ++ mod_id dep ++ " (" ++ alias
                 ++ ") satisfy range '" ++ version_range dep ++ "' for loader="
                 ++ loader ++ " mc=" ++ minecraft_version)
          | c0 :: _ =>
              sorted <- sort_by_key datetime_lt published_dt candidates ;;
              let chosen := choose policy sorted c0 in
              Ok (mkResolved "modrinth" (mod_id dep) (Some alias)
                    (Some (version_number_of chosen)) None None)
          end
      | _ =>
          runtime_error
            ("Unexpected Modrinth response for " ++ py_repr (JStr alias))
      end
  | None => assertion_error
  end.

(** [curseforge_expected_loader_label]; an unknown loader is a
    [KeyError]. *)
Definition curseforge_expected_loader_label (loader : string) : result string :=
  if String.eqb loader "forge" then Ok "Forge"
  else if String.eqb loader "neoforge" then Ok "NeoForge"
  else if String.eqb loader "fabric" then Ok "Fabric"
  else Raise (Exn OtherError (py_repr (JStr loader))).

(** The files that list both the Minecraft version and the loader
    label. *)
Definition curseforge_compatible (minecraft_version label : string) (item : json)
  : bool :=
  match item with
  | JDict d =>
      match dict_get d "gameVersions" with
      | JList gvs =>
          str_in_list minecraft_version gvs && str_in_list label gvs
      | _ => false
      end
  | _ => false
  end.

(** Whether the file's name or display name contains the needle. *)
Definition names_contain (needle : string) (item : json) : bool :=
  match item with
  | JDict d =>
      let fn := str_or_empty (dict_get d "fileName") in
      let dn := str_or_empty (dict_get d "displayName") in
      Py.contains fn needle || Py.contains dn needle
  | _ => false
  end.

(** The best-effort range enforcement of [resolve_curseforge]: what
    becomes of the filtered files. *)
Definition narrow_exact (dep : Dependency) (constraints : list Constraint)
           (filtered : list json) : result (list json) :=
  if match constraints with [] => false | _ => true end
     && forallb (fun c => String.eqb (op c) "=") constraints
     && Nat.eqb (List.length constraints) 1
  then
    let needle := match constraints with
                  | c :: _ => version c
                  | [] => ""
                  end in
    let narrowed := filter (names_contain needle) filtered in
    match narrowed with
    | _ :: _ => Ok narrowed
    | [] =>
        runtime_error
          ("CurseForge dependency " ++ mod_id dep ++ " has exact range '"
           ++ version_range dep
           ++ "' but no fileName/displayName contains it")
    end
  else Ok filtered.

(** The selection that ends [resolve_curseforge]. *)
Definition select_file (dep : Dependency) (project policy : string)
           (files : list json) : result ResolvedDependency :=
  sorted <- sort_by_key datetime_lt file_dt files ;;
  let chosen := choose policy sorted JNull in
  let file_id := match chosen with
                 | JDict d => dict_get d "id"
                 | _ => JNull
                 end in
  match file_id with
  | JInt _ | JBool _ =>
      Ok (mkResolved "curseforge" (mod_id dep) None None (Some project)
            (Some (py_str file_id)))
  | _ =>
      runtime_error
        ("CurseForge file entry missing numeric id for " ++ project)
  end.

(** [resolve_curseforge] *)
Definition resolve_curseforge (dep : Dependency)
           (loader minecraft_version policy : string)
  : result ResolvedDependency :=
  match curseforge dep with
  | Some alias =>
      if negb (Py.nonempty alias) then assertion_error else
      match Re.fullmatch re_digits alias with
      | None =>
          runtime_error
            ("CurseForge alias for dependency " ++ mod_id dep
             ++ " must be a numeric project id; got " ++ py_repr (JStr alias))
      | Some _ =>
          label <- curseforge_expected_loader_label loader ;;
          payload <- curseforge_files alias ;;
          match (match payload with
                 | JDict d => dict_get d "data"
                 | _ => JNull
                 end) with
          | JList data =>
              let filtered :=
                filter (curseforge_compatible minecraft_version label) data in
              match filtered with
              | [] =>
                  runtime_error
                    ("No CurseForge files for " ++ mod_id dep ++ " (" ++ alias
                     ++ ") match loader=" ++ label ++ " mc=" ++ minecraft_version)
              | _ :: _ =>
                  let exact := Py.strip (version_range dep) in
                  constraints <- parse_constraints exact ;;
                  files <- narrow_exact dep constraints filtered ;;
                  select_file dep alias policy files
              end
          | _ =>
              runtime_error
                ("Unexpected CurseForge response for mod id " ++ alias)
          end
      end
  | None => assertion_error
  end.

End Resolvers.

(* ================================================================== *)
(** * Metadata extractors *)

(** Insertion-ordered dictionaries with string keys. *)
Fixpoint assoc_get {V} (d : list (string * V)) (key : string) : option V :=
  match d with
  | [] => None
  | (k, v) :: d' => if String.eqb k key then Some v else assoc_get d' key
  end.

(** [d[key] = v] *)
Fixpoint assoc_set {V} (d : list (string * V)) (key : string) (v : V)
  : list (string * V) :=
  match d with
  | [] => [(key, v)]
  | (k, v') :: d' =>
      if String.eqb k key then (k, v) :: d' else (k, v') :: assoc_set d' key v
  end.

(** [d.update(other)] *)
Definition assoc_update {V} (d other : list (string * V)) : list (string * V) :=
  fold_left (fun acc kv => assoc_set acc (fst kv) (snd kv)) other d.

Definition alias_table : Type := list (string * string).

Definition is_id_char (c : ascii) : bool :=
  Py.is_alnum_ascii c || Ascii.eqb c "_" || Ascii.eqb c "-" || Ascii.eqb c ".".
Definition is_platform_char (c : ascii) : bool :=
  Py.is_alnum_ascii c || Ascii.eqb c "_" || Ascii.eqb c "-".
Definition not_close_brace (c : ascii) : bool := negb (Ascii.eqb c "}").

(** [^([A-Za-z0-9_\-\.]+)] *)
Definition re_dep_id : Re.re :=
  Re.Seq Re.Bol (Re.Group 1 (Re.Plus true is_id_char)).

(** [\{\s*([a-zA-Z0-9_-]+)\s*:\s*([^}]+?)\s*\}] *)
Definition re_alias : Re.re :=
  Re.Seq (Re.Chr (Ascii.eqb "{"))
  (Re.Seq (Re.Star true Py.is_space)
  (Re.Seq (Re.Group 1 (Re.Plus true is_platform_char))
  (Re.Seq (Re.Star true Py.is_space)
  (Re.Seq (Re.Chr (Ascii.eqb ":"))
  (Re.Seq (Re.Star true Py.is_space)
  (Re.Seq (Re.Group 2 (Re.Plus false not_close_brace))
  (Re.Seq (Re.Star true Py.is_space)
          (Re.Chr (Ascii.eqb "}"))))))))).

Section Extractors.
Context `{Runtime}.

(** [parse_mc_publish_dependency_string] *)
Definition parse_mc_publish_dependency_string (value : string)
  : result (string * alias_table) :=
  match Re.match_ re_dep_id (Py.strip value) with
  | None =>
      Raise (Exn ValueError
               ("Invalid mc-publish dependency string: "
                ++ py_repr (JStr value)))
  | Some f =>
      let dep_id := Re.group_or_empty f 1 in
      let aliases :=
        fold_left
          (fun acc pa =>
             assoc_set acc (Py.lower (Py.strip (fst pa))) (Py.strip (snd pa)))
          (Re.findall2 re_alias value) [] in
      Ok (dep_id, aliases)
  end.

(** The loop that fills an alias mapping from a list of annotation
    items; it is the same in the Fabric and the Quilt extractor. *)
Fixpoint collect_aliases (items : list json)
         (mapping : list (string * alias_table))
  : result (list (string * alias_table)) :=
  match items with
  | [] => Ok mapping
  | JStr item :: rest =>
      '(dep_id, aliases) <- parse_mc_publish_dependency_string item ;;
      match aliases with
      | [] => collect_aliases rest mapping
      | _ :: _ =>
          let old := match assoc_get mapping dep_id with
                     | Some t => t
                     | None => []
                     end in
          collect_aliases rest
            (assoc_set mapping dep_id (assoc_update old aliases))
      end
  | _ :: rest => collect_aliases rest mapping
  end.

(** [extract_alias_map_from_fabric_custom] *)
Definition extract_alias_map_from_fabric_custom (custom_obj : json)
  : result (list (string * alias_table)) :=
  match custom_obj with
  | JDict custom =>
      match dict_get custom "mc-publish" with
      | JDict mc_publish =>
          match dict_get mc_publish "dependencies" with
          | JList deps => collect_aliases deps []
          | _ => Ok []
          end
      | _ => Ok []
      end
  | _ => Ok []
  end.

(** The name of the type of a value, as an error message shows it. *)
Definition type_name (j : json) : string :=
  match j with
  | JNull => "NoneType"
  | JBool _ => "bool"
  | JInt _ => "int"
  | JFloat _ _ => "float"
  | JStr _ => "str"
  | JList _ => "list"
  | JDict _ => "dict"
  end.

(** [data.get] on a value that is no dict. *)
Definition attribute_error {A} (data : json) : result A :=
  Raise (Exn AttributeError
           ("'" ++ type_name data ++ "' object has no attribute 'get'")).

Definition aliases_of (alias_map : list (string * alias_table)) (dep_id : string)
  : alias_table :=
  match assoc_get alias_map dep_id with Some t => t | None => [] end.

(** [version_range.strip() or "*"] *)
Definition strip_or_star (s : string) : string :=
  let t := Py.strip s in if Py.nonempty t then t else "*".

(** [read_fabric_dependencies], from the parsed manifest on; [None] is
    the absence of the manifest. *)
Definition read_fabric_dependencies (manifest : option json)
  : result (list Dependency) :=
  match manifest with
  | None => Ok []
  | Some (JDict data) =>
      let depends := match dict_get data "depends" with
                     | JDict d => d
                     | _ => []
                     end in
      alias_map <- extract_alias_map_from_fabric_custom (dict_get data "custom") ;;
      Ok (flat_map
            (fun kv =>
               let dep_id := fst kv in
               if String.eqb dep_id "minecraft" || String.eqb dep_id "java"
                  || String.eqb dep_id "fabricloader"
               then []
               else
                 let version_range_ := match snd kv with
                                       | JStr r => r
                                       | _ => "*"
                                       end in
                 let aliases := aliases_of alias_map dep_id in
                 [mkDependency dep_id (strip_or_star version_range_)
                    (assoc_get aliases "modrinth")
                    (assoc_get aliases "curseforge")])
            depends)
  | Some data => attribute_error data
  end.

(** The body of the loop of [read_forge_dependencies]: the dependency
    one entry adds. *)
Definition forge_entry (entry : json) : list Dependency :=
  match entry with
  | JDict e =>
      match dict_get e "modId" with
      | JStr dep_id =>
          if negb (Py.nonempty dep_id) then []
          else if String.eqb dep_id "minecraft" then []
          else
            match dict_get e "mandatory" with
            | JBool true =>
                let vr := match dict_get e "versionRange" with
                          | JStr r => if Py.nonempty (Py.strip r) then r else "*"
                          | _ => "*"
                          end in
                match dict_get e "mc-publish" with
                | JDict mcp =>
                    match dict_get mcp "ignore" with
                    | JBool true => []
                    | _ =>
                        let mr := match dict_get mcp "modrinth" with
                                  | JStr t =>
                                      if Py.nonempty (Py.strip t)
                                      then Some (Py.strip t) else None
                                  | _ => None
                                  end in
                        let cf := match dict_get mcp "curseforge" with
                                  | JStr t => Some (Py.strip t)
                                  | JInt n => Some (Py.strip (py_str (JInt n)))
                                  | JBool b => Some (Py.strip (py_str (JBool b)))
                                  | _ => None
                                  end in
                        [mkDependency dep_id (Py.strip vr) mr cf]
                    end
                | _ => [mkDependency dep_id (Py.strip vr) None None]
                end
            | _ => []
            end
      | _ => []
      end
  | _ => []
  end.

(** [read_forge_dependencies], from the parsed [mods.toml] on. *)
Definition read_forge_dependencies (manifest : option json)
  : result (list Dependency) :=
  match manifest with
  | None => Ok []
  | Some (JDict data) =>
      let own_id :=
        match dict_get data "mods" with
        | JList (JDict m0 :: _) =>
            match dict_get m0 "modId" with
            | JStr mid => if Py.nonempty mid then Some mid else None
            | _ => None
            end
        | _ => None
        end in
      match dict_get data "dependencies", own_id with
      | JDict deps_root, Some mid =>
          match dict_get deps_root mid with
          | JList dep_entries => Ok (flat_map forge_entry dep_entries)
          | _ => Ok []
          end
      | _, _ => Ok []
      end
  | Some data => attribute_error data
  end.

(** The body of the loop of [read_quilt_dependencies]. *)
Definition quilt_entry (alias_map : list (string * alias_table)) (item : json)
  : list Dependency :=
  let parsed :=
    match item with
    | JStr dep_id => Some (dep_id, "*", false)
    | JDict d =>
        match dict_get d "id" with
        | JStr dep_id =>
            if negb (Py.nonempty dep_id) then None
            else
              let version_range_ :=
                match dict_get d "versions" with
                | JStr r => if Py.nonempty (Py.strip r) then r else "*"
                | _ => "*"
                end in
              let optional := match dict_get d "optional" with
                              | JBool true => true
                              | _ => false
                              end in
              Some (dep_id, version_range_, optional)
        | _ => None
        end
    | _ => None
    end in
  match parsed with
  | None => []
  | Some (dep_id, version_range_, optional) =>
      if optional then []
      else if String.eqb dep_id "minecraft" || String.eqb dep_id "java" then []
      else
        let aliases := aliases_of alias_map dep_id in
        [mkDependency dep_id (Py.strip version_range_)
           (assoc_get aliases "modrinth") (assoc_get aliases "curseforge")]
  end.

(** [read_quilt_dependencies], from the parsed manifest on. *)
Definition read_quilt_dependencies (manifest : option json)
  : result (list Dependency) :=
  match manifest with
  | None => Ok []
  | Some (JDict data) =>
      let depends := match dict_get data "depends" with
                     | JList l => l
                     | _ => []
                     end in
      alias_map <-
        match dict_get data "mc-publish" with
        | JDict mcp =>
            match dict_get mcp "dependencies" with
            | JList custom_deps => collect_aliases custom_deps []
            | _ => Ok []
            end
        | _ => Ok []
        end ;;
      Ok (flat_map (quilt_entry alias_map) depends)
  | Some data => attribute_error data
  end.

End Extractors.

(* ================================================================== *)
(** * The artifact writer and the orchestrator *)

Definition newline_str : string := String Py.newline EmptyString.
Definition quoted (s : string) : string :=
  String Py.dquote s ++ String Py.dquote EmptyString.

(** The files written and the lines printed so far. *)
Record world : Type := mkWorld {
  files : list (string * string);
  stdout : list string;
  stderr : list string
}.

Definition write_file (path content : string) (w : world) : world :=
  mkWorld ((path, content) :: files w) (stdout w) (stderr w).
Definition print_out (line : string) (w : world) : world :=
  mkWorld (files w) (stdout w ++ [line])%list (stderr w).
Definition print_err (line : string) (w : world) : world :=
  mkWorld (files w) (stdout w) (stderr w ++ [line])%list.

Record Args : Type := mkArgs {
  arg_loader : string;
  arg_minecraft_version : string;
  arg_policy : string;
  arg_out : string;
  arg_strict : bool
}.

(** The manifests found under the project root, parsed. *)
Record Project : Type := mkProject {
  fabric_manifest : option json;
  forge_manifest : option json;
  quilt_manifest : option json
}.

Section Orchestrator.
Context `{Runtime}.

(** The lines [write_dependencies_yml] emits for one dependency. *)
Definition entry_lines (dep : ResolvedDependency) : result (list string) :=
  let head := ["    - name: " ++ name dep] in
  if String.eqb (source_type dep) "modrinth" then
    match modrinth_id dep, modrinth_version dep with
    | Some mid, Some mv =>
        if Py.nonempty mid && Py.nonempty mv then
          Ok (List.app head
              ["      identifiers:";
               "        modrinth_id: " ++ mid;
               "      version:";
               "        default: " ++ json_dumps mv;
               "      source:";
               "        type: modrinth"])
        else assertion_error
    | _, _ => assertion_error
    end
  else if String.eqb (source_type dep) "curseforge" then
    match curseforge_id dep, curseforge_file_id dep with
    | Some cid, Some fid =>
        if Py.nonempty cid && Py.nonempty fid then
          Ok (List.app head
              ["      identifiers:";
               "        curseforge_id: " ++ cid;
               "        curseforge_file_id: " ++ fid;
               "      source:";
               "        type: curseforge"])
        else assertion_error
    | _, _ => assertion_error
    end
  else runtime_error ("Unsupported resolved source type: " ++ source_type dep).

Fixpoint all_entry_lines (resolved : list ResolvedDependency)
  : result (list string) :=
  match resolved with
  | [] => Ok []
  | dep :: rest =>
      l <- entry_lines dep ;;
      ls <- all_entry_lines rest ;;
      Ok (l ++ ls)%list
  end.

(** [write_dependencies_yml]: the file is written once every line is
    known. *)
Definition write_dependencies_yml (out_path : string)
           (resolved : list ResolvedDependency) (w : world)
  : world * result unit :=
  let lines := ["version: " ++ quoted "1.0";
                "settings:";
                "  auto_resolve_latest: false";
                "";
                "dependencies:";
                "  runtime:"] in
  match resolved with
  | [] =>
      (write_file out_path
         (String.concat newline_str (lines ++ ["    []"])%list ++ newline_str) w,
       Ok tt)
  | _ :: _ =>
      match all_entry_lines resolved with
      | Ok ls =>
          (write_file out_path
             (String.concat newline_str (lines ++ ls)%list ++ newline_str) w,
           Ok tt)
      | Raise e => (w, Raise e)
      end
  end.

(** The number of aliases of a dependency. *)
Definition score (dep : Dependency) : nat :=
  (match modrinth dep with Some _ => 1 | None => 0 end)
  + (match curseforge dep with Some _ => 1 | None => 0 end).

(** De-duplication by [mod_id]: a later entry replaces an earlier one
    only with strictly more aliases. *)
Definition dedupe (deps : list Dependency) : list (string * Dependency) :=
  fold_left
    (fun by_id dep =>
       match assoc_get by_id (mod_id dep) with
       | None => assoc_set by_id (mod_id dep) dep
       | Some existing =>
           if Nat.ltb (score existing) (score dep)
           then assoc_set by_id (mod_id dep) dep
           else by_id
       end)
    deps [].

Definition string_lt (a b : string) : result bool := Ok (String.ltb a b).

(** One turn of the resolution loop: the artifact a dependency adds to
    the resolved list, if any. *)
Definition resolve_one (args : Args) (dep : Dependency)
  : result (list ResolvedDependency) :=
  if some_nonempty (modrinth dep) then
    r <- resolve_modrinth dep (arg_loader args) (arg_minecraft_version args)
           (arg_policy args) ;;
    Ok [r]
  else if some_nonempty (curseforge dep) then
    r <- resolve_curseforge dep (arg_loader args) (arg_minecraft_version args)
           (arg_policy args) ;;
    Ok [r]
  else if arg_strict args then
    runtime_error
      ("Required dependency '" ++ mod_id dep
       ++ "' has no mc-publish Modrinth/CurseForge alias in metadata")
  else Ok [].

(** The resolution loop of [main] runs the dependencies in order and
    stops at the first that raises. *)
Fixpoint resolve_loop (args : Args) (deps : list Dependency)
         (resolved : list ResolvedDependency)
  : result (list ResolvedDependency) :=
  match deps with
  | [] => Ok resolved
  | dep :: rest =>
      r <- resolve_one args dep ;;
      resolve_loop args rest (resolved ++ r)%list
  end.

(** The first part of [main]: the dependencies of the three extractors,
    de-duplicated and sorted by [mod_id]. *)
Definition required_dependencies (project : Project) : result (list Dependency) :=
  d1 <- read_fabric_dependencies (fabric_manifest project) ;;
  d2 <- read_forge_dependencies (forge_manifest project) ;;
  d3 <- read_quilt_dependencies (quilt_manifest project) ;;
  let required_deps := map snd (dedupe (d1 ++ d2 ++ d3)%list) in
  sort_by_key string_lt mod_id required_deps.

(** [main], from the parsed arguments and manifests on.  The output path
    stands for its join with the project root. *)
Definition main (args : Args) (project : Project) (w : world)
  : world * result Z :=
  match
    (sorted <- required_dependencies project ;;
     resolve_loop args sorted [])
  with
  | Raise e => (w, Raise e)
  | Ok resolved =>
      match write_dependencies_yml (arg_out args) resolved w with
      | (w1, Raise e) => (w1, Raise e)
      | (w1, Ok _) =>
          let w2 := print_out ("generated_deps_file=" ++ arg_out args) w1 in
          let w3 := print_out ("generated_deps_count="
                               ++ Py.str_int (Z.of_nat (List.length resolved)))
                      w2 in
          (w3, Ok 0%Z)
      end
  end.

(** The script: the exit status of [main], or the message of the
    exception on the error stream and status 2. *)
Definition script (args : Args) (project : Project) (w : world)
  : world * Z :=
  match main args project w with
  | (w', Ok status) => (w', status)
  | (w', Raise e) => (print_err ("ERROR: " ++ exn_msg e) w', 2%Z)
  end.

End Orchestrator.

(* ================================================================== *)
(** * Notions of the specification *)

(** The five comparison operators. *)
Definition known_op (o : string) : Prop :=
  o = "=" \/ o = ">" \/ o = ">=" \/ o = "<" \/ o = "<=".

(** A version meets a constraint under [compare_versions]. *)
Definition meets (v : string) (c : Constraint) : Prop :=
  let cmp := compare_versions v (version c) in
  (op c = "=" /\ cmp = 0%Z) \/ (op c = ">" /\ (cmp > 0)%Z)
  \/ (op c = ">=" /\ (cmp >= 0)%Z) \/ (op c = "<" /\ (cmp < 0)%Z)
  \/ (op c = "<=" /\ (cmp <= 0)%Z).

(** The pieces of a string between its non-digit characters. *)
Fixpoint digit_pieces (s : string) : list string :=
  match s with
  | EmptyString => [EmptyString]
  | String c s' =>
      if Py.is_digit c then
        match digit_pieces s' with
        | p :: ps => String c p :: ps
        | [] => [String c EmptyString]
        end
      else EmptyString :: digit_pieces s'
  end.

(** The maximal digit runs of a string, in order. *)
Definition digit_runs (s : string) : list string :=
  filter Py.nonempty (digit_pieces s).

(** The key the specification gives a version: the integers of its
    maximal digit runs, or [(0,)] when it has none. *)
Definition version_key_spec (s : string) : list Z :=
  match digit_runs s with
  | [] => [0%Z]
  | runs => map Py.int_of_digits runs
  end.

(** Lexicographic comparison of integer tuples. *)
Fixpoint lex_compare (a b : list Z) : comparison :=
  match a, b with
  | [], [] => Eq
  | [], _ :: _ => Lt
  | _ :: _, [] => Gt
  | x :: a', y :: b' =>
      match (x ?= y)%Z with
      | Eq => lex_compare a' b'
      | c => c
      end
  end.

Definition sign_of (c : comparison) : Z :=
  match c with Lt => (-1)%Z | Eq => 0%Z | Gt => 1%Z end.

(** [a] is a proper prefix of [b]. *)
Definition proper_prefix {A} (a b : list A) : Prop :=
  exists t, t <> [] /\ b = (a ++ t)%list.

(** Every character of the string is in the class. *)
Fixpoint all_chars (p : ascii -> bool) (s : string) : bool :=
  match s with
  | EmptyString => true
  | String c s' => p c && all_chars p s'
  end.

(** A non-empty run of decimal digits. *)
Definition numeral (s : string) : Prop :=
  Py.nonempty s = true /\ all_chars Py.is_digit s = true.

(** The longest prefix in a class, and what follows it. *)
Fixpoint take_while (p : ascii -> bool) (s : string) : string :=
  match s with
  | EmptyString => EmptyString
  | String c s' => if p c then String c (take_while p s') else EmptyString
  end.

Fixpoint drop_while (p : ascii -> bool) (s : string) : string :=
  match s with
  | EmptyString => EmptyString
  | String c s' => if p c then drop_while p s' else s
  end.

(** The string does not begin with a character of the class. *)
Definition not_starting (p : ascii -> bool) (s : string) : bool :=
  match s with
  | EmptyString => true
  | String c _ => negb (p c)
  end.

(** The character occurs in the string. *)
Fixpoint has_char (c : ascii) (s : string) : bool :=
  match s with
  | EmptyString => false
  | String c' s' => Ascii.eqb c' c || has_char c s'
  end.

(** The opening and the closing bracket of an interval. *)
Definition open_bracket (inclusive : bool) : string :=
  if inclusive then "[" else "(".
Definition close_bracket (inclusive : bool) : string :=
  if inclusive then "]" else ")".

(* ================================================================== *)
(** * Auxiliary notions and sample inputs *)

(** The texts matched, of a list of matches. *)
Definition matched_texts (ms : list (string * string * Re.found)) : list string :=
  map (fun x => snd (fst x)) ms.

(** The constraint of a lower and of an upper bound of an interval; an
    omitted bound has none. *)
Definition lower_bound (inclusive : bool) (lo : string) : list Constraint :=
  if Py.nonempty lo then [mkConstraint (if inclusive then ">=" else ">") lo]
  else [].
Definition upper_bound (inclusive : bool) (hi : string) : list Constraint :=
  if Py.nonempty hi then [mkConstraint (if inclusive then "<=" else "<") hi]
  else [].

Definition not_space (c : ascii) : bool := negb (Py.is_space c).

(** A string without whitespace. *)
Definition spaceless (s : string) : Prop := all_chars not_space s = true.

Definition not_separator (c : ascii) : bool :=
  negb (Py.is_space c || is_comma c).

(** A string without whitespace and without comma. *)
Definition sepless (s : string) : Prop := all_chars not_separator s = true.

(** A [mods.toml] whose mod requires the loader and the game. *)
Definition forge_manifest_with_loader : json :=
  JDict
    [("mods", JList [JDict [("modId", JStr "examplemod")]]);
     ("dependencies",
      JDict
        [("examplemod",
          JList
            [JDict [("modId", JStr "forge"); ("mandatory", JBool true);
                    ("versionRange", JStr "[47,)")];
             JDict [("modId", JStr "minecraft"); ("mandatory", JBool true);
                    ("versionRange", JStr "[1.20.1,1.21)")]])])].

(** A [quilt.mod.json] that depends on the loader and the game. *)
Definition quilt_manifest_with_loader : json :=
  JDict
    [("depends",
      JList [JDict [("id", JStr "quilt_loader"); ("versions", JStr ">=0.19.0")];
             JDict [("id", JStr "minecraft"); ("versions", JStr ">=1.20")]])].

(** An interpreter and two catalogs with a few entries, on which the
    statements below are tried. *)
Definition sample_fromisoformat (s : string) : option datetime :=
  if String.eqb s "2024-01-01T00:00:00+00:00" then Some (Aware 1704067200000000)
  else if String.eqb s "2024-02-01T00:00:00+00:00" then Some (Aware 1706745600000000)
  else None.

Definition sample_repr (j : json) : string :=
  match j with
  | JStr s => "'" ++ s ++ "'"
  | _ => "..."
  end.

Definition sample_modrinth (alias loader minecraft_version : string) : result json :=
  if String.eqb alias "sodium" then
    Ok (JList
          [JDict [("version_number", JStr "1.0.0");
                  ("date_published", JStr "2024-01-01T00:00:00Z")];
           JDict [("version_number", JStr "1.1.0");
                  ("date_published", JStr "2024-02-01T00:00:00Z")]])
  else if String.eqb alias "undated" then
    Ok (JList
          [JDict [("version_number", JStr "1.0.0");
                  ("date_published", JStr "2024-01-01T00:00:00Z")];
           JDict [("version_number", JStr "1.1.0")]])
  else Raise (Exn OtherError "HTTP Error 404: Not Found").

Definition sample_curseforge (project : string) : result json :=
  if String.eqb project "238222" then
    Ok (JDict
          [("data",
            JList
              [JDict [("id", JInt 4001);
                      ("gameVersions", JList [JStr "1.20.1"; JStr "Fabric"]);
                      ("fileDate", JStr "2024-01-01T00:00:00Z");
                      ("fileName", JStr "jei-1.20.1-fabric-15.2.0.jar");
                      ("displayName", JStr "JEI 15.2.0")];
               JDict [("id", JInt 4002);
                      ("gameVersions", JList [JStr "1.20.1"; JStr "Fabric"]);
                      ("fileDate", JStr "2024-02-01T00:00:00Z");
                      ("fileName", JStr "jei-1.20.1-fabric-15.3.0.jar");
                      ("displayName", JStr "JEI 15.3.0")]])])
  else Raise (Exn OtherError "HTTP Error 404: Not Found").

Definition sample_runtime : Runtime :=
  {| fromisoformat := sample_fromisoformat;
     py_repr := sample_repr;
     json_dumps := quoted;
     modrinth_versions := sample_modrinth;
     curseforge_files := sample_curseforge |}.

Definition jei_exact : Dependency :=
  mkDependency "jei" "15.9.9" None (Some "238222").

(** The rank of a timestamp among those of its kind, and its kind. *)
Definition rank (t : datetime) : Z :=
  match t with
  | Naive n => Z.of_N n
  | Aware z => z
  end.

Definition is_aware (t : datetime) : bool :=
  match t with Naive _ => false | Aware _ => true end.

(** [c] is the first of the entries of [l] with the least key. *)
Definition first_least {A} (key : A -> Z) (l : list A) (c : A) : Prop :=
  exists before after,
    l = (before ++ c :: after)%list
    /\ (forall y, In y before -> (key c < key y)%Z)
    /\ (forall y, In y after -> (key c <= key y)%Z).

(** [c] is the last of the entries of [l] with the greatest key. *)
Definition last_greatest {A} (key : A -> Z) (l : list A) (c : A) : Prop :=
  exists before after,
    l = (before ++ c :: after)%list
    /\ (forall y, In y before -> (key y <= key c)%Z)
    /\ (forall y, In y after -> (key y < key c)%Z).

(** The entry's key is of the given kind. *)
Definition of_kind {A} (key : A -> datetime) (aware : bool) (a : A) : Prop :=
  is_aware (key a) = aware.

(** The rank of the key of a keyed entry. *)
Definition krank {A} (x : datetime * A) : Z := rank (fst x).

(** Insertion and sorting once no comparison can raise. *)
Fixpoint insert_pure {A} (x : datetime * A) (l : list (datetime * A))
  : list (datetime * A) :=
  match l with
  | [] => [x]
  | y :: l' =>
      if (krank x <? krank y)%Z then x :: y :: l' else y :: insert_pure x l'
  end.

Definition sort_pure {A} (done todo : list (datetime * A))
  : list (datetime * A) :=
  fold_left (fun d x => insert_pure x d) todo done.

(** All the keys are of one kind. *)
Definition same_kind {A} (aware : bool) (l : list (datetime * A)) : Prop :=
  Forall (fun x => is_aware (fst x) = aware) l.

(** No entry has a greater key than the last. *)
Definition ordered {A} (l : list (datetime * A)) : Prop :=
  forall y, In y l -> (krank y <= krank (last l y))%Z.

(** An entry with its key, as the sort decorates it. *)
Definition keyed {A} (key : A -> datetime) (a : A) : datetime * A :=
  (key a, a).

(** Entries of a Modrinth version listing. *)
Definition dated_candidate : json :=
  JDict [("version_number", JStr "1.0.0");
         ("date_published", JStr "2024-01-01T00:00:00Z")].

Definition later_candidate : json :=
  JDict [("version_number", JStr "1.1.0");
         ("date_published", JStr "2024-02-01T00:00:00Z")].

Definition undated_candidate : json :=
  JDict [("version_number", JStr "1.1.0")].

(** The exception of an ordering between a naive and an aware timestamp. *)
Definition naive_aware_error : exn :=
  Exn TypeError "can't compare offset-naive and offset-aware datetimes".

Definition undated_dependency : Dependency :=
  mkDependency "lithium" "*" (Some "undated") None.

(** The message names every part of the context of a resolution: the
    dependency, the loader, the Minecraft version and the policy. *)
Definition names_context (msg : string) (args : Args) (dep : Dependency) : Prop :=
  Py.contains msg (mod_id dep) = true
  /\ Py.contains msg (arg_loader args) = true
  /\ Py.contains msg (arg_minecraft_version args) = true
  /\ Py.contains msg (arg_policy args) = true.

(** A strict run on a project whose only dependency has no alias. *)
Definition strict_args : Args := mkArgs "fabric" "1.20.1" "max" "deps.yml" true.

Definition project_without_alias : Project :=
  mkProject (Some (JDict [("depends", JDict [("foo", JStr "*")])])) None None.

Definition empty_world : world := mkWorld [] [] [].

(** The characters a comparator begins with. *)
Definition is_comparator_char (c : ascii) : bool :=
  Ascii.eqb ">" c || Ascii.eqb "<" c || Ascii.eqb "=" c.

(** A separator as a range writes it between two tokens: whitespace, or
    a comma and then whitespace. *)
Definition is_separator_text (sep : string) : bool :=
  match sep with
  | EmptyString => false
  | String c ws => (Py.is_space c || is_comma c) && all_chars Py.is_space ws
  end.

(** A token, and further tokens each after a separator. *)
Fixpoint join_tokens (t : string) (rest : list (string * string)) : string :=
  match rest with
  | [] => t
  | (sep, tok) :: rest' => t ++ sep ++ join_tokens tok rest'
  end.

(** A separator followed by a non-empty token that holds no separator. *)
Definition separated_token (st : string * string) : Prop :=
  is_separator_text (fst st) = true
  /\ sepless (snd st) /\ Py.nonempty (snd st) = true.

(** The characters that send a range to another branch of the parser. *)
Definition is_range_mark (c : ascii) : bool :=
  Ascii.eqb "^" c || Ascii.eqb "~" c || Ascii.eqb "[" c || Ascii.eqb "(" c
  || Ascii.eqb "*" c.

(** The numbers of the groups of a pattern. *)
Fixpoint groups_of (r : Re.re) : list nat :=
  match r with
  | Re.Seq r1 r2 | Re.Alt r1 r2 => (groups_of r1 ++ groups_of r2)%list
  | Re.Group i r' => i :: groups_of r'
  | _ => []
  end.

(** Dependencies the catalogs of [sample_runtime] know, and one whose
    CurseForge alias is a slug. *)
Definition sodium_any : Dependency :=
  mkDependency "sodium" "*" (Some "sodium") None.

Definition jei_any : Dependency :=
  mkDependency "jei" "*" None (Some "238222").

Definition jei_by_slug : Dependency :=
  mkDependency "jei" "*" None (Some "jei").

(** The text of a CurseForge file id: [str] of an [int], a [bool]
    included. *)
Definition file_id_text (file_id : json) (text : string) : Prop :=
  (exists n, file_id = JInt n /\ text = Py.str_int n)
  \/ (exists b : bool, file_id = JBool b /\ text = if b then "True" else "False").

(** One turn of the de-duplication loop of [main]. *)
Definition dedupe_step (by_id : list (string * Dependency)) (dep : Dependency)
  : list (string * Dependency) :=
  match assoc_get by_id (mod_id dep) with
  | None => assoc_set by_id (mod_id dep) dep
  | Some existing =>
      if Nat.ltb (score existing) (score dep)
      then assoc_set by_id (mod_id dep) dep
      else by_id
  end.

(** The entry de-duplication keeps among those of its id: it has
    strictly more aliases than each one before it and at least as many
    as each one after it. *)
Definition survivor (deps : list Dependency) (d : Dependency) : Prop :=
  exists before after,
    deps = (before ++ d :: after)%list
    /\ (forall x, In x before -> mod_id x = mod_id d -> (score x < score d)%nat)
    /\ (forall x, In x after -> mod_id x = mod_id d -> (score x <= score d)%nat).

(** What the de-duplication loop keeps true of the entries seen so far. *)
Definition dedupe_inv (seen : list Dependency)
           (by_id : list (string * Dependency)) : Prop :=
  NoDup (map fst by_id)
  /\ (forall k d, assoc_get by_id k = Some d -> k = mod_id d /\ survivor seen d)
  /\ (forall x, In x seen -> assoc_get by_id (mod_id x) <> None).

(** Ascending order of the ids, without and with repetitions. *)
Definition id_before (a b : Dependency) : Prop :=
  String.ltb (mod_id a) (mod_id b) = true.

Definition key_not_after {A} (a b : string * A) : Prop :=
  String.ltb (fst b) (fst a) = false.

(** A Fabric project with two dependencies, declared in descending
    order of their ids, and the entries read from it. *)
Definition two_dependency_project : Project :=
  mkProject
    (Some (JDict [("depends",
                   JDict [("sodium", JStr "*");
                          ("fabric-api", JStr ">=0.90.0")])]))
    None None.

Definition sodium_plain : Dependency := mkDependency "sodium" "*" None None.
Definition fabric_api_plain : Dependency :=
  mkDependency "fabric-api" ">=0.90.0" None None.

(** Whether [main] resolves a dependency: one of its aliases is a
    non-empty string. *)
Definition has_alias (d : Dependency) : bool :=
  some_nonempty (modrinth d) || some_nonempty (curseforge d).

(** The artifact of a dependency carries its id; it is a Modrinth
    artifact whenever the dependency has a Modrinth alias, and a
    CurseForge artifact otherwise. *)
Definition artifact_of (d : Dependency) (r : ResolvedDependency) : Prop :=
  name r = mod_id d
  /\ source_type r
     = (if some_nonempty (modrinth d) then "modrinth" else "curseforge").

(** The two lines [main] prints at the end of a run. *)
Definition report (out : string) (count : nat) : list string :=
  ["generated_deps_file=" ++ out;
   "generated_deps_count=" ++ Py.str_int (Z.of_nat count)].

(** The document written when nothing was resolved. *)
Definition empty_document : string :=
  String.concat newline_str
    ["version: " ++ quoted "1.0";
     "settings:";
     "  auto_resolve_latest: false";
     "";
     "dependencies:";
     "  runtime:";
     "    []"]
  ++ newline_str.

(** A Fabric project whose dependency is annotated with its Modrinth
    alias, and runs on it. *)
Definition sodium_project : Project :=
  mkProject
    (Some (JDict
             [("depends", JDict [("sodium", JStr "*")]);
              ("custom",
               JDict [("mc-publish",
                       JDict [("dependencies",
                               JList [JStr "sodium{modrinth:sodium}"])])])]))
    None None.

Definition sodium_latest : ResolvedDependency :=
  mkResolved "modrinth" "sodium" (Some "sodium") (Some "1.1.0") None None.

Definition jei_latest : ResolvedDependency :=
  mkResolved "curseforge" "jei" None None (Some "238222") (Some "4002").

Definition fabric_args : Args := mkArgs "fabric" "1.20.1" "max" "deps.yml" false.

(** A range an extractor may hand over: not empty, and without
    whitespace around it. *)
Definition usable_range (d : Dependency) : Prop :=
  Py.nonempty (version_range d) = true
  /\ Py.strip (version_range d) = version_range d.

(** A Quilt manifest whose dependency gives a blank range. *)
Definition quilt_manifest_blank_range : json :=
  JDict [("depends",
          JList [JDict [("id", JStr "qsl"); ("versions", JStr "   ")]])].

(** An alias annotation as mc-publish writes it, [{platform:alias}], and
    a run of annotations. *)
Definition note (pa : string * string) : string :=
  "{" ++ fst pa ++ ":" ++ snd pa ++ "}".

Fixpoint notes (entries : list (string * string)) : string :=
  match entries with
  | [] => ""
  | pa :: rest => note pa ++ notes rest
  end.

(** The characters of an alias written without padding: neither
    whitespace nor the closing brace. *)
Definition is_alias_char (c : ascii) : bool :=
  negb (Py.is_space c) && not_close_brace c.

(** A platform name and an alias that an annotation carries as they
    are. *)
Definition well_formed_note (pa : string * string) : Prop :=
  Py.nonempty (fst pa) = true
  /\ all_chars is_platform_char (fst pa) = true
  /\ Py.nonempty (snd pa) = true
  /\ all_chars is_alias_char (snd pa) = true.

(** The alias table a list of annotations fills. *)
Definition alias_table_of (entries : list (string * string)) : alias_table :=
  fold_left (fun acc pa => assoc_set acc (Py.lower (fst pa)) (snd pa))
            entries [].

(** The alias of the last annotation for a platform. *)
Definition last_alias (entries : list (string * string)) (platform : string)
  : option string :=
  option_map snd
    (find (fun pa => String.eqb (Py.lower (fst pa)) platform) (rev entries)).

(** The groups [re.findall] reports for a match of the alias pattern. *)
Definition alias_groups (x : string * string * Re.found) : string * string :=
  (Re.group_or_empty (snd x) 1, Re.group_or_empty (snd x) 2).

(** Whether a dependency string begins, once stripped, with an id. *)
Definition has_id (value : string) : bool :=
  Py.nonempty (take_while is_id_char (Py.strip value)).

(** The items the alias loops pass: the values that are not strings, and
    the strings with an id. *)
Definition accepted_item (item : json) : Prop :=
  match item with
  | JStr value => has_id value = true
  | _ => True
  end.

Definition invalid_dependency_string `{Runtime} (value : string) : exn :=
  Exn ValueError
    ("Invalid mc-publish dependency string: " ++ py_repr (JStr value)).

(** An annotated dependency, given by its id and its annotations, and
    the item that declares it. *)
Definition annotated (spec : string * list (string * string)) : json :=
  JStr (fst spec ++ notes (snd spec)).

Definition well_formed_spec (spec : string * list (string * string)) : Prop :=
  Py.nonempty (fst spec) = true
  /\ all_chars is_id_char (fst spec) = true
  /\ Forall well_formed_note (snd spec).

(** The annotations given for an id, in the order of the items. *)
Definition annotations_of (specs : list (string * list (string * string)))
           (id : string) : list (string * string) :=
  flat_map (fun spec => if String.eqb (fst spec) id then snd spec else [])
           specs.

(** The alias map agrees with the annotations seen. *)
Definition alias_map_of (specs : list (string * list (string * string)))
           (m : list (string * alias_table)) : Prop :=
  forall id platform,
    assoc_get (aliases_of m id) platform
    = last_alias (annotations_of specs id) platform.

(** A Fabric manifest one of whose annotations has no id. *)
Definition fabric_manifest_bad_annotation : json :=
  JDict [("depends", JDict [("sodium", JStr "*")]);
         ("custom",
          JDict [("mc-publish",
                  JDict [("dependencies",
                          JList [JStr "sodium{modrinth:AANobbMI}";
                                 JStr "{modrinth:P7dR8mSH}"])])])].

(** The characters other than decimal digits. *)
Definition not_digit (c : ascii) : bool := negb (Py.is_digit c).





(** The text occurs in the other as a substring. *)
Definition occurs_in (needle text : string) : Prop :=
  exists before after, text = before ++ needle ++ after.

(** The file's name or display name contains the text. *)
Definition mentions `{Runtime} (needle : string) (item : json) : Prop :=
  exists d,
    item = JDict d
    /\ (occurs_in needle (str_or_empty (dict_get d "fileName"))
        \/ occurs_in needle (str_or_empty (dict_get d "displayName"))).

(** A dependency on an exact version that one file of the sample
    catalog carries in its name, and that file resolved. *)
Definition jei_15_3 : Dependency :=
  mkDependency "jei" "15.3.0" None (Some "238222").

Definition jei_15_3_file : ResolvedDependency :=
  mkResolved "curseforge" "jei" None None (Some "238222") (Some "4002").

(* ================================================================== *)
(** * Satisfaction *)

Lemma compare_versions_range a b :
  compare_versions a b = (-1)%Z \/ compare_versions a b = 0%Z
  \/ compare_versions a b = 1%Z.
Proof.
  unfold compare_versions.
  destruct (Py.tuple_ltb _ _); [now left|].
  destruct (Py.tuple_ltb _ _); [now right; right | now right; left].
Qed.

(** One step of the loop of [satisfies_constraints]. *)
Lemma satisfies_cons v c rest :
  satisfies_constraints v (c :: rest) = true <->
  meets v c /\ satisfies_constraints v rest = true.
Proof.
  unfold meets. simpl.
  set (cmp := compare_versions v (version c)).
  rewrite ?Z.geb_leb, ?Z.gtb_ltb.
  repeat match goal with
    | |- context [String.eqb (op c) ?l] =>
        destruct (String.eqb_spec (op c) l) as [-> | ?]
    end;
  repeat match goal with
    | |- context [(?a <=? ?b)%Z] => destruct (Z.leb_spec a b)
    | |- context [(?a <? ?b)%Z] => destruct (Z.ltb_spec a b)
    | |- context [(?a =? ?b)%Z] => destruct (Z.eqb_spec a b)
    end; simpl;
  intuition (try discriminate; try lia; try congruence).
Qed.

Lemma satisfies_unknown_op v c rest :
  ~ known_op (op c) -> satisfies_constraints v (c :: rest) = false.
Proof.
  unfold known_op. intros U. simpl.
  repeat match goal with
    | |- context [String.eqb (op c) ?l] =>
        destruct (String.eqb_spec (op c) l) as [E | ?]; [exfalso; tauto|]
    end.
  reflexivity.
Qed.

Lemma satisfies_cons_false v c rest :
  satisfies_constraints v rest = false ->
  satisfies_constraints v (c :: rest) = false.
Proof.
  intros R.
  destruct (satisfies_constraints v (c :: rest)) eqn:E; [|reflexivity].
  apply satisfies_cons in E. destruct E as [_ E]. congruence.
Qed.

(** C2.  [satisfies_constraints v cs] is true exactly when [v] meets every
    constraint of [cs] under [compare_versions]; the empty list is
    satisfied by every version; a constraint whose operator is not one of
    [=], [>], [>=], [<], [<=] makes the result false for every version. *)
Theorem satisfies_iff_meets_all :
  (forall v cs, satisfies_constraints v cs = true <-> Forall (meets v) cs)
  /\ (forall v, satisfies_constraints v [] = true)
  /\ (forall v cs c, In c cs -> ~ known_op (op c) ->
                     satisfies_constraints v cs = false).
Proof.
  split; [|split].
  - intros v cs. induction cs as [|c rest IH].
    + split; [constructor | reflexivity].
    + rewrite satisfies_cons. split.
      * intros [M R]. constructor; [exact M | now apply IH].
      * intros F. inversion F; subst. split; [assumption | now apply IH].
  - reflexivity.
  - intros v cs c I U. induction cs as [|c' rest IH]; [destruct I|].
    destruct I as [-> | I].
    + now apply satisfies_unknown_op.
    + apply satisfies_cons_false. now apply IH.
Qed.

Lemma satisfies_iff_meets_all_witness :
  satisfies_constraints "1.5" [mkConstraint ">=" "1.0"; mkConstraint "~=" "1.0"]
  = false.
Proof.
  apply (proj2 (proj2 satisfies_iff_meets_all) "1.5" _ (mkConstraint "~=" "1.0")).
  - simpl. right. left. reflexivity.
  - unfold known_op. simpl. intros [E | [E | [E | [E | E]]]]; discriminate E.
Defined.

(* ================================================================== *)
(** * Strings *)

Lemma length_take_drop p s :
  String.length (take_while p s) + String.length (drop_while p s)
  = String.length s.
Proof.
  induction s as [|c s IH]; simpl; [reflexivity|].
  destruct (p c); simpl; lia.
Qed.

Lemma substring_take_while p s :
  String.substring 0 (String.length (take_while p s)) s = take_while p s.
Proof.
  induction s as [|c s IH]; simpl; [reflexivity|].
  destruct (p c); simpl; [now rewrite IH | reflexivity].
Qed.

Lemma take_while_app p a b :
  all_chars p a = true -> not_starting p b = true ->
  take_while p (a ++ b) = a.
Proof.
  intros A B. induction a as [|c a IH]; simpl in *.
  - destruct b as [|c b]; simpl in *; [reflexivity|].
    now destruct (p c).
  - apply andb_prop in A. destruct A as [-> A]. now rewrite IH.
Qed.

Lemma drop_while_app p a b :
  all_chars p a = true -> not_starting p b = true ->
  drop_while p (a ++ b) = b.
Proof.
  intros A B. induction a as [|c a IH]; simpl in *.
  - destruct b as [|c b]; simpl in *; [reflexivity|].
    now destruct (p c).
  - apply andb_prop in A. destruct A as [-> A]. now apply IH.
Qed.

Lemma append_assoc (a b c : string) : (a ++ b) ++ c = a ++ (b ++ c).
Proof. induction a as [|x a IH]; simpl; [reflexivity | now rewrite IH]. Qed.

Lemma append_empty_r (a : string) : a ++ "" = a.
Proof. induction a as [|x a IH]; simpl; [reflexivity | now rewrite IH]. Qed.

(** ** Stripping *)

Lemma lstrip_not_starting s :
  not_starting Py.is_space s = true -> Py.lstrip s = s.
Proof.
  destruct s as [|c s]; simpl; [reflexivity|].
  now destruct (Py.is_space c).
Qed.

Lemma rstrip_app a b :
  Py.rstrip b = b -> Py.nonempty b = true -> Py.rstrip (a ++ b) = a ++ b.
Proof.
  intros R N. induction a as [|c a IH]; simpl; [exact R|].
  rewrite IH. destruct a; simpl; [|reflexivity].
  destruct b; [discriminate N | reflexivity].
Qed.

Lemma rstrip_no_space s :
  all_chars (fun c => negb (Py.is_space c)) s = true -> Py.rstrip s = s.
Proof.
  induction s as [|c s IH]; simpl; [reflexivity|].
  intros A. apply andb_prop in A. destruct A as [C A].
  rewrite (IH A). destruct s; [|reflexivity].
  apply negb_true_iff in C. now rewrite C.
Qed.

Lemma digit_not_space c : Py.is_digit c = true -> Py.is_space c = false.
Proof.
  unfold Py.is_digit, Py.is_space. intros D.
  apply andb_prop in D. destruct D as [L U].
  apply Nat.leb_le in L. apply Nat.leb_le in U.
  repeat match goal with
    | |- context [(?a <=? ?b)%nat] => destruct (Nat.leb_spec a b)
    | |- context [(?a =? ?b)%nat] => destruct (Nat.eqb_spec a b)
    end; simpl; try reflexivity; lia.
Qed.

Lemma numeral_no_space s :
  all_chars Py.is_digit s = true ->
  all_chars (fun c => negb (Py.is_space c)) s = true.
Proof.
  induction s as [|c s IH]; simpl; [reflexivity|].
  intros A. apply andb_prop in A. destruct A as [C A].
  now rewrite (digit_not_space _ C), IH.
Qed.

Lemma rstrip_numeral s : all_chars Py.is_digit s = true -> Py.rstrip s = s.
Proof. intros A. apply rstrip_no_space. now apply numeral_no_space. Qed.

(** ** Reversal, slices and membership *)

Lemma rev_app a b : Py.rev (a ++ b) = Py.rev b ++ Py.rev a.
Proof.
  induction a as [|c a IH]; simpl.
  - now rewrite append_empty_r.
  - now rewrite IH, append_assoc.
Qed.

Lemma slice_to_m1_snoc a c : Py.slice_to_m1 (a ++ String c "") = a.
Proof.
  induction a as [|x a IH]; simpl; [reflexivity|].
  rewrite IH. destruct a; reflexivity.
Qed.

Lemma contains_char hay c :
  Py.contains hay (String c "") = has_char c hay.
Proof.
  induction hay as [|x hay IH]; simpl; [reflexivity|].
  rewrite IH. destruct (ascii_dec c x) as [-> | N].
  - rewrite Ascii.eqb_refl. destruct hay; reflexivity.
  - destruct (Ascii.eqb_spec x c); [congruence | reflexivity].
Qed.

Lemma has_char_app c a b : has_char c (a ++ b) = has_char c a || has_char c b.
Proof.
  induction a as [|x a IH]; simpl; [reflexivity|].
  rewrite IH. now rewrite orb_assoc.
Qed.

Lemma split1_found sep a b :
  has_char sep a = false -> Py.split1 sep (a ++ String sep b) = [a; b].
Proof.
  induction a as [|x a IH]; simpl; intros N.
  - now rewrite Ascii.eqb_refl.
  - apply orb_false_iff in N. destruct N as [X N].
    rewrite X, (IH N). reflexivity.
Qed.

Lemma split1_two sep s :
  has_char sep s = true -> exists a b, Py.split1 sep s = [a; b].
Proof.
  induction s as [|x s IH]; simpl; [discriminate|].
  destruct (Ascii.eqb x sep); simpl; intros N.
  - now exists "", s.
  - destruct (IH N) as [a [b ->]]. now exists (String x a), b.
Qed.

(* ================================================================== *)
(** * Digit runs: what [re.findall] gives for [\d+] *)

Lemma star_greedy_accept p pos s g :
  Re.star true p Re.accept pos s g
  = Some (Re.Found (pos + String.length (take_while p s)) (drop_while p s) g).
Proof.
  revert pos. induction s as [|c s IH]; intros pos; simpl.
  - unfold Re.accept. now rewrite Nat.add_0_r.
  - destruct (p c); simpl.
    + rewrite IH. do 2 f_equal. lia.
    + unfold Re.accept. now rewrite Nat.add_0_r.
Qed.

Lemma match_digits pos s :
  Re.m re_digits Re.accept pos s []
  = match s with
    | String c s' =>
        if Py.is_digit c
        then Some (Re.Found (S pos + String.length (take_while Py.is_digit s'))
                            (drop_while Py.is_digit s') [])
        else None
    | EmptyString => None
    end.
Proof.
  unfold re_digits, Re.Plus. cbn [Re.m].
  destruct s as [|c s]; [reflexivity|].
  destruct (Py.is_digit c); [|reflexivity].
  apply star_greedy_accept.
Qed.

Lemma search_digits_empty pos : Re.search_from re_digits pos "" = None.
Proof. reflexivity. Qed.

Lemma search_digits_digit pos c s :
  Py.is_digit c = true ->
  Re.search_from re_digits pos (String c s)
  = Some ("", String c (take_while Py.is_digit s),
          Re.Found (S pos + String.length (take_while Py.is_digit s))
                   (drop_while Py.is_digit s) []).
Proof.
  intros D. cbn [Re.search_from]. rewrite match_digits, D.
  cbn [Re.f_end].
  replace (S pos + String.length (take_while Py.is_digit s) - pos)
    with (S (String.length (take_while Py.is_digit s))) by lia.
  cbn [String.substring]. now rewrite substring_take_while.
Qed.

Lemma search_digits_skip pos c s :
  Py.is_digit c = false ->
  Re.search_from re_digits pos (String c s)
  = match Re.search_from re_digits (S pos) s with
    | Some (skipped, matched, f) => Some (String c skipped, matched, f)
    | None => None
    end.
Proof.
  intros D. cbn [Re.search_from]. now rewrite match_digits, D.
Qed.

Lemma scan_digits_skip fuel pos c s :
  Py.is_digit c = false ->
  matched_texts (fst (Re.scan (S fuel) re_digits pos (String c s)))
  = matched_texts (fst (Re.scan (S fuel) re_digits (S pos) s)).
Proof.
  intros D. cbn [Re.scan]. rewrite (search_digits_skip _ _ _ D).
  destruct (Re.search_from re_digits (S pos) s) as [[[sk mt] f]|]; [|reflexivity].
  destruct (Re.scan fuel re_digits (Re.f_end f) (Re.f_rest f)); reflexivity.
Qed.

Lemma digit_pieces_span s :
  exists ps,
    digit_pieces (drop_while Py.is_digit s) = "" :: ps
    /\ digit_pieces s = take_while Py.is_digit s :: ps.
Proof.
  induction s as [|c s [ps [E1 E2]]]; simpl.
  - now exists [].
  - destruct (Py.is_digit c) eqn:D; simpl.
    + exists ps. rewrite E2. now split.
    + rewrite D. exists (digit_pieces s). now split.
Qed.

Lemma digit_runs_digit c s :
  Py.is_digit c = true ->
  digit_runs (String c s)
  = String c (take_while Py.is_digit s) :: digit_runs (drop_while Py.is_digit s).
Proof.
  intros D. unfold digit_runs.
  destruct (digit_pieces_span s) as [ps [E1 E2]].
  rewrite E1. simpl. now rewrite D, E2.
Qed.

Lemma digit_runs_skip c s :
  Py.is_digit c = false -> digit_runs (String c s) = digit_runs s.
Proof. intros D. unfold digit_runs. simpl. now rewrite D. Qed.

Lemma scan_digits n :
  forall s fuel pos,
    String.length s <= n -> String.length s < fuel ->
    matched_texts (fst (Re.scan fuel re_digits pos s)) = digit_runs s.
Proof.
  induction n as [|n IH]; intros s fuel pos Ln Lf.
  - destruct s; [|simpl in Ln; lia].
    destruct fuel; reflexivity.
  - destruct fuel as [|fuel]; [lia|].
    destruct s as [|c s]; [reflexivity|].
    simpl in Ln, Lf.
    destruct (Py.is_digit c) eqn:D.
    + rewrite (digit_runs_digit _ _ D).
      cbn [Re.scan]. rewrite (search_digits_digit _ _ _ D).
      cbn [Re.f_end Re.f_rest].
      pose proof (length_take_drop Py.is_digit s) as L.
      specialize (IH (drop_while Py.is_digit s) fuel
                     (S pos + String.length (take_while Py.is_digit s))).
      destruct (Re.scan fuel re_digits _ (drop_while Py.is_digit s)) as [ms l].
      simpl in *. f_equal. apply IH; lia.
    + rewrite (digit_runs_skip _ _ D), (scan_digits_skip _ _ _ _ D).
      apply IH; lia.
Qed.

(** [re.findall(r"\d+", s)] is the list of the maximal digit runs of [s]. *)
Lemma findall_digits s : Re.findall re_digits s = digit_runs s.
Proof.
  unfold Re.findall, Re.matches.
  apply (scan_digits (String.length s)); lia.
Qed.

Lemma parse_version_key_spec s : parse_version_key s = version_key_spec s.
Proof.
  unfold parse_version_key, version_key_spec. rewrite findall_digits.
  destruct (digit_runs s); reflexivity.
Qed.

(* ================================================================== *)
(** * Version ordering *)

Lemma tuple_ltb_lex a b :
  Py.tuple_ltb a b = true <-> lex_compare a b = Lt.
Proof.
  revert b. induction a as [|x a IH]; intros [|y b]; simpl;
    try (split; congruence).
  destruct (Z.eqb_spec x y) as [-> | N].
  - rewrite Z.compare_refl. apply IH.
  - destruct (Z.compare_spec x y) as [E | L | G]; [congruence| |].
    + split; [reflexivity | intros _; now apply Z.ltb_lt].
    + split; [|discriminate]. intros L. apply Z.ltb_lt in L. lia.
Qed.

Lemma lex_compare_antisym a b : lex_compare b a = CompOpp (lex_compare a b).
Proof.
  revert b. induction a as [|x a IH]; intros [|y b]; simpl; try reflexivity.
  rewrite (Z.compare_antisym x y).
  destruct (x ?= y)%Z; simpl; [apply IH | reflexivity | reflexivity].
Qed.

Lemma compare_versions_lex a b :
  compare_versions a b
  = sign_of (lex_compare (version_key_spec a) (version_key_spec b)).
Proof.
  unfold compare_versions. rewrite !parse_version_key_spec.
  set (ka := version_key_spec a). set (kb := version_key_spec b).
  destruct (lex_compare ka kb) eqn:E.
  - destruct (Py.tuple_ltb ka kb) eqn:L1.
    + apply tuple_ltb_lex in L1. congruence.
    + destruct (Py.tuple_ltb kb ka) eqn:L2; [|reflexivity].
      apply tuple_ltb_lex in L2. rewrite lex_compare_antisym, E in L2.
      discriminate.
  - apply tuple_ltb_lex in E. now rewrite E.
  - destruct (Py.tuple_ltb ka kb) eqn:L1.
    + apply tuple_ltb_lex in L1. congruence.
    + assert (L2 : lex_compare kb ka = Lt)
        by now rewrite lex_compare_antisym, E.
      apply tuple_ltb_lex in L2. now rewrite L2.
Qed.

(** C3.  [compare_versions a b] is the lexicographic comparison of the
    integer tuples made of the maximal digit runs of [a] and of [b], a
    string without digits being keyed [(0,)]; and
    [compare("1.10.0", "1.9.0")] is positive. *)
Theorem compare_versions_is_lexicographic :
  (forall a b,
      compare_versions a b
      = sign_of (lex_compare (version_key_spec a) (version_key_spec b)))
  /\ (forall s, digit_runs s = [] -> parse_version_key s = [0%Z])
  /\ (compare_versions "1.10.0" "1.9.0" > 0)%Z.
Proof.
  split; [exact compare_versions_lex|]. split.
  - intros s E. rewrite parse_version_key_spec. unfold version_key_spec.
    now rewrite E.
  - vm_compute. reflexivity.
Qed.

Lemma compare_versions_is_lexicographic_witness :
  parse_version_key "beta" = [0%Z].
Proof.
  apply (proj1 (proj2 compare_versions_is_lexicographic) "beta").
  vm_compute. reflexivity.
Defined.

Lemma tuple_ltb_proper_prefix k t :
  t <> [] -> Py.tuple_ltb k (k ++ t) = true.
Proof.
  intros N. induction k as [|x k IH]; simpl.
  - destruct t; [congruence | reflexivity].
  - now rewrite Z.eqb_refl.
Qed.

Lemma tuple_ltb_irrefl k : Py.tuple_ltb k k = false.
Proof. induction k as [|x k IH]; simpl; [reflexivity | now rewrite Z.eqb_refl]. Qed.

(** C10.  A version whose digit-run tuple is a proper prefix of another's
    is strictly smaller: [compare("1.0", "1.0.0") = -1], and the exact
    range ["1.0"] does not accept ["1.0.0"]. *)
Theorem prefix_version_is_smaller :
  (forall a b,
      proper_prefix (parse_version_key a) (parse_version_key b) ->
      compare_versions a b = (-1)%Z)
  /\ compare_versions "1.0" "1.0.0" = (-1)%Z
  /\ parse_constraints "1.0" = Ok [mkConstraint "=" "1.0"]
  /\ satisfies_constraints "1.0.0" [mkConstraint "=" "1.0"] = false.
Proof.
  split; [|repeat split; vm_compute; reflexivity].
  intros a b [t [N E]]. unfold compare_versions.
  rewrite E. now rewrite tuple_ltb_proper_prefix.
Qed.

Lemma prefix_version_is_smaller_witness :
  compare_versions "2.4" "2.4.0.1" = (-1)%Z.
Proof.
  apply (proj1 prefix_version_is_smaller "2.4" "2.4.0.1").
  exists [0%Z; 1%Z]. split; [discriminate | vm_compute; reflexivity].
Defined.

(* ================================================================== *)
(** * Interval ranges *)

Lemma prefix_empty s : String.prefix "" s = true.
Proof. destruct s; reflexivity. Qed.

Lemma startswith_char c s p :
  Py.startswith (String c s) (String p "") = Ascii.eqb p c.
Proof.
  unfold Py.startswith. simpl.
  destruct (ascii_dec p c) as [-> | N].
  - now rewrite prefix_empty, Ascii.eqb_refl.
  - symmetry. now apply Ascii.eqb_neq.
Qed.

Lemma endswith_snoc a c p :
  Py.endswith (a ++ String c "") (String p "") = Ascii.eqb p c.
Proof.
  unfold Py.endswith. rewrite rev_app. simpl.
  destruct (ascii_dec p c) as [-> | N].
  - now rewrite prefix_empty, Ascii.eqb_refl.
  - symmetry. now apply Ascii.eqb_neq.
Qed.

Lemma rev_involutive s : Py.rev (Py.rev s) = s.
Proof.
  induction s as [|c s IH]; simpl; [reflexivity|].
  rewrite rev_app. simpl. now rewrite IH.
Qed.

Lemma endswith_snoc_inv s p :
  Py.endswith s (String p "") = true -> exists u, s = u ++ String p "".
Proof.
  unfold Py.endswith. simpl. intros E.
  destruct (Py.rev s) as [|c w] eqn:R; [discriminate E|].
  simpl in E. destruct (ascii_dec p c) as [-> | N]; [|discriminate E].
  exists (Py.rev w). rewrite <- (rev_involutive s), R. reflexivity.
Qed.

(** The tests of [parse_constraints] on a bracketed text. *)
Lemma strip_bracketed lc rc body :
  Py.is_space lc = false -> Py.is_space rc = false ->
  Py.strip (String lc (body ++ String rc "")) = String lc (body ++ String rc "").
Proof.
  intros L R. unfold Py.strip.
  rewrite lstrip_not_starting by (simpl; now rewrite L).
  change (String lc (body ++ String rc "")) with (String lc body ++ String rc "").
  apply rstrip_app; [simpl; now rewrite R | reflexivity].
Qed.

Lemma bracketed_text li ri lo hi :
  open_bracket li ++ lo ++ "," ++ hi ++ close_bracket ri
  = String (if li then "[" else "(")%char
      ((lo ++ String "," hi) ++ String (if ri then "]" else ")")%char "").
Proof.
  rewrite append_assoc. destruct li, ri; reflexivity.
Qed.

Lemma endswith_bracketed lc rc body p :
  Py.endswith (String lc (body ++ String rc "")) (String p "") = Ascii.eqb p rc.
Proof.
  change (String lc (body ++ String rc "")) with (String lc body ++ String rc "").
  apply endswith_snoc.
Qed.

Lemma contains_comma_bracketed lc rc lo hi :
  Py.contains (String lc ((lo ++ String "," hi) ++ String rc "")) ","
  = true.
Proof.
  rewrite contains_char. simpl. rewrite !has_char_app. simpl.
  rewrite orb_true_r. simpl. now rewrite orb_true_r.
Qed.

Lemma parse_interval li ri lo hi :
  has_char "," lo = false ->
  parse_constraints (open_bracket li ++ lo ++ "," ++ hi ++ close_bracket ri)
  = Ok (lower_bound li (Py.strip lo) ++ upper_bound ri (Py.strip hi))%list.
Proof.
  intros N. rewrite bracketed_text. unfold parse_constraints.
  rewrite strip_bracketed by (destruct li, ri; reflexivity).
  cbv zeta.
  rewrite !startswith_char, !endswith_bracketed, contains_comma_bracketed.
  unfold Py.slice_1_m1. cbn [Py.slice_from1].
  rewrite slice_to_m1_snoc, (split1_found _ _ _ N).
  cbn [map].
  unfold lower_bound, upper_bound.
  destruct li, ri; reflexivity.
Qed.

(** C4.  A bracketed, comma-separated interval yields at most two
    constraints: the lower bound with [>=] after [[] and [>] after [(],
    the upper bound with [<=] before []] and [<] before [)], and nothing
    for an omitted bound; ["[1.0,2.0)"] gives [>=1.0] and [<2.0], which
    ["1.9.9"] satisfies and ["2.0.0"] does not. *)
Theorem interval_range_constraints :
  (forall li ri lo hi,
      has_char "," lo = false ->
      exists cs,
        parse_constraints
          (open_bracket li ++ lo ++ "," ++ hi ++ close_bracket ri) = Ok cs
        /\ cs = (lower_bound li (Py.strip lo)
                 ++ upper_bound ri (Py.strip hi))%list
        /\ List.length cs <= 2)
  /\ lower_bound true "" = [] /\ lower_bound false "" = []
  /\ upper_bound true "" = [] /\ upper_bound false "" = []
  /\ parse_constraints "[1.0,2.0)"
     = Ok [mkConstraint ">=" "1.0"; mkConstraint "<" "2.0"]
  /\ satisfies_constraints "1.9.9"
       [mkConstraint ">=" "1.0"; mkConstraint "<" "2.0"] = true
  /\ satisfies_constraints "2.0.0"
       [mkConstraint ">=" "1.0"; mkConstraint "<" "2.0"] = false.
Proof.
  split; [|repeat split; vm_compute; reflexivity].
  intros li ri lo hi N.
  eexists. split; [now apply parse_interval|]. split; [reflexivity|].
  unfold lower_bound, upper_bound.
  destruct (Py.nonempty (Py.strip lo)), (Py.nonempty (Py.strip hi));
    simpl; lia.
Qed.

Lemma interval_range_constraints_witness :
  exists cs,
    parse_constraints (open_bracket false ++ " 1.2 " ++ "," ++ "" ++ close_bracket true)
    = Ok cs
    /\ cs = [mkConstraint ">" "1.2"]
    /\ List.length cs <= 2.
Proof.
  apply (proj1 interval_range_constraints false true " 1.2 " "").
  reflexivity.
Defined.

(* ================================================================== *)
(** * Caret and tilde ranges *)

Lemma numeral_inv s :
  numeral s ->
  exists c s', s = String c s' /\ Py.is_digit c = true
               /\ all_chars Py.is_digit s' = true.
Proof.
  intros [N A]. destruct s as [|c s']; [discriminate N|].
  simpl in A. apply andb_prop in A. destruct A as [C A].
  now exists c, s'.
Qed.

Lemma digit_runs_numeral_app xs r :
  numeral xs -> not_starting Py.is_digit r = true ->
  digit_runs (xs ++ r) = xs :: digit_runs r.
Proof.
  intros Nx R. destruct (numeral_inv _ Nx) as [c [s' [-> [C A]]]].
  simpl. rewrite (digit_runs_digit _ _ C).
  now rewrite take_while_app, drop_while_app.
Qed.

Lemma digit_runs_numeral xs : numeral xs -> digit_runs xs = [xs].
Proof.
  intros Nx. rewrite <- (append_empty_r xs) at 1.
  now rewrite digit_runs_numeral_app.
Qed.

Lemma digit_runs_three xs ys zs :
  numeral xs -> numeral ys -> numeral zs ->
  digit_runs (xs ++ "." ++ ys ++ "." ++ zs) = [xs; ys; zs].
Proof.
  intros Nx Ny Nz.
  rewrite digit_runs_numeral_app by (assumption || reflexivity).
  simpl. rewrite digit_runs_skip by reflexivity.
  rewrite digit_runs_numeral_app by (assumption || reflexivity).
  rewrite digit_runs_skip by reflexivity.
  now rewrite digit_runs_numeral.
Qed.

Lemma parse_version_key_three xs ys zs :
  numeral xs -> numeral ys -> numeral zs ->
  parse_version_key (xs ++ "." ++ ys ++ "." ++ zs)
  = [Py.int_of_digits xs; Py.int_of_digits ys; Py.int_of_digits zs].
Proof.
  intros Nx Ny Nz. rewrite parse_version_key_spec. unfold version_key_spec.
  now rewrite digit_runs_three.
Qed.

Lemma strip_three xs ys zs :
  numeral xs -> numeral zs ->
  Py.strip (xs ++ "." ++ ys ++ "." ++ zs) = xs ++ "." ++ ys ++ "." ++ zs.
Proof.
  intros Nx Nz. unfold Py.strip.
  destruct (numeral_inv _ Nx) as [c [s' [-> [C A]]]].
  rewrite lstrip_not_starting by (simpl; now rewrite (digit_not_space _ C)).
  replace (String c s' ++ "." ++ ys ++ "." ++ zs)
    with ((String c s' ++ "." ++ ys ++ ".") ++ zs)
    by (now rewrite !append_assoc).
  apply rstrip_app; [apply rstrip_numeral | ]; apply Nz.
Qed.

Lemma strip_after_mark m v :
  Py.is_space m = false -> Py.strip v = v -> Py.nonempty v = true ->
  Py.strip (String m v) = String m v.
Proof.
  intros M S N. unfold Py.strip.
  rewrite lstrip_not_starting by (simpl; now rewrite M).
  change (String m v) with (String m "" ++ v).
  apply rstrip_app; [|exact N].
  unfold Py.strip in S. destruct v as [|c v]; [discriminate N|].
  simpl in S. destruct (Py.is_space c) eqn:E; [|exact S].
  exfalso. clear N M.
  assert (L : forall s, String.length (Py.rstrip s) <= String.length s).
  { induction s as [|x s IH]; simpl; [lia|].
    destruct (Py.rstrip s); [destruct (Py.is_space x)|]; simpl in *; lia. }
  assert (L' : forall s, String.length (Py.lstrip s) <= String.length s).
  { induction s as [|x s IH]; simpl; [lia|].
    destruct (Py.is_space x); simpl; lia. }
  apply (f_equal String.length) in S. simpl in S.
  specialize (L (Py.lstrip v)). specialize (L' v). lia.
Qed.

Lemma nonempty_three xs ys zs :
  numeral xs -> Py.nonempty (xs ++ "." ++ ys ++ "." ++ zs) = true.
Proof.
  intros Nx. destruct (numeral_inv _ Nx) as [c [s' [-> _]]]. reflexivity.
Qed.

(** What [parse_constraints] does with a marked version. *)
Lemma parse_marked m v :
  (m = "^" \/ m = "~")%char ->
  Py.strip v = v -> Py.nonempty v = true ->
  parse_constraints (String m v) = Ok (expand_semver_compat (String m "") v).
Proof.
  intros M S N. unfold parse_constraints.
  rewrite strip_after_mark by (try assumption; destruct M; subst; reflexivity).
  cbv zeta. rewrite !startswith_char. cbn [Py.slice_from1 Py.nonempty negb].
  rewrite S.
  destruct M; subst; reflexivity.
Qed.

(** The ranges of a version written with any three digit runs. *)
Lemma semver_ranges_of_digit_runs (xs ys zs : string) :
  numeral xs -> numeral ys -> numeral zs ->
  let v := xs ++ "." ++ ys ++ "." ++ zs in
  let x := Py.int_of_digits xs in
  let y := Py.int_of_digits ys in
  (x <> 0%Z ->
   parse_constraints ("^" ++ v)
   = Ok [mkConstraint ">=" v;
         mkConstraint "<" (Py.str_int (x + 1) ++ ".0.0")])
  /\ (x = 0%Z ->
      parse_constraints ("^" ++ v)
      = Ok [mkConstraint ">=" v;
            mkConstraint "<" ("0." ++ Py.str_int (y + 1) ++ ".0")])
  /\ parse_constraints ("~" ++ v)
     = Ok [mkConstraint ">=" v;
           mkConstraint "<" (Py.str_int x ++ "." ++ Py.str_int (y + 1) ++ ".0")].
Proof.
  intros Nx Ny Nz v x y.
  assert (S : Py.strip v = v) by now apply strip_three.
  assert (N : Py.nonempty v = true) by now apply nonempty_three.
  assert (K : parse_version_key v = [x; y; Py.int_of_digits zs])
    by now apply parse_version_key_three.
  change ("^" ++ v) with (String "^" v). change ("~" ++ v) with (String "~" v).
  rewrite !parse_marked by (auto; assumption).
  unfold expand_semver_compat. rewrite K. cbv zeta.
  repeat split.
  - intros X. apply Z.eqb_neq in X.
    change ("^" =? "~") with false. cbv iota. now rewrite X.
  - intros X. change ("^" =? "~") with false. cbv iota. now rewrite X.
Qed.

(** ** Decimal numerals *)

Lemma int_acc_of_uint_acc d :
  forall acc,
    Py.int_acc (NilEmpty.string_of_uint d) (Zpos acc)
    = Zpos (Pos.of_uint_acc d acc).
Proof.
  induction d; intros acc;
    cbn [NilEmpty.string_of_uint Py.int_acc Pos.of_uint_acc];
    try reflexivity; rewrite <- IHd; f_equal;
    match goal with
    | |- context [Py.digit_value ?c] =>
        let v := eval vm_compute in (Py.digit_value c) in
        change (Py.digit_value c) with v
    end; lia.
Qed.

Lemma int_acc_of_uint d :
  Py.int_acc (NilEmpty.string_of_uint d) 0 = Z.of_N (Pos.of_uint d).
Proof.
  induction d; cbn [NilEmpty.string_of_uint Py.int_acc Pos.of_uint];
    try reflexivity; try exact IHd;
    apply (int_acc_of_uint_acc d).
Qed.

(** Reading the decimal text of a natural number gives the number back. *)
Lemma int_of_str_int n : (0 <= n)%Z -> Py.int_of_digits (Py.str_int n) = n.
Proof.
  intros P. destruct n as [|p|p]; [reflexivity | | lia].
  unfold Py.int_of_digits, Py.str_int. simpl.
  now rewrite int_acc_of_uint, DecimalPos.Unsigned.of_to.
Qed.

Lemma string_of_uint_digits d :
  all_chars Py.is_digit (NilEmpty.string_of_uint d) = true.
Proof. induction d; simpl; auto. Qed.

(** The decimal text of a natural number is a numeral. *)
Lemma numeral_str_int n : (0 <= n)%Z -> numeral (Py.str_int n).
Proof.
  intros P. destruct n as [|p|p]; [split; reflexivity | | lia].
  unfold Py.str_int. simpl. split; [|apply string_of_uint_digits].
  pose proof (DecimalPos.Unsigned.to_uint_nonnil p) as N.
  destruct (Pos.to_uint p); [congruence | reflexivity ..].
Qed.

(** C1.  For a version [x.y.z], the caret range [^x.y.z] gives [>= x.y.z]
    and [< (x+1).0.0] when [x] is not zero, and [>= x.y.z] and
    [< 0.(y+1).0] when it is; the tilde range [~x.y.z] gives [>= x.y.z]
    and [< x.(y+1).0].  This holds for the numbers [x], [y], [z] written
    in decimal, and for any three digit runs read as numbers. *)
Theorem caret_and_tilde_ranges :
  (forall x y z : Z,
      (0 <= x)%Z -> (0 <= y)%Z -> (0 <= z)%Z ->
      let v := Py.str_int x ++ "." ++ Py.str_int y ++ "." ++ Py.str_int z in
      (x <> 0%Z ->
       parse_constraints ("^" ++ v)
       = Ok [mkConstraint ">=" v;
             mkConstraint "<" (Py.str_int (x + 1) ++ ".0.0")])
      /\ (x = 0%Z ->
          parse_constraints ("^" ++ v)
          = Ok [mkConstraint ">=" v;
                mkConstraint "<" ("0." ++ Py.str_int (y + 1) ++ ".0")])
      /\ parse_constraints ("~" ++ v)
         = Ok [mkConstraint ">=" v;
               mkConstraint "<"
                 (Py.str_int x ++ "." ++ Py.str_int (y + 1) ++ ".0")])
  /\ (forall xs ys zs,
         numeral xs -> numeral ys -> numeral zs ->
         let v := xs ++ "." ++ ys ++ "." ++ zs in
         let x := Py.int_of_digits xs in
         let y := Py.int_of_digits ys in
         (x <> 0%Z ->
          parse_constraints ("^" ++ v)
          = Ok [mkConstraint ">=" v;
                mkConstraint "<" (Py.str_int (x + 1) ++ ".0.0")])
         /\ (x = 0%Z ->
             parse_constraints ("^" ++ v)
             = Ok [mkConstraint ">=" v;
                   mkConstraint "<" ("0." ++ Py.str_int (y + 1) ++ ".0")])
         /\ parse_constraints ("~" ++ v)
            = Ok [mkConstraint ">=" v;
                  mkConstraint "<"
                    (Py.str_int x ++ "." ++ Py.str_int (y + 1) ++ ".0")]).
Proof.
  split; [|exact semver_ranges_of_digit_runs].
  intros x y z Px Py_ Pz v.
  pose proof (semver_ranges_of_digit_runs _ _ _ (numeral_str_int x Px)
                (numeral_str_int y Py_) (numeral_str_int z Pz)) as T.
  cbv zeta in T. rewrite !int_of_str_int in T by assumption.
  exact T.
Qed.

Lemma caret_and_tilde_ranges_witness :
  parse_constraints "^12.0.7"
  = Ok [mkConstraint ">=" "12.0.7"; mkConstraint "<" "13.0.0"].
Proof.
  refine (proj1 (proj1 caret_and_tilde_ranges 12%Z 0%Z 7%Z _ _ _) _);
    try lia.
Defined.

(* ================================================================== *)
(** * Tokens of a comparator range *)

Lemma spaceless_tail c s : spaceless (String c s) -> spaceless s.
Proof. unfold spaceless. simpl. intros E. now apply andb_prop in E. Qed.

Lemma spaceless_head c s : spaceless (String c s) -> Py.is_space c = false.
Proof.
  unfold spaceless. simpl. intros E. apply andb_prop in E.
  destruct E as [E _]. now apply negb_true_iff in E.
Qed.

Section MatcherFacts.
Context {A : Type}.



Lemma star_not_starting (greedy : bool) p (k : @Re.cont A) pos s g :
  not_starting p s = true -> Re.star greedy p k pos s g = k pos s g.
Proof.
  destruct s as [|c s]; simpl; [reflexivity|].
  intros N. apply negb_true_iff in N. now rewrite N.
Qed.

Lemma star_greedy_all p (k : @Re.cont A) s :
  forall pos g a,
    all_chars p s = true ->
    k (pos + String.length s) "" g = Some a ->
    Re.star true p k pos s g = Some a.
Proof.
  induction s as [|c s IH]; intros pos g a P K; simpl in *.
  - now rewrite Nat.add_0_r in K.
  - apply andb_prop in P. destruct P as [Pc P]. rewrite Pc.
    rewrite (IH (S pos) g a P); [reflexivity|].
    now replace (S pos + String.length s) with (pos + S (String.length s)) by lia.
Qed.

End MatcherFacts.

Lemma substring_full s : String.substring 0 (String.length s) s = s.
Proof. induction s as [|c s IH]; simpl; [reflexivity | now rewrite IH]. Qed.

Lemma spaceless_not_newline s :
  spaceless s -> all_chars not_newline s = true.
Proof.
  induction s as [|c s IH]; [reflexivity|]. intros I. simpl.
  rewrite (IH (spaceless_tail _ _ I)), andb_true_r.
  pose proof (spaceless_head _ _ I) as H.
  unfold not_newline. apply negb_true_iff.
  destruct (Ascii.eqb_spec c Py.newline) as [-> | ?]; [discriminate H | reflexivity].
Qed.

Lemma strip_spaceless s : spaceless s -> Py.strip s = s.
Proof.
  intros I. unfold Py.strip.
  rewrite lstrip_not_starting.
  - now apply rstrip_no_space.
  - destruct s as [|c s]; [reflexivity|]. simpl.
    now rewrite (spaceless_head _ _ I).
Qed.

(** On a text without whitespace, the version part of the token pattern
    takes the whole text, which must not be empty. *)
Lemma version_part_spaceless pos s g :
  spaceless s ->
  Re.m re_version_part Re.accept pos s g
  = match s with
    | EmptyString => None
    | _ => Some (Re.Found (pos + String.length s) "" ((2, s) :: g))
    end.
Proof.
  intros I. unfold re_version_part. cbn [Re.m].
  rewrite star_not_starting
    by (destruct s; [reflexivity | simpl; now rewrite (spaceless_head _ _ I)]).
  unfold Re.Plus. cbn [Re.m].
  destruct s as [|c s]; [reflexivity|].
  pose proof (spaceless_not_newline _ I) as NL. simpl in NL.
  apply andb_prop in NL. destruct NL as [Nc NL]. rewrite Nc.
  apply star_greedy_all; [exact NL|].
  cbn [Re.at_eol]. unfold Re.accept.
  replace (S pos + String.length s - pos) with (S (String.length s)) by lia.
  cbn [String.substring]. rewrite substring_full.
  do 2 f_equal. simpl. lia.
Qed.


(** Tokens that carry no version: a lone comparator is read as a version,
    and a word as an exact version. *)
Lemma garbled_tokens_are_kept :
  token_constraints ">" = [mkConstraint "=" ">"]
  /\ token_constraints ">=" = [mkConstraint ">" "="]
  /\ token_constraints "beta" = [mkConstraint "=" "beta"].
Proof. repeat split. Qed.

(** ** The tokens [re.split] gives *)

Lemma sepless_spaceless s : sepless s -> spaceless s.
Proof.
  unfold sepless, spaceless. induction s as [|c s IH]; [reflexivity|].
  simpl. intros E. apply andb_prop in E. destruct E as [C E].
  rewrite (IH E), andb_true_r. unfold not_separator in C. unfold not_space.
  apply negb_true_iff in C. apply orb_false_iff in C. destruct C as [-> _].
  reflexivity.
Qed.

(** Where a separator matches, and what it leaves. *)
Lemma match_separator pos s :
  Re.m re_separators Re.accept pos s []
  = match s with
    | String c s' =>
        if Py.is_space c || is_comma c
        then Some (Re.Found (S pos + String.length (take_while Py.is_space s'))
                            (drop_while Py.is_space s') [])
        else None
    | EmptyString => None
    end.
Proof.
  unfold re_separators, Re.Plus. cbn [Re.m].
  destruct s as [|c s]; [reflexivity|].
  destruct (Py.is_space c) eqn:Sp.
  - now rewrite star_greedy_accept.
  - rewrite star_not_starting by (simpl; now rewrite Sp).
    destruct (is_comma c); [|reflexivity].
    now rewrite star_greedy_accept.
Qed.






(* ================================================================== *)
(** * Totality of the parser *)

(** In the interval branch the unpacking finds exactly two parts. *)
Lemma interval_unpacks s :
  (Py.startswith s "[" || Py.startswith s "(")
  && (Py.endswith s "]" || Py.endswith s ")")
  && Py.contains s "," = true ->
  exists lo hi, map Py.strip (Py.split1 "," (Py.slice_1_m1 s)) = [lo; hi].
Proof.
  intros C. apply andb_prop in C. destruct C as [C Hc].
  apply andb_prop in C. destruct C as [Hl Hr].
  assert (E : exists rc u, s = u ++ String rc ""
                           /\ (rc = "]" \/ rc = ")")%char).
  { apply orb_prop in Hr. destruct Hr as [Hr | Hr];
      apply endswith_snoc_inv in Hr; destruct Hr as [u ->];
      eexists; eexists; split; eauto. }
  destruct E as [rc [u [-> Rc]]].
  destruct u as [|lc u].
  - exfalso. simpl in Hl. destruct Rc; subst; discriminate Hl.
  - change (String lc u ++ String rc "")
      with (String lc (u ++ String rc "")) in *.
    rewrite !startswith_char in Hl.
    rewrite contains_char in Hc. simpl in Hc.
    rewrite has_char_app in Hc. simpl in Hc.
    assert (Hu : has_char "," u = true).
    { destruct (has_char "," u); [reflexivity|]. exfalso.
      apply orb_prop in Hl.
      destruct Hl as [Hl | Hl]; apply Ascii.eqb_eq in Hl; subst lc;
        destruct Rc; subst rc; discriminate Hc. }
    unfold Py.slice_1_m1. simpl Py.slice_from1. rewrite slice_to_m1_snoc.
    destruct (split1_two _ _ Hu) as [a [b ->]].
    now exists (Py.strip a), (Py.strip b).
Qed.


Lemma token_constraints_empty : token_constraints "" = [].
Proof. reflexivity. Qed.

Lemma token_constraints_at_most_one t :
  List.length (token_constraints t) <= 1.
Proof.
  unfold token_constraints.
  destruct (negb (Py.nonempty t)); [simpl; lia|].
  destruct (Re.match_ re_token t); [|simpl; lia].
  destruct (Py.nonempty (Py.strip _)); simpl; lia.
Qed.

Lemma flat_map_tokens_length ts :
  List.length (flat_map token_constraints ts) <= List.length ts.
Proof.
  induction ts as [|t ts IH]; simpl; [lia|].
  rewrite length_app. pose proof (token_constraints_at_most_one t). lia.
Qed.

Lemma satisfies_app v a b :
  satisfies_constraints v (a ++ b) = true <->
  satisfies_constraints v a = true /\ satisfies_constraints v b = true.
Proof.
  induction a as [|c a IH].
  - simpl. tauto.
  - change ((c :: a) ++ b)%list with (c :: (a ++ b))%list.
    rewrite !satisfies_cons, IH. tauto.
Qed.

(** Dropping a token can only loosen a range. *)
Lemma dropping_a_token_loosens v ts1 t ts2 :
  satisfies_constraints v (flat_map token_constraints (ts1 ++ t :: ts2)) = true ->
  satisfies_constraints v (flat_map token_constraints (ts1 ++ ts2)) = true.
Proof.
  rewrite !flat_map_app. simpl. rewrite !satisfies_app. tauto.
Qed.

Lemma token_constraints_unmatched t :
  Re.match_ re_token t = None -> token_constraints t = [].
Proof.
  intros E. unfold token_constraints. rewrite E.
  now destruct (negb (Py.nonempty t)).
Qed.

(* ================================================================== *)
(** * What the extractors leave out *)

(** Membership in an empty and in a one-element list. *)
Ltac none_listed :=
  let I := fresh "I" in intros I; simpl in I; contradiction.
Ltac one_listed :=
  let I := fresh "I" in
  intros I; simpl in I; destruct I as [I | I]; [subst; simpl | contradiction].

Section ExtractorFacts.
Context `{Runtime}.

(** The Fabric extractor leaves out the game, the language runtime and
    the loader. *)
Lemma fabric_excludes_platform manifest deps d :
  read_fabric_dependencies manifest = Ok deps -> In d deps ->
  mod_id d <> "minecraft" /\ mod_id d <> "java" /\ mod_id d <> "fabricloader".
Proof.
  unfold read_fabric_dependencies.
  destruct manifest as [[| | | | | |data]|]; try discriminate;
    [|intros E; inversion E; subst; intros []].
  destruct (extract_alias_map_from_fabric_custom _) as [alias_map|e];
    [|discriminate].
  simpl. intros E. inversion E; subst; clear E.
  rewrite in_flat_map. intros [[k v] [_ I]]. simpl in I.
  destruct (String.eqb_spec k "minecraft"); [destruct I|].
  destruct (String.eqb_spec k "java"); [destruct I|].
  destruct (String.eqb_spec k "fabricloader"); [destruct I|].
  simpl in I. destruct I as [<- | []]. simpl. auto.
Qed.

(** The Forge extractor leaves out the game. *)
Lemma forge_excludes_game manifest deps d :
  read_forge_dependencies manifest = Ok deps -> In d deps ->
  mod_id d <> "minecraft".
Proof.
  unfold read_forge_dependencies.
  destruct manifest as [[| | | | | |data]|]; try discriminate;
    [|intros E; inversion E; subst; intros []].
  assert (G : forall entry, In d (forge_entry entry) -> mod_id d <> "minecraft").
  { intros entry. unfold forge_entry.
    destruct entry as [| | | | | |e]; try none_listed.
    destruct (dict_get e "modId") as [| | | |dep_id| |]; try none_listed.
    destruct (negb (Py.nonempty dep_id)); [none_listed|].
    destruct (String.eqb_spec dep_id "minecraft"); [none_listed|].
    destruct (dict_get e "mandatory") as [|[|]| | | | |]; try none_listed.
    destruct (dict_get e "mc-publish") as [| | | | | |mcp];
      try (one_listed; assumption).
    destruct (dict_get mcp "ignore") as [|[|]| | | | |];
      try none_listed; one_listed; assumption. }
  destruct (dict_get data "dependencies") as [| | | | | |deps_root];
    try (intros E; inversion E; subst; intros []).
  destruct (match dict_get data "mods" with JList (JDict m0 :: _) => _ | _ => None end)
    as [mid|]; [|intros E; inversion E; subst; intros []].
  destruct (dict_get deps_root mid) as [| | | | |entries|];
    try (intros E; inversion E; subst; intros []).
  intros E. inversion E; subst; clear E.
  rewrite in_flat_map. intros [entry [_ I]]. exact (G entry I).
Qed.

(** The Quilt extractor leaves out the game and the language runtime. *)
Lemma quilt_excludes_game_and_java manifest deps d :
  read_quilt_dependencies manifest = Ok deps -> In d deps ->
  mod_id d <> "minecraft" /\ mod_id d <> "java".
Proof.
  unfold read_quilt_dependencies.
  destruct manifest as [[| | | | | |data]|]; try discriminate;
    [|intros E; inversion E; subst; intros []].
  match goal with
  | |- bind ?m _ = _ -> _ => destruct m as [alias_map|e]; [|discriminate]
  end.
  simpl. intros E. inversion E; subst; clear E.
  rewrite in_flat_map. intros [item [_ I]].
  unfold quilt_entry in I.
  match type of I with
  | In _ (match ?p with _ => _ end) =>
      destruct p as [[[dep_id vr] optional]|]; [|destruct I]
  end.
  destruct optional; [destruct I|].
  destruct (String.eqb_spec dep_id "minecraft"); [destruct I|].
  destruct (String.eqb_spec dep_id "java"); [destruct I|].
  simpl in I. destruct I as [<- | []]. simpl. auto.
Qed.

(** C9.  The extractors do not all leave out the loader: from a
    [mods.toml] that requires [forge], the Forge extractor returns the
    dependency [forge]; from a [quilt.mod.json] that depends on
    [quilt_loader], the Quilt extractor returns [quilt_loader]. *)
Theorem forge_and_quilt_return_the_loader :
  read_forge_dependencies (Some forge_manifest_with_loader)
  = Ok [mkDependency "forge" "[47,)" None None]
  /\ read_quilt_dependencies (Some quilt_manifest_with_loader)
     = Ok [mkDependency "quilt_loader" ">=0.19.0" None None].
Proof. split; vm_compute; reflexivity. Qed.

End ExtractorFacts.

(* ================================================================== *)
(** * Narrowing in the CurseForge resolver *)

Lemma star_to_end p pos s g :
  Re.star true p Re.accept_at_end pos s g
  = if all_chars p s
    then Some (Re.Found (pos + String.length s) "" g)
    else None.
Proof.
  revert pos. induction s as [|c s IH]; intros pos; simpl.
  - unfold Re.accept. now rewrite Nat.add_0_r.
  - destruct (p c); simpl; [|reflexivity].
    rewrite IH. destruct (all_chars p s); [|reflexivity].
    do 2 f_equal. lia.
Qed.

(** [re.fullmatch(r"\d+", s)] succeeds exactly on the numerals. *)
Lemma fullmatch_digits_numeral s :
  Re.fullmatch re_digits s <> None <-> numeral s.
Proof.
  unfold Re.fullmatch, re_digits, Re.Plus, numeral. cbn [Re.m].
  destruct s as [|c s]; simpl.
  - split; [congruence | intros [N _]; discriminate N].
  - destruct (Py.is_digit c); simpl.
    + rewrite star_to_end. destruct (all_chars Py.is_digit s).
      * split; [auto | discriminate].
      * split; [congruence | intros [_ A]; discriminate A].
    + split; [congruence | intros [_ A]; discriminate A].
Qed.

Section CurseForgeFacts.
Context `{Runtime}.

Lemma narrow_exact_single dep needle filtered :
  narrow_exact dep [mkConstraint "=" needle] filtered
  = match filter (names_contain needle) filtered with
    | [] =>
        runtime_error
          ("CurseForge dependency " ++ mod_id dep ++ " has exact range '"
           ++ version_range dep ++ "' but no fileName/displayName contains it")
    | n => Ok n
    end.
Proof.
  unfold narrow_exact. simpl.
  destruct (filter (names_contain needle) filtered); reflexivity.
Qed.

Lemma narrow_exact_other dep cs filtered :
  (forall needle, cs <> [mkConstraint "=" needle]) ->
  narrow_exact dep cs filtered = Ok filtered.
Proof.
  intros N. unfold narrow_exact.
  destruct cs as [|[o v] [|c' rest]]; simpl; [reflexivity | |].
  - destruct (String.eqb_spec o "=") as [-> | ?]; [|reflexivity].
    now destruct (N v).
  - now rewrite andb_false_r.
Qed.

(** What [resolve_curseforge] comes to once the files compatible with the
    loader and the Minecraft version are known and not empty. *)
Lemma resolve_curseforge_filtered dep alias loader mc policy label payload data cs :
  curseforge dep = Some alias ->
  Re.fullmatch re_digits alias <> None ->
  curseforge_expected_loader_label loader = Ok label ->
  curseforge_files alias = Ok (JDict payload) ->
  dict_get payload "data" = JList data ->
  filter (curseforge_compatible mc label) data <> [] ->
  parse_constraints (Py.strip (version_range dep)) = Ok cs ->
  resolve_curseforge dep loader mc policy
  = (files <- narrow_exact dep cs (filter (curseforge_compatible mc label) data) ;;
     select_file dep alias policy files).
Proof.
  intros A M L P D F C. unfold resolve_curseforge. rewrite A.
  assert (N : Py.nonempty alias = true)
    by (destruct alias; [now destruct M | reflexivity]).
  rewrite N. simpl negb. cbv iota.
  destruct (Re.fullmatch re_digits alias); [|now destruct M].
  rewrite L, P. simpl. rewrite D.
  destruct (filter (curseforge_compatible mc label) data) eqn:E;
    [now destruct F|].
  now rewrite C.
Qed.

End CurseForgeFacts.

(* ================================================================== *)
(** * Sorting keys that can be compared *)

Section SortFacts.
Context {A : Type}.
Variable key : A -> datetime.
Variable aware : bool.

Lemma datetime_lt_rank a b :
  is_aware a = aware -> is_aware b = aware ->
  datetime_lt a b = Ok (rank a <? rank b)%Z.
Proof.
  destruct a as [x|x], b as [y|y]; simpl; intros <-; try discriminate;
    intros _; [|reflexivity].
  f_equal. destruct (N.ltb_spec x y), (Z.ltb_spec (Z.of_N x) (Z.of_N y));
    try reflexivity; lia.
Qed.

Lemma insert_sorted_pure (x : datetime * A) l :
  is_aware (fst x) = aware -> same_kind aware l ->
  insert_sorted datetime_lt x l = Ok (insert_pure x l).
Proof.
  intros Kx Kl. induction Kl as [|y l Ky Kl IH]; simpl; [reflexivity|].
  rewrite (datetime_lt_rank _ _ Kx Ky). simpl. unfold krank.
  destruct (rank (fst x) <? rank (fst y))%Z; [reflexivity|].
  now rewrite IH.
Qed.

Lemma insert_pure_same_kind (x : datetime * A) l :
  is_aware (fst x) = aware -> same_kind aware l ->
  same_kind aware (insert_pure x l).
Proof.
  intros Kx Kl. induction Kl as [|y l Ky Kl IH]; simpl.
  - now repeat constructor.
  - destruct (krank x <? krank y)%Z; repeat constructor; assumption.
Qed.

Lemma sort_pairs_pure (todo : list (datetime * A)) :
  forall done,
    same_kind aware done -> same_kind aware todo ->
    sort_pairs datetime_lt done todo = Ok (sort_pure done todo).
Proof.
  induction todo as [|x todo IH]; intros done Kd Kt; simpl; [reflexivity|].
  pose proof (Forall_inv Kt) as Kx. pose proof (Forall_inv_tail Kt) as Kt'.
  simpl in Kx.
  rewrite insert_sorted_pure by assumption. simpl.
  apply IH; [now apply insert_pure_same_kind | assumption].
Qed.

(** ** The head of the sorted list *)

Lemma first_least_insert (x : datetime * A) l c :
  first_least krank l c ->
  first_least krank (l ++ [x])
    (if (krank x <? krank c)%Z then x else c).
Proof.
  intros [before [after [-> [B Af]]]].
  destruct (Z.ltb_spec (krank x) (krank c)) as [L | G].
  - exists (before ++ c :: after)%list, []. split; [reflexivity|]. split.
    + intros y I. apply in_app_or in I. destruct I as [I | [<- | I]].
      * specialize (B y I). lia.
      * exact L.
      * specialize (Af y I). lia.
    + intros y [].
  - exists before, (after ++ [x])%list. split.
    + now rewrite <- app_assoc.
    + split; [exact B|]. intros y I. apply in_app_or in I.
      destruct I as [I | [<- | []]]; [now apply Af | exact G].
Qed.

Lemma hd_insert_pure (d x : datetime * A) l :
  hd d (insert_pure x l)
  = match l with
    | [] => x
    | y :: _ => if (krank x <? krank y)%Z then x else y
    end.
Proof.
  destruct l as [|y l]; simpl; [reflexivity|].
  destruct (krank x <? krank y)%Z; reflexivity.
Qed.

Lemma insert_pure_nonempty (x : datetime * A) l : insert_pure x l <> [].
Proof.
  destruct l as [|y l]; simpl; [discriminate|].
  destruct (krank x <? krank y)%Z; discriminate.
Qed.

Lemma sort_pure_head (d : datetime * A) todo :
  forall seen done,
    done <> [] -> first_least krank seen (hd d done) ->
    first_least krank (seen ++ todo) (hd d (sort_pure done todo)).
Proof.
  induction todo as [|x todo IH]; intros seen done N F; simpl.
  - now rewrite app_nil_r.
  - replace (seen ++ x :: todo)%list with ((seen ++ [x]) ++ todo)%list
      by (now rewrite <- app_assoc).
    apply IH; [apply insert_pure_nonempty|].
    rewrite hd_insert_pure. destruct done as [|y done]; [congruence|].
    simpl in F. now apply first_least_insert.
Qed.

(** ** The end of the sorted list *)

Lemma last_cons {B} (y : B) l d : l <> [] -> last (y :: l) d = last l d.
Proof. destruct l; [congruence | reflexivity]. Qed.

Lemma last_default {B} (l : list B) d d' : l <> [] -> last l d = last l d'.
Proof.
  induction l as [|y l IH]; [congruence|]. intros _.
  destruct l as [|z l]; [reflexivity|].
  rewrite !(last_cons y) by discriminate. apply IH. discriminate.
Qed.

Lemma last_insert_pure (d x : datetime * A) l :
  l <> [] -> ordered l ->
  last (insert_pure x l) d
  = if (krank x <? krank (last l d))%Z then last l d else x.
Proof.
  induction l as [|y l IH]; [congruence|]. intros _ O. simpl insert_pure.
  destruct (Z.ltb_spec (krank x) (krank y)) as [L | G].
  - rewrite last_cons by discriminate.
    assert (Y : (krank y <= krank (last (y :: l) d))%Z).
    { rewrite (last_default _ d y) by discriminate. apply O. now left. }
    destruct (Z.ltb_spec (krank x) (krank (last (y :: l) d)));
      [reflexivity | lia].
  - rewrite last_cons by apply insert_pure_nonempty.
    destruct l as [|z l].
    + simpl. destruct (Z.ltb_spec (krank x) (krank y)); [lia | reflexivity].
    + rewrite IH; [now rewrite (last_cons y) by discriminate | discriminate |].
      intros w I. specialize (O w (or_intror I)).
      rewrite last_cons in O by discriminate. exact O.
Qed.

Lemma ordered_insert_pure (x : datetime * A) l : ordered l -> ordered (insert_pure x l).
Proof.
  intros O. destruct l as [|y0 l0] eqn:E.
  - intros y [<- | []]. simpl. lia.
  - rewrite <- E in *. assert (N : l <> []) by (subst; discriminate).
    intros y I.
    rewrite (last_insert_pure y x l N O).
    assert (M : y = x \/ In y l).
    { clear - I. induction l as [|z l IH]; simpl in I.
      - destruct I as [<- | []]. now left.
      - destruct (krank x <? krank z)%Z.
        + destruct I as [<- | I]; [now left | now right].
        + destruct I as [<- | I]; [right; now left|].
          destruct (IH I) as [-> | J]; [now left | right; now right]. }
    destruct (Z.ltb_spec (krank x) (krank (last l y))) as [L | G].
    + destruct M as [-> | J]; [lia | now apply O].
    + destruct M as [-> | J]; [lia|]. specialize (O y J). lia.
Qed.

Lemma last_greatest_insert (x : datetime * A) l c :
  last_greatest krank l c ->
  last_greatest krank (l ++ [x])
    (if (krank x <? krank c)%Z then c else x).
Proof.
  intros [before [after [-> [B Af]]]].
  destruct (Z.ltb_spec (krank x) (krank c)) as [L | G].
  - exists before, (after ++ [x])%list. split.
    + now rewrite <- app_assoc.
    + split; [exact B|]. intros y I. apply in_app_or in I.
      destruct I as [I | [<- | []]]; [now apply Af | exact L].
  - exists (before ++ c :: after)%list, []. split; [reflexivity|]. split.
    + intros y I. apply in_app_or in I. destruct I as [I | [<- | I]].
      * specialize (B y I). lia.
      * exact G.
      * specialize (Af y I). lia.
    + intros y [].
Qed.

Lemma sort_pure_last (d : datetime * A) todo :
  forall seen done,
    done <> [] -> ordered done -> last_greatest krank seen (last done d) ->
    last_greatest krank (seen ++ todo) (last (sort_pure done todo) d).
Proof.
  induction todo as [|x todo IH]; intros seen done N O F; simpl.
  - now rewrite app_nil_r.
  - replace (seen ++ x :: todo)%list with ((seen ++ [x]) ++ todo)%list
      by (now rewrite <- app_assoc).
    apply IH; [apply insert_pure_nonempty | now apply ordered_insert_pure |].
    rewrite last_insert_pure by assumption.
    now apply last_greatest_insert.
Qed.

Lemma sort_pure_nonempty (todo : list (datetime * A)) :
  forall done, done <> [] -> sort_pure done todo <> [].
Proof.
  induction todo as [|x todo IH]; intros done N; simpl; [exact N|].
  apply IH, insert_pure_nonempty.
Qed.

Lemma first_least_keyed (l : list A) p :
  first_least krank (map (keyed key) l) p ->
  exists c, p = keyed key c /\ first_least (fun a => rank (key a)) l c.
Proof.
  intros [before [after [E [B Af]]]].
  apply map_eq_app in E.
  destruct E as [lb [la' [-> [<- E]]]].
  apply map_eq_cons in E. destruct E as [c [la [-> [<- <-]]]].
  exists c. split; [reflexivity|].
  exists lb, la. split; [reflexivity|]. split; intros y I.
  - apply (B (keyed key y)). now apply in_map.
  - apply (Af (keyed key y)). now apply in_map.
Qed.

Lemma last_greatest_keyed (l : list A) p :
  last_greatest krank (map (keyed key) l) p ->
  exists c, p = keyed key c /\ last_greatest (fun a => rank (key a)) l c.
Proof.
  intros [before [after [E [B Af]]]].
  apply map_eq_app in E.
  destruct E as [lb [la' [-> [<- E]]]].
  apply map_eq_cons in E. destruct E as [c [la [-> [<- <-]]]].
  exists c. split; [reflexivity|].
  exists lb, la. split; [reflexivity|]. split; intros y I.
  - apply (B (keyed key y)). now apply in_map.
  - apply (Af (keyed key y)). now apply in_map.
Qed.

Lemma last_map_snd (s : list (datetime * A)) d :
  s <> [] -> last (map snd s) (snd d) = snd (last s d).
Proof.
  induction s as [|x s IH]; [congruence|]. intros _.
  destruct s as [|y s]; [reflexivity|].
  change (map snd (x :: y :: s)) with (snd x :: map snd (y :: s)).
  rewrite !last_cons by discriminate. apply IH. discriminate.
Qed.

(** Sorting a non-empty list whose keys are of one kind succeeds; [min]
    then chooses the first entry of the list with the least key, and any
    other policy the last entry with the greatest key. *)
Lemma sort_by_key_selects (c0 : A) (l : list A) (policy : string) :
  Forall (of_kind key aware) (c0 :: l) ->
  exists sorted,
    sort_by_key datetime_lt key (c0 :: l) = Ok sorted
    /\ (policy = "min" ->
        first_least (fun a => rank (key a)) (c0 :: l) (choose policy sorted c0))
    /\ (policy <> "min" ->
        last_greatest (fun a => rank (key a)) (c0 :: l) (choose policy sorted c0)).
Proof.
  intros K. unfold sort_by_key.
  change (map (fun a => (key a, a)) (c0 :: l)) with (map (keyed key) (c0 :: l)).
  assert (Kp : same_kind aware (map (keyed key) (c0 :: l))).
  { unfold same_kind. clear - K.
    induction K as [|a l' Ka Kl IH]; constructor; assumption. }
  rewrite sort_pairs_pure; [| constructor | exact Kp].
  eexists. cbn [bind]. split; [reflexivity|].
  set (s := sort_pure [] (map (keyed key) (c0 :: l))).
  assert (S1 : s = sort_pure [keyed key c0] (map (keyed key) l)) by reflexivity.
  assert (Ns : s <> []) by (rewrite S1; apply sort_pure_nonempty; discriminate).
  split.
  - intros ->. unfold choose. simpl String.eqb. cbv iota.
    assert (F : first_least krank ([keyed key c0] ++ map (keyed key) l)
                  (hd (keyed key c0) s)).
    { rewrite S1. apply sort_pure_head; [discriminate|].
      exists [], []. split; [reflexivity|]. split; intros y []. }
    apply (first_least_keyed (c0 :: l)) in F.
    destruct F as [c [E F]].
    destruct s as [|h t]; [congruence|]. simpl in E. subst h. exact F.
  - intros P. unfold choose.
    destruct (String.eqb_spec policy "min") as [-> | _]; [congruence|].
    assert (F : last_greatest krank ([keyed key c0] ++ map (keyed key) l)
                  (last s (keyed key c0))).
    { rewrite S1. apply sort_pure_last; [discriminate | |].
      - intros y [<- | []]. simpl. lia.
      - exists [], []. split; [reflexivity|]. split; intros y []. }
    apply (last_greatest_keyed (c0 :: l)) in F.
    destruct F as [c [E F]].
    change c0 with (snd (keyed key c0)) at 2.
    rewrite last_map_snd by exact Ns. now rewrite E.
Qed.

End SortFacts.

(* ================================================================== *)
(** * Selection by publication time in the Modrinth resolver *)

Section ModrinthFacts.
Context `{Runtime}.

(** Sorting two entries compares the key of the second with the key of
    the first. *)
Lemma sort_two (key : json -> datetime) a b :
  sort_by_key datetime_lt key [a; b]
  = (lt <- datetime_lt (key b) (key a) ;;
     Ok (if lt then [b; a] else [a; b])).
Proof.
  unfold sort_by_key. simpl.
  destruct (datetime_lt (key b) (key a)) as [[|]|e]; reflexivity.
Qed.

(** An entry without a usable date next to one with a time zone cannot
    be sorted, whichever comes first. *)
Lemma sort_naive_with_aware (key : json -> datetime) a b n t :
  key a = Aware t -> key b = Naive n ->
  sort_by_key datetime_lt key [a; b] = Raise naive_aware_error
  /\ sort_by_key datetime_lt key [b; a] = Raise naive_aware_error.
Proof.
  intros A B. rewrite !sort_two, A, B. split; reflexivity.
Qed.

Lemma published_dt_dated t :
  fromisoformat "2024-01-01T00:00:00+00:00" = Some t ->
  published_dt dated_candidate = t.
Proof.
  intros F. unfold published_dt, timestamp_of, dated_candidate.
  cbn [dict_get String.eqb Ascii.eqb Bool.eqb].
  change (Py.replace_char "Z" "+00:00" "2024-01-01T00:00:00Z")
    with "2024-01-01T00:00:00+00:00".
  now rewrite F.
Qed.

Lemma published_dt_later t :
  fromisoformat "2024-02-01T00:00:00+00:00" = Some t ->
  published_dt later_candidate = t.
Proof.
  intros F. unfold published_dt, timestamp_of, later_candidate.
  cbn [dict_get String.eqb Ascii.eqb Bool.eqb].
  change (Py.replace_char "Z" "+00:00" "2024-02-01T00:00:00Z")
    with "2024-02-01T00:00:00+00:00".
  now rewrite F.
Qed.

Lemma published_dt_undated : published_dt undated_candidate = datetime_min.
Proof. reflexivity. Qed.

(** [resolve_modrinth] on an unconstrained dependency whose listing has
    two entries with version numbers. *)
Lemma resolve_modrinth_two dep alias loader mc policy a b :
  modrinth dep = Some alias -> Py.nonempty alias = true ->
  version_range dep = "*" ->
  modrinth_versions alias loader mc = Ok (JList [a; b]) ->
  modrinth_candidate [] a = true -> modrinth_candidate [] b = true ->
  resolve_modrinth dep loader mc policy
  = (sorted <- sort_by_key datetime_lt published_dt [a; b] ;;
     Ok (mkResolved "modrinth" (mod_id dep) (Some alias)
           (Some (version_number_of (choose policy sorted a))) None None)).
Proof.
  intros A N R V Ca Cb. unfold resolve_modrinth.
  rewrite A, N, V, R. simpl. now rewrite Ca, Cb.
Qed.

(** The two candidates of the specification's example: published one
    after the other, [min] selects the earlier and every other policy the
    later. *)
Lemma modrinth_min_and_max dep alias loader mc t1 t2 :
  modrinth dep = Some alias -> Py.nonempty alias = true ->
  version_range dep = "*" ->
  modrinth_versions alias loader mc
  = Ok (JList [dated_candidate; later_candidate]) ->
  fromisoformat "2024-01-01T00:00:00+00:00" = Some (Aware t1) ->
  fromisoformat "2024-02-01T00:00:00+00:00" = Some (Aware t2) ->
  (t1 < t2)%Z ->
  resolve_modrinth dep loader mc "min"
  = Ok (mkResolved "modrinth" (mod_id dep) (Some alias) (Some "1.0.0") None None)
  /\ resolve_modrinth dep loader mc "max"
     = Ok (mkResolved "modrinth" (mod_id dep) (Some alias) (Some "1.1.0") None None).
Proof.
  intros A N R V F1 F2 L.
  rewrite !(resolve_modrinth_two _ _ _ _ _ _ _ A N R V) by reflexivity.
  rewrite sort_two, (published_dt_dated _ F1), (published_dt_later _ F2).
  simpl. assert (E : (t2 <? t1)%Z = false) by (apply Z.ltb_ge; lia).
  rewrite E. split; reflexivity.
Qed.

(** When the timestamps of the candidates are of one kind, all naive or
    all aware, [resolve_modrinth] selects as the specification says:
    [min] the first of the earliest candidates, any other policy the
    last of the latest. *)
Lemma modrinth_selects_when_comparable
      dep alias loader mc policy vs cs c0 rest aware :
  modrinth dep = Some alias -> Py.nonempty alias = true ->
  modrinth_versions alias loader mc = Ok (JList vs) ->
  parse_constraints (version_range dep) = Ok cs ->
  filter (modrinth_candidate cs) vs = c0 :: rest ->
  Forall (of_kind published_dt aware) (c0 :: rest) ->
  exists chosen,
    resolve_modrinth dep loader mc policy
    = Ok (mkResolved "modrinth" (mod_id dep) (Some alias)
            (Some (version_number_of chosen)) None None)
    /\ (policy = "min" ->
        first_least (fun c => rank (published_dt c)) (c0 :: rest) chosen)
    /\ (policy <> "min" ->
        last_greatest (fun c => rank (published_dt c)) (c0 :: rest) chosen).
Proof.
  intros A N V P F K. unfold resolve_modrinth.
  rewrite A, N, V. simpl. rewrite P. simpl. rewrite F.
  destruct (sort_by_key_selects published_dt aware c0 rest policy K)
    as [sorted [-> [Smin Smax]]].
  simpl. eexists. split; [reflexivity|]. split; assumption.
Qed.

(** C6.  A candidate without [date_published] next to one whose date
    carries a time zone: the sort raises [TypeError] and no candidate is
    selected, under every policy. *)
Theorem modrinth_undated_candidate_raises dep alias loader mc policy t :
  modrinth dep = Some alias -> Py.nonempty alias = true ->
  version_range dep = "*" ->
  modrinth_versions alias loader mc
  = Ok (JList [dated_candidate; undated_candidate]) ->
  fromisoformat "2024-01-01T00:00:00+00:00" = Some (Aware t) ->
  resolve_modrinth dep loader mc policy = Raise naive_aware_error.
Proof.
  intros A N R V F.
  rewrite (resolve_modrinth_two _ _ _ _ _ _ _ A N R V) by reflexivity.
  destruct (sort_naive_with_aware published_dt dated_candidate
              undated_candidate 0%N t (published_dt_dated _ F)
              published_dt_undated) as [-> _].
  reflexivity.
Qed.

End ModrinthFacts.

Lemma modrinth_undated_candidate_raises_witness :
  @resolve_modrinth sample_runtime undated_dependency "fabric" "1.20.1" "min"
  = Raise naive_aware_error.
Proof.
  apply (@modrinth_undated_candidate_raises sample_runtime undated_dependency
           "undated" "fabric" "1.20.1" "min" 1704067200000000%Z);
    reflexivity.
Defined.

(* ================================================================== *)
(** * A failing dependency ends the run *)

Lemma prefix_app x b : String.prefix x (x ++ b) = true.
Proof.
  induction x as [|c x IH]; simpl; [apply prefix_empty|].
  destruct (ascii_dec c c); [exact IH | congruence].
Qed.

Lemma contains_app_r a s x :
  Py.contains s x = true -> Py.contains (a ++ s) x = true.
Proof.
  intros C. induction a as [|c a IH]; simpl; [exact C|].
  rewrite IH. apply orb_true_r.
Qed.

Lemma contains_unfold hay needle :
  Py.contains hay needle
  = String.prefix needle hay
    || match hay with
       | EmptyString => false
       | String _ hay' => Py.contains hay' needle
       end.
Proof. destruct hay; reflexivity. Qed.

Lemma contains_here x b : Py.contains (x ++ b) x = true.
Proof. rewrite contains_unfold, prefix_app. reflexivity. Qed.

Lemma contains_self x : Py.contains x x = true.
Proof. rewrite <- (append_empty_r x) at 1. apply contains_here. Qed.

Lemma contains_mid a x b : Py.contains (a ++ x ++ b) x = true.
Proof. apply contains_app_r, contains_here. Qed.

Section RunFacts.
Context `{Runtime}.

(** Without aliases, strict mode raises an error that names the
    dependency. *)
Lemma strict_missing_alias args dep :
  some_nonempty (modrinth dep) = false ->
  some_nonempty (curseforge dep) = false ->
  arg_strict args = true ->
  exists msg,
    resolve_one args dep = Raise (Exn RuntimeError msg)
    /\ Py.contains msg (mod_id dep) = true.
Proof.
  intros M C S. unfold resolve_one. rewrite M, C, S.
  eexists. split; [reflexivity|].
  apply (contains_mid "Required dependency '").
Qed.

(** When no Modrinth version satisfies the range, the error names the
    dependency, the loader and the Minecraft version. *)
Lemma modrinth_unsatisfiable dep alias loader mc policy vs cs :
  modrinth dep = Some alias -> Py.nonempty alias = true ->
  modrinth_versions alias loader mc = Ok (JList vs) ->
  parse_constraints (version_range dep) = Ok cs ->
  filter (modrinth_candidate cs) vs = [] ->
  exists msg,
    resolve_modrinth dep loader mc policy = Raise (Exn RuntimeError msg)
    /\ Py.contains msg (mod_id dep) = true
    /\ Py.contains msg loader = true
    /\ Py.contains msg mc = true.
Proof.
  intros A N V P F. unfold resolve_modrinth.
  rewrite A, N, V. simpl. rewrite P. simpl. rewrite F.
  eexists. split; [reflexivity|]. repeat split.
  - apply (contains_mid "No Modrinth versions for ").
  - match goal with
    | |- Py.contains ?m _ = true =>
        replace m
          with (("No Modrinth versions for " ++ mod_id dep ++ " (" ++ alias
                 ++ ") satisfy range '" ++ version_range dep
                 ++ "' for loader=") ++ loader ++ " mc=" ++ mc)
          by (rewrite !append_assoc; reflexivity)
    end.
    apply contains_mid.
  - match goal with
    | |- Py.contains ?m _ = true =>
        replace m
          with (("No Modrinth versions for " ++ mod_id dep ++ " (" ++ alias
                 ++ ") satisfy range '" ++ version_range dep
                 ++ "' for loader=" ++ loader ++ " mc=") ++ mc)
          by (rewrite !append_assoc; reflexivity)
    end.
    apply contains_app_r, contains_self.
Qed.

End RunFacts.

(** The message of a failed run need not name the loader, the Minecraft
    version or the policy: a dependency without alias under strict mode. *)
Lemma error_message_lacks_context :
  ~ (forall (rt : Runtime) args project w deps dep e,
        @required_dependencies rt project = Ok deps ->
        In dep deps ->
        @resolve_one rt args dep = Raise e ->
        exists line,
          In line (stderr (fst (@script rt args project w)))
          /\ names_context line args dep).
Proof.
  intros C.
  destruct (C sample_runtime strict_args project_without_alias empty_world
              [mkDependency "foo" "*" None None]
              (mkDependency "foo" "*" None None)
              (Exn RuntimeError
                 "Required dependency 'foo' has no mc-publish Modrinth/CurseForge alias in metadata")
              eq_refl (or_introl eq_refl) eq_refl)
    as [line [I [_ [L _]]]].
  vm_compute in I. destruct I as [<- | []].
  vm_compute in L. discriminate L.
Qed.

(* ================================================================== *)
(** * The ordering of versions *)

Lemma compare_versions_keys a b :
  compare_versions a b
  = sign_of (lex_compare (parse_version_key a) (parse_version_key b)).
Proof. rewrite compare_versions_lex, !parse_version_key_spec. reflexivity. Qed.

Lemma lex_compare_refl k : lex_compare k k = Eq.
Proof.
  induction k as [|x k IH]; simpl; [reflexivity|].
  now rewrite Z.compare_refl.
Qed.

Lemma lex_compare_eq a b : lex_compare a b = Eq <-> a = b.
Proof.
  split; [|intros ->; apply lex_compare_refl].
  revert b. induction a as [|x a IH]; intros [|y b]; simpl; try discriminate;
    [reflexivity|].
  destruct (Z.compare_spec x y) as [-> | L | G]; try discriminate.
  intros E. now rewrite (IH _ E).
Qed.

Lemma lex_compare_lt_trans a :
  forall b c,
    lex_compare a b = Lt -> lex_compare b c = Lt -> lex_compare a c = Lt.
Proof.
  induction a as [|x a IH]; intros [|y b] [|z c]; simpl; try discriminate;
    try reflexivity.
  destruct (Z.compare_spec x y) as [-> | L1 | G1]; try discriminate.
  - destruct (Z.compare_spec y z) as [-> | L2 | G2]; try discriminate;
      [apply IH | reflexivity].
  - intros _.
    destruct (Z.compare_spec y z) as [-> | L2 | G2]; try discriminate; intros _.
    + destruct (Z.compare_spec x z); [lia | reflexivity | lia].
    + destruct (Z.compare_spec x z); [lia | reflexivity | lia].
Qed.

Lemma sign_of_opp c : sign_of (CompOpp c) = (- sign_of c)%Z.
Proof. destruct c; reflexivity. Qed.

Lemma compare_nonpositive a b :
  (compare_versions a b <= 0)%Z
  <-> lex_compare (parse_version_key a) (parse_version_key b) <> Gt.
Proof.
  rewrite compare_versions_keys.
  destruct (lex_compare _ _); simpl; split; intros; try congruence; lia.
Qed.

Lemma lex_compare_le_trans a b c :
  lex_compare a b <> Gt -> lex_compare b c <> Gt -> lex_compare a c <> Gt.
Proof.
  intros H1 H2.
  destruct (lex_compare a b) eqn:E1; [| |congruence].
  - apply lex_compare_eq in E1. now subst.
  - destruct (lex_compare b c) eqn:E2; [| |congruence].
    + apply lex_compare_eq in E2. subst. now rewrite E1.
    + now rewrite (lex_compare_lt_trans _ _ _ E1 E2).
Qed.

(** X1.  [compare_versions] is a total preorder on version strings:
    swapping the arguments negates the result, a version compares equal
    to itself, two versions compare equal exactly when their digit runs
    give the same integers, and the order is transitive. *)
Theorem compare_versions_total_preorder :
  (forall a b, compare_versions b a = (- compare_versions a b)%Z)
  /\ (forall a, compare_versions a a = 0%Z)
  /\ (forall a b,
         compare_versions a b = 0%Z
         <-> parse_version_key a = parse_version_key b)
  /\ (forall a b c,
         (compare_versions a b <= 0)%Z -> (compare_versions b c <= 0)%Z ->
         (compare_versions a c <= 0)%Z).
Proof.
  split; [|split; [|split]].
  - intros a b. rewrite !compare_versions_keys.
    now rewrite (lex_compare_antisym (parse_version_key a)), sign_of_opp.
  - intros a. now rewrite compare_versions_keys, lex_compare_refl.
  - intros a b. rewrite compare_versions_keys, <- lex_compare_eq.
    destruct (lex_compare _ _); simpl; split; intros; congruence || lia.
  - intros a b c. rewrite !compare_nonpositive. apply lex_compare_le_trans.
Qed.

Lemma compare_versions_total_preorder_witness :
  (compare_versions "1.2" "1.10.3" <= 0)%Z.
Proof.
  apply (proj2 (proj2 (proj2 compare_versions_total_preorder))
           "1.2" "1.9-beta" "1.10.3");
    vm_compute; discriminate.
Defined.

(* ================================================================== *)
(** * The versions a caret or tilde range accepts *)

Lemma meets_lower v w :
  satisfies_constraints v [mkConstraint ">=" w] = true
  <-> lex_compare (parse_version_key v) (parse_version_key w) <> Lt.
Proof.
  simpl. rewrite compare_versions_keys.
  destruct (lex_compare _ _); simpl; split; intros; congruence.
Qed.

Lemma meets_upper v w :
  satisfies_constraints v [mkConstraint "<" w] = true
  <-> lex_compare (parse_version_key v) (parse_version_key w) = Lt.
Proof.
  simpl. rewrite compare_versions_keys.
  destruct (lex_compare _ _); simpl; split; intros; congruence.
Qed.

Lemma satisfies_between v lo hi :
  satisfies_constraints v [mkConstraint ">=" lo; mkConstraint "<" hi] = true
  <-> lex_compare (parse_version_key v) (parse_version_key lo) <> Lt
      /\ lex_compare (parse_version_key v) (parse_version_key hi) = Lt.
Proof.
  change [mkConstraint ">=" lo; mkConstraint "<" hi]
    with ([mkConstraint ">=" lo] ++ [mkConstraint "<" hi])%list.
  now rewrite satisfies_app, meets_lower, meets_upper.
Qed.

Lemma key_of_numbers x y z :
  (0 <= x)%Z -> (0 <= y)%Z -> (0 <= z)%Z ->
  parse_version_key (Py.str_int x ++ "." ++ Py.str_int y ++ "." ++ Py.str_int z)
  = [x; y; z].
Proof.
  intros Px Py_ Pz.
  rewrite parse_version_key_three by now apply numeral_str_int.
  now rewrite !int_of_str_int.
Qed.

Lemma key_of_major_bound x :
  (0 <= x)%Z -> parse_version_key (Py.str_int x ++ ".0.0") = [x; 0%Z; 0%Z].
Proof. intros Px. apply (key_of_numbers x 0 0); lia. Qed.

Lemma key_of_minor_bound x y :
  (0 <= x)%Z -> (0 <= y)%Z ->
  parse_version_key (Py.str_int x ++ "." ++ Py.str_int y ++ ".0") = [x; y; 0%Z].
Proof. intros Px Py_. apply (key_of_numbers x y 0); lia. Qed.

(** The parsed caret and tilde ranges of [x.y.z], as lists. *)
Lemma parse_caret_major x y z :
  (0 <= x)%Z -> (0 <= y)%Z -> (0 <= z)%Z -> x <> 0%Z ->
  parse_constraints
    ("^" ++ Py.str_int x ++ "." ++ Py.str_int y ++ "." ++ Py.str_int z)
  = Ok [mkConstraint ">="
          (Py.str_int x ++ "." ++ Py.str_int y ++ "." ++ Py.str_int z);
        mkConstraint "<" (Py.str_int (x + 1) ++ ".0.0")].
Proof.
  intros Px Py_ Pz X.
  pose proof (semver_ranges_of_digit_runs _ _ _ (numeral_str_int x Px)
                (numeral_str_int y Py_) (numeral_str_int z Pz)) as T.
  cbv zeta in T. rewrite !int_of_str_int in T by assumption.
  exact (proj1 T X).
Qed.

Lemma parse_caret_minor y z :
  (0 <= y)%Z -> (0 <= z)%Z ->
  parse_constraints ("^" ++ "0" ++ "." ++ Py.str_int y ++ "." ++ Py.str_int z)
  = Ok [mkConstraint ">=" ("0" ++ "." ++ Py.str_int y ++ "." ++ Py.str_int z);
        mkConstraint "<" ("0." ++ Py.str_int (y + 1) ++ ".0")].
Proof.
  intros Py_ Pz.
  pose proof (semver_ranges_of_digit_runs _ _ _ (numeral_str_int 0 (Z.le_refl 0))
                (numeral_str_int y Py_) (numeral_str_int z Pz)) as T.
  cbv zeta in T. rewrite !int_of_str_int in T by (assumption || lia).
  exact (proj1 (proj2 T) eq_refl).
Qed.

Lemma parse_tilde x y z :
  (0 <= x)%Z -> (0 <= y)%Z -> (0 <= z)%Z ->
  parse_constraints
    ("~" ++ Py.str_int x ++ "." ++ Py.str_int y ++ "." ++ Py.str_int z)
  = Ok [mkConstraint ">="
          (Py.str_int x ++ "." ++ Py.str_int y ++ "." ++ Py.str_int z);
        mkConstraint "<" (Py.str_int x ++ "." ++ Py.str_int (y + 1) ++ ".0")].
Proof.
  intros Px Py_ Pz.
  pose proof (semver_ranges_of_digit_runs _ _ _ (numeral_str_int x Px)
                (numeral_str_int y Py_) (numeral_str_int z Pz)) as T.
  cbv zeta in T. rewrite !int_of_str_int in T by assumption.
  exact (proj2 (proj2 T)).
Qed.

Lemma caret_major_members (x y z : Z) (v : string) (cs : list Constraint) :
  (0 <= x)%Z -> (0 <= y)%Z -> (0 <= z)%Z -> x <> 0%Z ->
  parse_constraints
    ("^" ++ Py.str_int x ++ "." ++ Py.str_int y ++ "." ++ Py.str_int z)
  = Ok cs ->
  (satisfies_constraints v cs = true
   <-> lex_compare (parse_version_key v) [x; y; z] <> Lt
       /\ lex_compare (parse_version_key v) [(x + 1)%Z; 0%Z; 0%Z] = Lt).
Proof.
  intros Px Py_ Pz X E.
  rewrite (parse_caret_major x y z Px Py_ Pz X) in E.
  inversion E; subst cs; clear E.
  rewrite satisfies_between.
  match goal with
  | |- lex_compare _ (parse_version_key ?lo) <> Lt
       /\ lex_compare _ (parse_version_key ?hi) = Lt <-> _ =>
      replace (parse_version_key lo) with [x; y; z]
        by (symmetry; apply key_of_numbers; assumption);
      replace (parse_version_key hi) with [(x + 1)%Z; 0%Z; 0%Z]
        by (symmetry; apply key_of_major_bound; lia)
  end.
  reflexivity.
Qed.

Lemma tilde_members (x y z : Z) (v : string) (cs : list Constraint) :
  (0 <= x)%Z -> (0 <= y)%Z -> (0 <= z)%Z ->
  parse_constraints
    ("~" ++ Py.str_int x ++ "." ++ Py.str_int y ++ "." ++ Py.str_int z)
  = Ok cs ->
  (satisfies_constraints v cs = true
   <-> lex_compare (parse_version_key v) [x; y; z] <> Lt
       /\ lex_compare (parse_version_key v) [x; (y + 1)%Z; 0%Z] = Lt).
Proof.
  intros Px Py_ Pz E.
  rewrite (parse_tilde x y z Px Py_ Pz) in E.
  inversion E; subst cs; clear E.
  rewrite satisfies_between.
  match goal with
  | |- lex_compare _ (parse_version_key ?lo) <> Lt
       /\ lex_compare _ (parse_version_key ?hi) = Lt <-> _ =>
      replace (parse_version_key lo) with [x; y; z]
        by (symmetry; apply key_of_numbers; assumption);
      replace (parse_version_key hi) with [x; (y + 1)%Z; 0%Z]
        by (symmetry; apply key_of_minor_bound; lia)
  end.
  reflexivity.
Qed.

(** X2.  A version [v] satisfies the parsed range [^x.y.z] with [x <> 0]
    exactly when its key lies from [(x, y, z)] up to, but not including,
    [(x+1, 0, 0)]; it satisfies [^0.y.z] exactly when its key lies from
    [(0, y, z)] up to [(0, y+1, 0)], and [~x.y.z] exactly when its key
    lies from [(x, y, z)] up to [(x, y+1, 0)]. *)
Theorem semver_range_membership (x y z : Z) (v : string) :
  (0 <= x)%Z -> (0 <= y)%Z -> (0 <= z)%Z ->
  let k := parse_version_key v in
  let xyz := Py.str_int x ++ "." ++ Py.str_int y ++ "." ++ Py.str_int z in
  (x <> 0%Z ->
   forall cs, parse_constraints ("^" ++ xyz) = Ok cs ->
     (satisfies_constraints v cs = true
      <-> lex_compare k [x; y; z] <> Lt
          /\ lex_compare k [(x + 1)%Z; 0%Z; 0%Z] = Lt))
  /\ (x = 0%Z ->
      forall cs, parse_constraints ("^" ++ xyz) = Ok cs ->
        (satisfies_constraints v cs = true
         <-> lex_compare k [0%Z; y; z] <> Lt
             /\ lex_compare k [0%Z; (y + 1)%Z; 0%Z] = Lt))
  /\ (forall cs, parse_constraints ("~" ++ xyz) = Ok cs ->
        (satisfies_constraints v cs = true
         <-> lex_compare k [x; y; z] <> Lt
             /\ lex_compare k [x; (y + 1)%Z; 0%Z] = Lt)).
Proof.
  intros Px Py_ Pz k xyz. split; [|split].
  - intros X cs E. now apply caret_major_members.
  - intros -> cs E. unfold xyz in E.
    change (Py.str_int 0) with "0" in E.
    rewrite (parse_caret_minor y z Py_ Pz) in E.
    inversion E; subst cs; clear E.
    rewrite satisfies_between.
    match goal with
    | |- lex_compare _ (parse_version_key ?lo) <> Lt
         /\ lex_compare _ (parse_version_key ?hi) = Lt <-> _ =>
        replace (parse_version_key lo) with [0%Z; y; z]
          by (symmetry; apply (key_of_numbers 0 y z); assumption || lia);
        replace (parse_version_key hi) with [0%Z; (y + 1)%Z; 0%Z]
          by (symmetry; apply (key_of_minor_bound 0 (y + 1)); lia)
    end.
    reflexivity.
  - intros cs E. now apply tilde_members.
Qed.

Lemma semver_range_membership_witness :
  satisfies_constraints "1.9.0-rc1"
    [mkConstraint ">=" "1.2.3"; mkConstraint "<" "2.0.0"] = true.
Proof.
  apply (proj1 (semver_range_membership 1 2 3 "1.9.0-rc1"
                  ltac:(lia) ltac:(lia) ltac:(lia))
           ltac:(discriminate) _ eq_refl).
  split; vm_compute; [discriminate | reflexivity].
Defined.

(** X3.  The bounds of the ranges: [x.y.z] itself satisfies [^x.y.z] and
    [(x+1).0.0] does not, when [x <> 0]; [x.y.(z+1)] satisfies [~x.y.z]
    and [x.(y+1).0] does not. *)
Theorem semver_range_bounds (x y z : Z) :
  (0 <= x)%Z -> (0 <= y)%Z -> (0 <= z)%Z ->
  let xyz := Py.str_int x ++ "." ++ Py.str_int y ++ "." ++ Py.str_int z in
  (x <> 0%Z ->
   forall cs, parse_constraints ("^" ++ xyz) = Ok cs ->
     satisfies_constraints xyz cs = true
     /\ satisfies_constraints (Py.str_int (x + 1) ++ ".0.0") cs = false)
  /\ (forall cs, parse_constraints ("~" ++ xyz) = Ok cs ->
        satisfies_constraints
          (Py.str_int x ++ "." ++ Py.str_int y ++ "." ++ Py.str_int (z + 1)) cs
        = true
        /\ satisfies_constraints
             (Py.str_int x ++ "." ++ Py.str_int (y + 1) ++ ".0") cs = false).
Proof.
  intros Px Py_ Pz xyz. split.
  - intros X cs E.
    pose proof (fun v => caret_major_members x y z v cs Px Py_ Pz X E) as M.
    split.
    + apply M. unfold xyz. rewrite key_of_numbers by assumption.
      rewrite lex_compare_refl. split; [discriminate|].
      simpl. destruct (Z.compare_spec x (x + 1)); [lia | reflexivity | lia].
    + apply not_true_is_false. intros S. apply M in S.
      rewrite key_of_major_bound, lex_compare_refl in S by lia.
      destruct S as [_ S]. discriminate.
  - intros cs E.
    pose proof (fun v => tilde_members x y z v cs Px Py_ Pz E) as M.
    split.
    + apply M. rewrite key_of_numbers by lia. simpl.
      rewrite !Z.compare_refl. split.
      * destruct (Z.compare_spec (z + 1) z); [lia | lia | discriminate].
      * destruct (Z.compare_spec y (y + 1)); [lia | reflexivity | lia].
    + apply not_true_is_false. intros S. apply M in S.
      rewrite key_of_minor_bound, lex_compare_refl in S by lia.
      destruct S as [_ S]. discriminate.
Qed.

Lemma semver_range_bounds_witness :
  satisfies_constraints "3.1.4"
    [mkConstraint ">=" "3.1.4"; mkConstraint "<" "4.0.0"] = true
  /\ satisfies_constraints "4.0.0"
       [mkConstraint ">=" "3.1.4"; mkConstraint "<" "4.0.0"] = false.
Proof.
  apply (proj1 (semver_range_bounds 3 1 4 ltac:(lia) ltac:(lia) ltac:(lia))
           ltac:(discriminate) _ eq_refl).
Defined.

(* ================================================================== *)
(** * Comparator ranges *)

Lemma match_token_unfold t :
  Re.match_ re_token t
  = match Re.m re_comparator (Re.m re_version_part Re.accept) 0 t [] with
    | Some a => Some a
    | None => Re.m re_version_part Re.accept 0 t []
    end.
Proof. reflexivity. Qed.

(** The constraint of a token whose pattern match is known. *)
Lemma token_constraints_of_match t pos g v :
  Py.nonempty t = true -> Py.nonempty v = true -> spaceless v ->
  Re.match_ re_token t = Some (Re.Found pos "" ((2, v) :: g)) ->
  token_constraints t
  = [mkConstraint
       (match Re.group g 1 with
        | Some o => if Py.nonempty o then o else "="
        | None => "="
        end) v].
Proof.
  intros Nt Nv Sv M. unfold token_constraints. rewrite Nt, M. simpl negb.
  cbv iota. unfold Re.group_or_empty. cbn [Re.f_groups Re.group Nat.eqb].
  now rewrite (strip_spaceless _ Sv), Nv.
Qed.

Lemma version_part_nonempty pos v g :
  Py.nonempty v = true -> spaceless v ->
  Re.m re_version_part Re.accept pos v g
  = Some (Re.Found (pos + String.length v) "" ((2, v) :: g)).
Proof.
  intros N S. rewrite (version_part_spaceless _ _ _ S).
  destruct v; [discriminate N | reflexivity].
Qed.

Lemma substring_0_0 s : String.substring 0 0 s = "".
Proof. destruct s; reflexivity. Qed.

(** X4.  A token made of a comparator and a version gives the constraint
    of that comparator on that version; [>] and [<] must not be followed
    by [=], which would make the longer comparator. A token that begins
    with no comparator is an exact version. *)
Theorem token_constraints_well_formed (v : string) :
  Py.nonempty v = true -> spaceless v ->
  token_constraints (">=" ++ v) = [mkConstraint ">=" v]
  /\ token_constraints ("<=" ++ v) = [mkConstraint "<=" v]
  /\ token_constraints ("=" ++ v) = [mkConstraint "=" v]
  /\ (not_starting (Ascii.eqb "=") v = true ->
      token_constraints (">" ++ v) = [mkConstraint ">" v]
      /\ token_constraints ("<" ++ v) = [mkConstraint "<" v])
  /\ (not_starting is_comparator_char v = true ->
      token_constraints v = [mkConstraint "=" v]).
Proof.
  intros N S.
  assert (V : forall pos g,
             Re.m re_version_part Re.accept pos v g
             = Some (Re.Found (pos + String.length v) "" ((2, v) :: g)))
    by (intros; now apply version_part_nonempty).
  split; [|split; [|split; [|split]]].
  - eapply (token_constraints_of_match (">=" ++ v) _ [(1, ">=")] v eq_refl N S).
    rewrite match_token_unfold. unfold re_comparator.
    cbn -[re_version_part]. now rewrite ?substring_0_0, V.
  - eapply (token_constraints_of_match ("<=" ++ v) _ [(1, "<=")] v eq_refl N S).
    rewrite match_token_unfold. unfold re_comparator.
    cbn -[re_version_part]. now rewrite ?substring_0_0, V.
  - eapply (token_constraints_of_match ("=" ++ v) _ [(1, "=")] v eq_refl N S).
    rewrite match_token_unfold. unfold re_comparator.
    cbn -[re_version_part]. now rewrite ?substring_0_0, V.
  - intros E. destruct v as [|c v']; [discriminate N|].
    simpl in E. apply negb_true_iff in E. split.
    + eapply (token_constraints_of_match (">" ++ String c v') _ [(1, ">")] _ eq_refl N S).
      rewrite match_token_unfold. unfold re_comparator.
      cbn -[re_version_part]. rewrite E. now rewrite ?substring_0_0, V.
    + eapply (token_constraints_of_match ("<" ++ String c v') _ [(1, "<")] _ eq_refl N S).
      rewrite match_token_unfold. unfold re_comparator.
      cbn -[re_version_part]. rewrite E. now rewrite ?substring_0_0, V.
  - intros E. destruct v as [|c v']; [discriminate N|].
    simpl in E. apply negb_true_iff in E. unfold is_comparator_char in E.
    apply orb_false_iff in E. destruct E as [E E3].
    apply orb_false_iff in E. destruct E as [E1 E2].
    eapply (token_constraints_of_match _ _ [] _ N N S).
    rewrite match_token_unfold. unfold re_comparator.
    cbn -[re_version_part Ascii.eqb]. rewrite ?E1, ?E2, ?E3.
    cbn -[re_version_part Ascii.eqb]. now rewrite V.
Qed.

Lemma token_constraints_well_formed_witness :
  token_constraints ">1.20.1" = [mkConstraint ">" "1.20.1"]
  /\ token_constraints "<1.20.1" = [mkConstraint "<" "1.20.1"].
Proof.
  apply (proj1 (proj2 (proj2 (proj2 (token_constraints_well_formed "1.20.1"
                                       eq_refl eq_refl))))).
  reflexivity.
Defined.

(** The comparator group, alternative by alternative. *)
Lemma comparator_unfold {A} (k : @Re.cont A) c1 t1 :
  Re.m re_comparator k 0 (String c1 t1) []
  = let two (o1 o2 : ascii) :=
      if Ascii.eqb o1 c1 then
        match t1 with
        | String c2 t2 =>
            if Ascii.eqb o2 c2
            then k 2 t2 [(1, String c1 (String c2 (String.substring 0 0 t2)))]
            else None
        | EmptyString => None
        end
      else None in
    let one (o1 : ascii) :=
      if Ascii.eqb o1 c1
      then k 1 t1 [(1, String c1 (String.substring 0 0 t1))]
      else None in
    match two ">"%char "="%char with
    | Some a => Some a
    | None =>
        match two "<"%char "="%char with
        | Some a => Some a
        | None =>
            match one ">"%char with
            | Some a => Some a
            | None =>
                match one "<"%char with
                | Some a => Some a
                | None => one "="%char
                end
            end
        end
    end.
Proof. destruct t1; reflexivity. Qed.

(** What the comparator group can capture. *)
Lemma comparator_captures {A} (k : @Re.cont A) t a :
  Re.m re_comparator k 0 t [] = Some a ->
  exists o pos s',
    known_op o /\ Py.nonempty o = true /\ k pos s' [(1, o)] = Some a.
Proof.
  unfold known_op. intros E.
  destruct t as [|c1 t1]; [discriminate E|].
  rewrite comparator_unfold in E. cbv zeta in E.
  repeat match type of E with
    | context [Ascii.eqb ?l ?c] =>
        is_var c;
        destruct (Ascii.eqb_spec l c) as [? | ?]; [subst c|]
    | context [match ?t with String _ _ => _ | EmptyString => _ end] =>
        is_var t; destruct t as [|? ?]
    end;
  cbn [Ascii.eqb Bool.eqb] in E;
  rewrite ?substring_0_0 in E;
  repeat match type of E with
    | match ?x with Some _ => _ | None => _ end = Some _ =>
        let K := fresh "K" in
        destruct x eqn:K;
        [inversion E; subst; do 3 eexists;
         split; [|split; [|exact K]]; [auto 10 | reflexivity] |]
    end;
  try discriminate E;
  try (do 3 eexists; split; [|split; [|exact E]]; [auto 10 | reflexivity]).
Qed.

(** A match adds captures of the groups of its pattern, in front of the
    captures made before it. *)
Lemma star_adds_nothing {A} (greedy : bool) p (k : @Re.cont A) s :
  forall pos g a,
    Re.star greedy p k pos s g = Some a ->
    exists pos' s', k pos' s' g = Some a.
Proof.
  induction s as [|c s IH]; intros pos g a E; simpl in E; [eauto|].
  destruct (p c); [|eauto].
  destruct greedy.
  - destruct (Re.star true p k (S pos) s g) eqn:R.
    + inversion E; subst. apply (IH _ _ _ R).
    + eauto.
  - destruct (k pos (String c s) g) eqn:R.
    + inversion E; subst. eauto.
    + apply (IH _ _ _ E).
Qed.

Lemma m_adds_groups {A} r :
  forall (k : @Re.cont A) pos s g a,
    Re.m r k pos s g = Some a ->
    exists pos' s' added,
      k pos' s' (added ++ g)%list = Some a
      /\ Forall (fun p => In (fst p) (groups_of r)) added.
Proof.
  induction r as [|p|r1 IH1 r2 IH2|r1 IH1 r2 IH2|greedy p|i r IH| |];
    intros k pos s g a E; simpl in E.
  - exists pos, s, []. auto.
  - destruct s as [|c s]; [discriminate|].
    destruct (p c); [|discriminate]. exists (S pos), s, []. auto.
  - destruct (IH1 _ _ _ _ _ E) as [pos1 [s1 [a1 [E1 F1]]]].
    destruct (IH2 _ _ _ _ _ E1) as [pos2 [s2 [a2 [E2 F2]]]].
    exists pos2, s2, (a2 ++ a1)%list. rewrite <- app_assoc. split; [exact E2|].
    apply Forall_app. split.
    + eapply Forall_impl; [|exact F2]. intros q I. simpl.
      apply in_or_app. now right.
    + eapply Forall_impl; [|exact F1]. intros q I. simpl.
      apply in_or_app. now left.
  - destruct (Re.m r1 k pos s g) eqn:R.
    + inversion E; subst.
      destruct (IH1 _ _ _ _ _ R) as [pos1 [s1 [a1 [E1 F1]]]].
      exists pos1, s1, a1. split; [exact E1|].
      eapply Forall_impl; [|exact F1]. intros q I. simpl.
      apply in_or_app. now left.
    + destruct (IH2 _ _ _ _ _ E) as [pos1 [s1 [a1 [E1 F1]]]].
      exists pos1, s1, a1. split; [exact E1|].
      eapply Forall_impl; [|exact F1]. intros q I. simpl.
      apply in_or_app. now right.
  - destruct (star_adds_nothing _ _ _ _ _ _ _ E) as [pos1 [s1 E1]].
    exists pos1, s1, []. auto.
  - destruct (IH _ _ _ _ _ E) as [pos1 [s1 [a1 [E1 F1]]]].
    eexists pos1, s1, (_ :: a1). split; [exact E1|].
    constructor; [now left|].
    eapply Forall_impl; [|exact F1]. intros q I. now right.
  - destruct (Nat.eqb pos 0); [|discriminate]. exists pos, s, []. auto.
  - destruct (Re.at_eol s); [|discriminate]. exists pos, s, []. auto.
Qed.

Lemma group_app_other (added g : Re.caps) i :
  Forall (fun p : nat * string => fst p <> i) added ->
  Re.group (added ++ g)%list i = Re.group g i.
Proof.
  induction 1 as [|[j t] added N _ IH]; [reflexivity|].
  simpl in *. destruct (Nat.eqb_spec i j); [congruence | exact IH].
Qed.

(** The version part of the pattern leaves group 1 as it finds it. *)
Lemma version_part_keeps_comparator pos s g f :
  Re.m re_version_part Re.accept pos s g = Some f ->
  Re.group (Re.f_groups f) 1 = Re.group g 1.
Proof.
  intros E. destruct (m_adds_groups _ _ _ _ _ _ E) as [pos' [s' [added [K F]]]].
  inversion K; subst f; clear K. cbn [Re.f_groups].
  apply group_app_other.
  eapply Forall_impl; [|exact F]. intros [j t] I. simpl in *.
  destruct I as [<- | I]; [discriminate | destruct I].
Qed.

(** The constraints of a token carry one of the five comparators. *)
Lemma token_operator_known t c :
  In c (token_constraints t) -> known_op (op c).
Proof.
  unfold token_constraints.
  destruct (negb (Py.nonempty t)); [intros []|].
  destruct (Re.match_ re_token t) as [f|] eqn:M; [|intros []].
  destruct (Py.nonempty (Py.strip (Re.group_or_empty f 2))); [|intros []].
  intros [<- | []]. cbn [op].
  rewrite match_token_unfold in M.
  destruct (Re.m re_comparator (Re.m re_version_part Re.accept) 0 t [])
    as [f'|] eqn:E.
  - inversion M; subst f'; clear M.
    destruct (comparator_captures _ _ _ E) as [o [pos [s' [K [N V]]]]].
    rewrite (version_part_keeps_comparator _ _ _ _ V).
    cbn [Re.group Nat.eqb]. now rewrite N.
  - rewrite (version_part_keeps_comparator _ _ _ _ M).
    cbn [Re.group]. unfold known_op. auto.
Qed.

(** X5.  Every constraint [parse_constraints] returns carries one of
    [=], [>], [>=], [<], [<=]: the defensive branch of
    [satisfies_constraints] is never taken on a parsed range. *)
Theorem parsed_operators_are_known (s : string) (cs : list Constraint)
        (c : Constraint) :
  parse_constraints s = Ok cs -> In c cs -> known_op (op c).
Proof.
  unfold parse_constraints, known_op. cbv zeta.
  destruct (negb _ || _); [intros E; inversion E; intros []|].
  match goal with
  | |- context [if ?b then _ else _] => destruct b eqn:C
  end.
  - destruct (interval_unpacks _ C) as [lo [hi ->]].
    intros E. inversion E; subst; clear E. intros I.
    apply in_app_or in I.
    destruct (Py.nonempty lo), (Py.nonempty hi), (Py.startswith _ "["),
      (Py.endswith _ "]"); simpl in I;
      repeat match goal with
        | H : _ \/ _ |- _ => destruct H
        | H : False |- _ => destruct H
        end; subst; simpl; auto 10.
  - destruct (Py.startswith _ "^").
    { intros E. inversion E; subst; clear E.
      intros [<- | [<- | []]]; simpl; auto 10. }
    destruct (Py.startswith _ "~").
    { intros E. inversion E; subst; clear E.
      intros [<- | [<- | []]]; simpl; auto 10. }
    intros E. inversion E; subst; clear E.
    rewrite in_flat_map. intros [t [_ I]].
    apply (token_operator_known _ _ I).
Qed.

Lemma parsed_operators_are_known_witness :
  known_op (op (mkConstraint "<=" "2.0")).
Proof.
  apply (parsed_operators_are_known ">1.0 <=2.0"
           [mkConstraint ">" "1.0"; mkConstraint "<=" "2.0"]);
    [reflexivity | right; left; reflexivity].
Defined.

(** ** Splitting a range that was written token by token *)

Lemma length_append a b :
  String.length (a ++ b) = String.length a + String.length b.
Proof. induction a as [|c a IH]; simpl; [reflexivity | now rewrite IH]. Qed.

Lemma sepless_head c s :
  sepless (String c s) -> Py.is_space c = false /\ is_comma c = false.
Proof.
  unfold sepless. simpl. intros E. apply andb_prop in E.
  destruct E as [E _]. unfold not_separator in E.
  apply negb_true_iff, orb_false_iff in E. exact E.
Qed.

Lemma sepless_tail c s : sepless (String c s) -> sepless s.
Proof. unfold sepless. simpl. intros E. now apply andb_prop in E. Qed.

(** The search for a separator passes over a text that has none. *)
Lemma search_separator_after t :
  forall pos u,
    sepless t ->
    Re.search_from re_separators pos (t ++ u)
    = match Re.search_from re_separators (pos + String.length t) u with
      | Some (skipped, matched, f) => Some (t ++ skipped, matched, f)
      | None => None
      end.
Proof.
  induction t as [|c t IH]; intros pos u Hs.
  - simpl. rewrite Nat.add_0_r.
    destruct (Re.search_from re_separators pos u) as [[[sk mt] f]|];
      reflexivity.
  - destruct (sepless_head _ _ Hs) as [Sp Co].
    change (String c t ++ u) with (String c (t ++ u)).
    cbn [Re.search_from]. rewrite match_separator, Sp, Co. simpl orb. cbv iota.
    rewrite (IH (S pos) u (sepless_tail _ _ Hs)).
    replace (S pos + String.length t) with (pos + String.length (String c t))
      by (simpl; lia).
    destruct (Re.search_from re_separators _ u) as [[[sk mt] f]|];
      reflexivity.
Qed.

(** At a separator followed by a token, the match ends where the token
    begins. *)
Lemma search_separator_here pos sep u :
  is_separator_text sep = true -> not_starting Py.is_space u = true ->
  exists matched e,
    Re.search_from re_separators pos (sep ++ u)
    = Some ("", matched, Re.Found e u []).
Proof.
  intros Sp U. destruct sep as [|c ws]; [discriminate Sp|].
  simpl in Sp. apply andb_prop in Sp. destruct Sp as [C W].
  change (String c ws ++ u) with (String c (ws ++ u)).
  cbn [Re.search_from]. rewrite match_separator, C.
  rewrite (drop_while_app _ _ _ W U). eauto.
Qed.

Lemma join_tokens_cons c t rest :
  join_tokens (String c t) rest = String c (join_tokens t rest).
Proof. destruct rest as [|[sep tok] rest]; reflexivity. Qed.

Lemma join_tokens_not_starting t rest :
  Py.nonempty t = true -> sepless t ->
  not_starting Py.is_space (join_tokens t rest) = true.
Proof.
  intros N S. destruct t as [|c t]; [discriminate N|].
  rewrite join_tokens_cons. simpl.
  destruct (sepless_head _ _ S) as [-> _]. reflexivity.
Qed.

Lemma scan_join_tokens rest :
  forall t fuel pos,
    sepless t -> Forall separated_token rest ->
    String.length (join_tokens t rest) < fuel ->
    exists ms last,
      Re.scan fuel re_separators pos (join_tokens t rest) = (ms, last)
      /\ (map (fun x => fst (fst x)) ms ++ [last])%list = t :: map snd rest.
Proof.
  induction rest as [|[sep tok] rest IH]; intros t fuel pos St F L.
  - destruct fuel as [|fuel]; [lia|]. simpl join_tokens in *.
    cbn [Re.scan].
    pose proof (search_separator_after t pos "" St) as E.
    rewrite append_empty_r in E. rewrite E. simpl.
    exists [], t. split; reflexivity.
  - destruct fuel as [|fuel]; [lia|].
    pose proof (Forall_inv F) as [Sp [Stok Ntok]].
    pose proof (Forall_inv_tail F) as F'. simpl in Sp, Stok, Ntok.
    cbn [join_tokens] in *. cbn [Re.scan].
    rewrite (search_separator_after t pos _ St).
    destruct (search_separator_here (pos + String.length t) sep
                (join_tokens tok rest) Sp
                (join_tokens_not_starting _ _ Ntok Stok)) as [mt [e ->]].
    cbn [Re.f_end Re.f_rest].
    assert (L' : String.length (join_tokens tok rest) < fuel).
    { clear - L Sp. rewrite !length_append in L.
      destruct sep; [discriminate Sp|]. simpl in L. lia. }
    destruct (IH tok fuel e Stok F' L') as [ms [last [-> E]]].
    eexists. eexists. split; [reflexivity|].
    simpl. rewrite append_empty_r. now rewrite E.
Qed.

(** [re.split] gives back the tokens a range was written with. *)
Lemma split_join_tokens t rest :
  sepless t -> Forall separated_token rest ->
  Re.split re_separators (join_tokens t rest) = t :: map snd rest.
Proof.
  intros St F. unfold Re.split.
  destruct (scan_join_tokens rest t (S (String.length (join_tokens t rest)))
              0 St F (Nat.lt_succ_diag_r _)) as [ms [last [-> E]]].
  exact E.
Qed.

Lemma join_tokens_ends t rest :
  Py.nonempty t = true -> sepless t -> Forall separated_token rest ->
  exists p b,
    join_tokens t rest = p ++ b /\ Py.nonempty b = true /\ sepless b.
Proof.
  revert t. induction rest as [|[sep tok] rest IH]; intros t N S F.
  - exists "", t. auto.
  - pose proof (Forall_inv F) as [_ [Stok Ntok]].
    pose proof (Forall_inv_tail F) as F'. simpl in Stok, Ntok.
    destruct (IH tok Ntok Stok F') as [p [b [E [Nb Sb]]]].
    exists (t ++ sep ++ p), b. cbn [join_tokens]. rewrite E.
    now rewrite !append_assoc.
Qed.

Lemma strip_join_tokens t rest :
  Py.nonempty t = true -> sepless t -> Forall separated_token rest ->
  Py.strip (join_tokens t rest) = join_tokens t rest.
Proof.
  intros N S F. unfold Py.strip.
  rewrite lstrip_not_starting by now apply join_tokens_not_starting.
  destruct (join_tokens_ends t rest N S F) as [p [b [-> [Nb Sb]]]].
  apply rstrip_app; [|exact Nb].
  apply rstrip_no_space. apply (sepless_spaceless _ Sb).
Qed.

(** X6.  A range written as tokens, each after whitespace or after a
    comma and whitespace, and whose first character is none of [^ ~ [ (
    *], parses to the constraints of its tokens, in order. *)
Theorem parse_comparator_range (t : string) (rest : list (string * string)) :
  Py.nonempty t = true -> sepless t ->
  not_starting is_range_mark t = true ->
  Forall separated_token rest ->
  parse_constraints (join_tokens t rest)
  = Ok (flat_map token_constraints (t :: map snd rest)).
Proof.
  intros N S M F. unfold parse_constraints.
  rewrite (strip_join_tokens t rest N S F), (split_join_tokens t rest S F).
  destruct t as [|c t]; [discriminate N|].
  rewrite join_tokens_cons. cbv zeta. rewrite !startswith_char.
  simpl in M. apply negb_true_iff in M. unfold is_range_mark in M.
  repeat match type of M with
    | _ || _ = false =>
        let M' := fresh "M" in
        apply orb_false_iff in M; destruct M as [M M']
    end.
  cbn [Py.nonempty negb orb String.eqb].
  rewrite (Ascii.eqb_sym c "*").
  repeat match goal with
    | H : Ascii.eqb _ c = false |- _ => rewrite H; clear H
    end.
  reflexivity.
Qed.

Lemma parse_comparator_range_witness :
  parse_constraints (join_tokens ">=1.2" [(", ", "<2.0"); (" ", "1.5")])
  = Ok (flat_map token_constraints [">=1.2"; "<2.0"; "1.5"]).
Proof.
  apply (parse_comparator_range ">=1.2" [(", ", "<2.0"); (" ", "1.5")]);
    try reflexivity.
  repeat constructor.
Defined.

(* ================================================================== *)
(** * What sorting does to a list *)

Section SortPermutation.
Context {A K : Type}.
Variable lt : K -> K -> result bool.

Lemma insert_sorted_permutation (x : K * A) l :
  forall r, insert_sorted lt x l = Ok r -> Permutation (x :: l) r.
Proof.
  induction l as [|y l IH]; intros r E; simpl in E.
  - inversion E. apply Permutation_refl.
  - destruct (lt (fst x) (fst y)) as [[|]|e]; simpl in E; try discriminate.
    + inversion E. apply Permutation_refl.
    + destruct (insert_sorted lt x l) as [r'|e] eqn:R; simpl in E;
        [|discriminate].
      inversion E; subst.
      eapply Permutation_trans; [apply perm_swap|].
      apply perm_skip. now apply IH.
Qed.

Lemma sort_pairs_permutation (todo : list (K * A)) :
  forall done r,
    sort_pairs lt done todo = Ok r -> Permutation (done ++ todo) r.
Proof.
  induction todo as [|x todo IH]; intros done r E; simpl in E.
  - inversion E. rewrite app_nil_r. apply Permutation_refl.
  - destruct (insert_sorted lt x done) as [d|e] eqn:I; simpl in E;
      [|discriminate].
    eapply Permutation_trans; [|apply (IH _ _ E)].
    eapply Permutation_trans; [apply Permutation_sym, Permutation_middle|].
    change (x :: done ++ todo)%list with ((x :: done) ++ todo)%list.
    apply Permutation_app_tail. now apply insert_sorted_permutation.
Qed.

Lemma sort_by_key_permutation (key : A -> K) l r :
  sort_by_key lt key l = Ok r -> Permutation l r.
Proof.
  unfold sort_by_key. intros E.
  destruct (sort_pairs lt [] (map (fun a => (key a, a)) l)) as [p|e] eqn:S;
    simpl in E; [|discriminate].
  inversion E; subst. apply sort_pairs_permutation in S. simpl in S.
  apply (Permutation_map snd) in S. rewrite map_map in S. simpl in S.
  now rewrite map_id in S.
Qed.

End SortPermutation.

Lemma choose_in {A} policy (l : list A) d : l <> [] -> In (choose policy l d) l.
Proof.
  intros N. unfold choose. destruct (String.eqb policy "min").
  - destruct l; [congruence | now left].
  - revert N. induction l as [|x l IH]; [congruence|]. intros _.
    destruct l as [|y l]; [now left|].
    right. apply IH. discriminate.
Qed.

(** What is chosen among the sorted entries is one of the entries. *)
Lemma chosen_is_listed {A K} (lt : K -> K -> result bool) (key : A -> K)
      policy (l sorted : list A) d :
  l <> [] -> sort_by_key lt key l = Ok sorted ->
  In (choose policy sorted d) l.
Proof.
  intros N E. apply sort_by_key_permutation in E.
  apply (Permutation_in _ (Permutation_sym E)). apply choose_in.
  intros ->. apply Permutation_sym, Permutation_nil in E. congruence.
Qed.

Lemma datetime_lt_mixed a b :
  is_aware a <> is_aware b -> datetime_lt a b = Raise naive_aware_error.
Proof.
  intros N. destruct a, b; simpl in *; try reflexivity;
    exfalso; apply N; reflexivity.
Qed.

Lemma sort_pairs_mixed {A} aware (todo : list (datetime * A)) :
  forall done,
    done <> [] -> same_kind aware done -> ~ same_kind aware todo ->
    sort_pairs datetime_lt done todo = Raise naive_aware_error.
Proof.
  induction todo as [|x todo IH]; intros done N Kd Kt.
  - destruct Kt. constructor.
  - simpl. destruct (Bool.bool_dec (is_aware (fst x)) aware) as [Kx | Kx].
    + rewrite (insert_sorted_pure aware x done Kx Kd). simpl.
      apply IH.
      * apply insert_pure_nonempty.
      * now apply insert_pure_same_kind.
      * intros Kt'. apply Kt. now constructor.
    + destruct done as [|y done]; [congruence|].
      simpl. rewrite datetime_lt_mixed; [reflexivity|].
      rewrite (Forall_inv Kd). exact Kx.
Qed.

(** X7.  Sorting by timestamp succeeds exactly when the keys are all
    naive or all aware; it then gives a permutation of the list; and
    when it fails, it is with the [TypeError] of a naive-aware
    comparison. *)
Theorem sort_succeeds_iff_one_kind {A} (key : A -> datetime) (l : list A) :
  ((exists sorted, sort_by_key datetime_lt key l = Ok sorted)
   <-> (exists aware, Forall (of_kind key aware) l))
  /\ (forall sorted,
         sort_by_key datetime_lt key l = Ok sorted -> Permutation l sorted)
  /\ (forall e,
         sort_by_key datetime_lt key l = Raise e -> e = naive_aware_error).
Proof.
  assert (D : forall aware,
             Forall (of_kind key aware) l
             \/ ~ Forall (of_kind key aware) l).
  { intros aware. destruct (Forall_dec (of_kind key aware)) with (l := l);
      [|now left | now right].
    intros a. unfold of_kind. apply Bool.bool_dec. }
  assert (P : forall aware,
             Forall (of_kind key aware) l ->
             exists sorted, sort_by_key datetime_lt key l = Ok sorted).
  { intros aware F. destruct l as [|c0 rest]; [now exists []|].
    destruct (sort_by_key_selects key aware c0 rest "min" F) as [s [E _]].
    now exists s. }
  assert (M : forall c0 rest,
             l = c0 :: rest ->
             ~ Forall (of_kind key (is_aware (key c0))) l ->
             sort_by_key datetime_lt key l = Raise naive_aware_error).
  { intros c0 rest -> N. unfold sort_by_key.
    cbn [map sort_pairs insert_sorted bind].
    rewrite (sort_pairs_mixed (is_aware (key c0))); [reflexivity | discriminate | |].
    - now repeat constructor.
    - intros Kt. apply N. constructor; [reflexivity|].
      clear - Kt. unfold same_kind in Kt. rewrite Forall_map in Kt. exact Kt. }
  split; [|split].
  - split; [|intros [aware F]; now apply (P aware)].
    intros [sorted E]. destruct l as [|c0 rest]; [exists true; constructor|].
    exists (is_aware (key c0)).
    destruct (D (is_aware (key c0))) as [F | N]; [exact F|].
    rewrite (M c0 rest eq_refl N) in E. discriminate.
  - intros sorted. apply sort_by_key_permutation.
  - intros e E. destruct l as [|c0 rest]; [discriminate E|].
    destruct (D (is_aware (key c0))) as [F | N].
    + destruct (P _ F) as [s Es]. congruence.
    + rewrite (M c0 rest eq_refl N) in E. now inversion E.
Qed.

Lemma sort_succeeds_iff_one_kind_witness :
  exists sorted,
    sort_by_key datetime_lt (fun t : datetime => t) [Naive 7; Naive 3; Naive 5]
    = Ok sorted.
Proof.
  apply (proj1 (sort_succeeds_iff_one_kind (fun t : datetime => t)
                  [Naive 7; Naive 3; Naive 5])).
  exists false. repeat constructor.
Defined.

(* ================================================================== *)
(** * What the resolvers return *)

Ltac no_result :=
  try (intros; exfalso;
       match goal with
       | E : _ = Ok _ |- _ =>
           unfold runtime_error, assertion_error in E; discriminate E
       end).

Section ResolverSoundness.
Context `{Runtime}.

Lemma modrinth_candidate_inv cs v :
  modrinth_candidate cs v = true ->
  exists d vn,
    v = JDict d /\ dict_get d "version_number" = JStr vn
    /\ Py.nonempty vn = true /\ satisfies_constraints vn cs = true.
Proof.
  unfold modrinth_candidate. destruct v as [| | | | | |d]; try discriminate.
  destruct (dict_get d "version_number") as [| | | |vn| |] eqn:V;
    try discriminate.
  intros E. apply andb_prop in E. destruct E as [N S].
  exists d, vn. repeat split; try assumption.
  destruct cs as [|c cs]; [reflexivity|].
  destruct (satisfies_constraints vn (c :: cs)); [reflexivity|].
  discriminate S.
Qed.

(** What [resolve_modrinth] returns is made from a candidate of the
    listing. *)
Lemma resolve_modrinth_chosen dep loader mc policy r :
  resolve_modrinth dep loader mc policy = Ok r ->
  exists alias vs cs chosen,
    modrinth dep = Some alias
    /\ modrinth_versions alias loader mc = Ok (JList vs)
    /\ parse_constraints (version_range dep) = Ok cs
    /\ In chosen vs
    /\ modrinth_candidate cs chosen = true
    /\ r = mkResolved "modrinth" (mod_id dep) (Some alias)
             (Some (version_number_of chosen)) None None.
Proof.
  unfold resolve_modrinth. intros E.
  destruct (modrinth dep) as [alias|]; [|no_result].
  destruct (Py.nonempty alias); simpl in E; [|no_result].
  destruct (modrinth_versions alias loader mc) as [versions|e] eqn:V;
    simpl in E; [|discriminate E].
  destruct versions as [| | | | |vs|]; no_result.
  destruct (parse_constraints (version_range dep)) as [cs|e] eqn:P;
    simpl in E; [|discriminate E].
  destruct (filter (modrinth_candidate cs) vs) as [|c0 rest] eqn:F; no_result.
  destruct (sort_by_key datetime_lt published_dt (c0 :: rest))
    as [sorted|e] eqn:S; simpl in E; [|discriminate E].
  assert (I : In (choose policy sorted c0) (c0 :: rest))
    by (apply (chosen_is_listed datetime_lt published_dt policy
                 (c0 :: rest) sorted c0); [discriminate | exact S]).
  rewrite <- F in I. apply filter_In in I. destruct I as [I C].
  exists alias, vs, cs, (choose policy sorted c0). inversion E.
  repeat split; assumption.
Qed.

(** X8.  The version [resolve_modrinth] returns is the [version_number]
    of an entry of the listing, a non-empty string that satisfies every
    constraint of the dependency's range; the artifact carries the
    dependency's id and its Modrinth alias. *)
Theorem resolve_modrinth_sound dep loader mc policy r :
  resolve_modrinth dep loader mc policy = Ok r ->
  exists alias vs cs d vn,
    modrinth dep = Some alias
    /\ modrinth_versions alias loader mc = Ok (JList vs)
    /\ parse_constraints (version_range dep) = Ok cs
    /\ In (JDict d) vs
    /\ dict_get d "version_number" = JStr vn
    /\ Py.nonempty vn = true
    /\ satisfies_constraints vn cs = true
    /\ r = mkResolved "modrinth" (mod_id dep) (Some alias) (Some vn) None None.
Proof.
  intros E.
  destruct (resolve_modrinth_chosen _ _ _ _ _ E)
    as [alias [vs [cs [chosen [A [V [P [I [C R]]]]]]]]].
  destruct (modrinth_candidate_inv _ _ C) as [d [vn [Ed [Vn [N Sat]]]]].
  subst chosen. simpl in R. rewrite Vn in R. simpl in R.
  exists alias, vs, cs, d, vn. repeat split; assumption.
Qed.

Lemma narrow_exact_sound dep cs filtered files :
  narrow_exact dep cs filtered = Ok files -> filtered <> [] ->
  files <> []
  /\ (forall x, In x files -> In x filtered)
  /\ (forall needle, cs = [mkConstraint "=" needle] ->
      forall x, In x files -> names_contain needle x = true).
Proof.
  intros E N.
  assert (D : (exists needle, cs = [mkConstraint "=" needle])
              \/ (forall needle, cs <> [mkConstraint "=" needle])).
  { destruct cs as [|[o v] [|c' rest]].
    - right. discriminate.
    - destruct (String.eqb_spec o "=") as [-> | Ne].
      + left. now exists v.
      + right. intros needle Q. inversion Q. contradiction.
    - right. discriminate. }
  destruct D as [[needle ->] | O].
  - rewrite narrow_exact_single in E.
    destruct (filter (names_contain needle) filtered) as [|x l] eqn:F;
      no_result.
    inversion E; subst files. split; [discriminate|]. split.
    + intros y I. rewrite <- F in I. now apply filter_In in I.
    + intros needle' Q y I. inversion Q; subst needle'.
      rewrite <- F in I. now apply filter_In in I.
  - rewrite (narrow_exact_other _ _ _ O) in E. inversion E; subst files.
    split; [exact N|]. split; [auto|].
    intros needle Q. now destruct (O needle).
Qed.

Lemma select_file_sound dep project policy files r :
  select_file dep project policy files = Ok r -> files <> [] ->
  exists d text,
    In (JDict d) files /\ file_id_text (dict_get d "id") text
    /\ r = mkResolved "curseforge" (mod_id dep) None None
             (Some project) (Some text).
Proof.
  unfold select_file. intros E N.
  destruct (sort_by_key datetime_lt file_dt files) as [sorted|e] eqn:S;
    simpl in E; [|discriminate E].
  pose proof (chosen_is_listed _ _ policy _ _ JNull N S) as I.
  destruct (choose policy sorted JNull) as [| | | | | |d]; no_result.
  exists d. destruct (dict_get d "id") as [|b|n| | | |] eqn:Id; no_result.
  - exists (if b then "True" else "False"). split; [exact I|]. split.
    + right. now exists b.
    + inversion E. now destruct b.
  - exists (Py.str_int n). split; [exact I|]. split.
    + left. now exists n.
    + now inversion E.
Qed.

(** What [resolve_curseforge] returns is made from one of the files left
    after the compatible ones were narrowed. *)
Lemma resolve_curseforge_chosen dep loader mc policy r :
  resolve_curseforge dep loader mc policy = Ok r ->
  exists alias label payload data cs files d text,
    curseforge dep = Some alias /\ numeral alias
    /\ curseforge_expected_loader_label loader = Ok label
    /\ curseforge_files alias = Ok (JDict payload)
    /\ dict_get payload "data" = JList data
    /\ filter (curseforge_compatible mc label) data <> []
    /\ parse_constraints (Py.strip (version_range dep)) = Ok cs
    /\ narrow_exact dep cs (filter (curseforge_compatible mc label) data)
       = Ok files
    /\ In (JDict d) files
    /\ file_id_text (dict_get d "id") text
    /\ r = mkResolved "curseforge" (mod_id dep) None None
             (Some alias) (Some text).
Proof.
  unfold resolve_curseforge. intros E.
  destruct (curseforge dep) as [alias|]; [|no_result].
  destruct (Py.nonempty alias); simpl in E; [|no_result].
  destruct (Re.fullmatch re_digits alias) as [found|] eqn:M; no_result.
  assert (Nu : numeral alias)
    by (apply fullmatch_digits_numeral; rewrite M; discriminate).
  destruct (curseforge_expected_loader_label loader) as [label|e] eqn:L;
    simpl in E; [|discriminate E].
  destruct (curseforge_files alias) as [payload|e] eqn:P;
    simpl in E; [|discriminate E].
  destruct payload as [| | | | | |payload]; no_result.
  destruct (dict_get payload "data") as [| | | | |data|] eqn:D; no_result.
  destruct (filter (curseforge_compatible mc label) data) as [|f0 rest] eqn:F;
    no_result.
  destruct (parse_constraints (Py.strip (version_range dep))) as [cs|e] eqn:C;
    simpl in E; [|discriminate E].
  destruct (narrow_exact dep cs (f0 :: rest)) as [files|e] eqn:Na;
    simpl in E; [|discriminate E].
  assert (N0 : f0 :: rest <> []) by discriminate.
  destruct (narrow_exact_sound _ _ _ _ Na N0) as [Nf _].
  destruct (select_file_sound _ _ _ _ _ E Nf) as [d [text [I [T R]]]].
  exists alias, label, payload, data, cs, files, d, text. rewrite F.
  repeat split; try assumption; try reflexivity; apply Nu.
Qed.

(** X9.  The file [resolve_curseforge] returns is an entry of the
    listing of the project whose [gameVersions] holds both the Minecraft
    version and the loader's label and whose [id] is an integer; when
    the range is a single exact version, the file's name or display name
    contains it. The alias it was resolved under is a numeral. *)
Theorem resolve_curseforge_sound dep loader mc policy r :
  resolve_curseforge dep loader mc policy = Ok r ->
  exists alias label payload data d gvs text,
    curseforge dep = Some alias /\ numeral alias
    /\ curseforge_expected_loader_label loader = Ok label
    /\ curseforge_files alias = Ok (JDict payload)
    /\ dict_get payload "data" = JList data
    /\ In (JDict d) data
    /\ dict_get d "gameVersions" = JList gvs
    /\ str_in_list mc gvs = true /\ str_in_list label gvs = true
    /\ (forall needle,
           parse_constraints (Py.strip (version_range dep))
           = Ok [mkConstraint "=" needle] ->
           names_contain needle (JDict d) = true)
    /\ file_id_text (dict_get d "id") text
    /\ r = mkResolved "curseforge" (mod_id dep) None None
             (Some alias) (Some text).
Proof.
  intros E.
  destruct (resolve_curseforge_chosen _ _ _ _ _ E)
    as [alias [label [payload [data [cs [files [d [text
       [A [Nu [L [P [D [N0 [C [Na [I [T R]]]]]]]]]]]]]]]]]].
  destruct (narrow_exact_sound _ _ _ _ Na N0) as [_ [Sub Ex]].
  pose proof (Sub _ I) as I'.
  apply filter_In in I'. destruct I' as [Id Co].
  unfold curseforge_compatible in Co.
  destruct (dict_get d "gameVersions") as [| | | | |gvs|] eqn:G;
    try discriminate Co.
  apply andb_prop in Co. destruct Co as [Gm Gl].
  exists alias, label, payload, data, d, gvs, text.
  repeat split; try assumption; try apply Nu.
  intros needle Q. rewrite C in Q. inversion Q; subst cs.
  now apply (Ex needle eq_refl).
Qed.

(** X10.  A CurseForge alias that is not a numeral, a project slug for
    example, is refused with a [RuntimeError] that names the dependency
    and shows the alias, whatever the catalog holds. *)
Theorem curseforge_alias_must_be_numeric dep alias loader mc policy :
  curseforge dep = Some alias -> Py.nonempty alias = true ->
  ~ numeral alias ->
  resolve_curseforge dep loader mc policy
  = Raise (Exn RuntimeError
             ("CurseForge alias for dependency " ++ mod_id dep
              ++ " must be a numeric project id; got "
              ++ py_repr (JStr alias))).
Proof.
  intros A N Nu. unfold resolve_curseforge. rewrite A, N. simpl.
  destruct (Re.fullmatch re_digits alias) eqn:M; [|reflexivity].
  destruct Nu. apply fullmatch_digits_numeral. rewrite M. discriminate.
Qed.

End ResolverSoundness.

Lemma resolve_modrinth_sound_witness :
  exists alias vs cs d vn,
    modrinth sodium_any = Some alias
    /\ @modrinth_versions sample_runtime alias "fabric" "1.20.1" = Ok (JList vs)
    /\ parse_constraints (version_range sodium_any) = Ok cs
    /\ In (JDict d) vs
    /\ dict_get d "version_number" = JStr vn
    /\ Py.nonempty vn = true
    /\ satisfies_constraints vn cs = true
    /\ mkResolved "modrinth" "sodium" (Some "sodium") (Some "1.1.0") None None
       = mkResolved "modrinth" (mod_id sodium_any) (Some alias) (Some vn)
           None None.
Proof.
  apply (@resolve_modrinth_sound sample_runtime sodium_any
           "fabric" "1.20.1" "max").
  reflexivity.
Defined.

Lemma resolve_curseforge_sound_witness :
  exists alias label payload data d gvs text,
    curseforge jei_any = Some alias /\ numeral alias
    /\ @curseforge_expected_loader_label sample_runtime "fabric" = Ok label
    /\ @curseforge_files sample_runtime alias = Ok (JDict payload)
    /\ dict_get payload "data" = JList data
    /\ In (JDict d) data
    /\ dict_get d "gameVersions" = JList gvs
    /\ str_in_list "1.20.1" gvs = true /\ str_in_list label gvs = true
    /\ (forall needle,
           parse_constraints (Py.strip (version_range jei_any))
           = Ok [mkConstraint "=" needle] ->
           @names_contain sample_runtime needle (JDict d) = true)
    /\ file_id_text (dict_get d "id") text
    /\ mkResolved "curseforge" "jei" None None (Some "238222") (Some "4002")
       = mkResolved "curseforge" (mod_id jei_any) None None
           (Some alias) (Some text).
Proof.
  apply (@resolve_curseforge_sound sample_runtime jei_any
           "fabric" "1.20.1" "max").
  reflexivity.
Defined.

Lemma curseforge_alias_must_be_numeric_witness :
  @resolve_curseforge sample_runtime jei_by_slug "fabric" "1.20.1" "max"
  = Raise (Exn RuntimeError
             "CurseForge alias for dependency jei must be a numeric project id; got 'jei'").
Proof.
  apply (@curseforge_alias_must_be_numeric sample_runtime jei_by_slug "jei"
           "fabric" "1.20.1" "max"); [reflexivity | reflexivity |].
  intros [_ D]. discriminate D.
Defined.

(* ================================================================== *)
(** * De-duplication and the order of resolution *)

Lemma assoc_get_set {V} (l : list (string * V)) k v k' :
  assoc_get (assoc_set l k v) k'
  = if String.eqb k k' then Some v else assoc_get l k'.
Proof.
  induction l as [|[a b] l IH]; simpl; [reflexivity|].
  destruct (String.eqb_spec a k) as [-> | Nak]; simpl.
  - destruct (String.eqb k k'); reflexivity.
  - rewrite IH. destruct (String.eqb_spec a k') as [-> | Nak'];
      [|reflexivity].
    destruct (String.eqb_spec k k') as [-> | _]; [now destruct Nak | reflexivity].
Qed.

Lemma assoc_set_keys {V} (l : list (string * V)) k v :
  map fst (assoc_set l k v)
  = match assoc_get l k with
    | Some _ => map fst l
    | None => (map fst l ++ [k])%list
    end.
Proof.
  induction l as [|[a b] l IH]; simpl; [reflexivity|].
  destruct (String.eqb a k); simpl; [reflexivity|].
  rewrite IH. destruct (assoc_get l k); reflexivity.
Qed.

Lemma assoc_get_none {V} (l : list (string * V)) k :
  assoc_get l k = None -> ~ In k (map fst l).
Proof.
  induction l as [|[a b] l IH]; simpl; [tauto|].
  destruct (String.eqb_spec a k) as [-> | Nak]; [discriminate|].
  intros E [Q | I]; [contradiction | now apply IH].
Qed.

Lemma assoc_get_in {V} (l : list (string * V)) k v :
  assoc_get l k = Some v -> In (k, v) l.
Proof.
  induction l as [|[a b] l IH]; simpl; [discriminate|].
  destruct (String.eqb_spec a k) as [-> | Nak].
  - intros E. inversion E. now left.
  - intros E. right. now apply IH.
Qed.

Lemma in_assoc_get {V} (l : list (string * V)) k v :
  NoDup (map fst l) -> In (k, v) l -> assoc_get l k = Some v.
Proof.
  induction l as [|[a b] l IH]; simpl; [tauto|].
  intros N [Q | I].
  - inversion Q; subst. now rewrite String.eqb_refl.
  - inversion N as [|? ? Na Nl]; subst.
    destruct (String.eqb_spec a k) as [-> | Nak]; [|now apply IH].
    destruct Na. change k with (fst (k, v)). now apply in_map.
Qed.

Lemma assoc_set_nodup {V} (l : list (string * V)) k v :
  NoDup (map fst l) -> NoDup (map fst (assoc_set l k v)).
Proof.
  intros N. rewrite assoc_set_keys.
  destruct (assoc_get l k) eqn:G; [exact N|].
  apply assoc_get_none in G.
  apply NoDup_rev in N. rewrite <- (List.rev_involutive (map fst l ++ [k])%list).
  apply NoDup_rev. rewrite rev_app_distr. simpl. constructor; [|exact N].
  now rewrite <- in_rev.
Qed.

Lemma survivor_extend seen d dep :
  survivor seen d ->
  (mod_id dep = mod_id d -> (score dep <= score d)%nat) ->
  survivor (seen ++ [dep]) d.
Proof.
  intros [before [after [-> [B Af]]]] L.
  exists before, (after ++ [dep])%list. split.
  - now rewrite <- app_assoc.
  - split; [exact B|]. intros x I. apply in_app_or in I.
    destruct I as [I | [<- | []]]; [now apply Af | exact L].
Qed.

Lemma survivor_dominates seen d x :
  survivor seen d -> In x seen -> mod_id x = mod_id d ->
  (score x <= score d)%nat.
Proof.
  intros [before [after [-> [B Af]]]] I Q.
  apply in_app_or in I. destruct I as [I | [<- | I]].
  - specialize (B x I Q). lia.
  - lia.
  - now apply Af.
Qed.

Lemma survivor_last seen dep :
  (forall x, In x seen -> mod_id x = mod_id dep ->
             (score x < score dep)%nat) ->
  survivor (seen ++ [dep]) dep.
Proof.
  intros L. exists seen, []. split; [reflexivity|]. split; [exact L|].
  intros x [].
Qed.

Lemma dedupe_step_inv seen by_id dep :
  dedupe_inv seen by_id -> dedupe_inv (seen ++ [dep]) (dedupe_step by_id dep).
Proof.
  intros [N [Sv Pr]]. unfold dedupe_step.
  destruct (assoc_get by_id (mod_id dep)) as [existing|] eqn:G.
  - destruct (Sv _ _ G) as [Qe Se].
    destruct (Nat.ltb_spec (score existing) (score dep)) as [Lt | Ge].
    + split; [now apply assoc_set_nodup|]. split.
      * intros k d. rewrite assoc_get_set.
        destruct (String.eqb_spec (mod_id dep) k) as [<- | Nk].
        -- intros E. inversion E; subst d. split; [reflexivity|].
           apply survivor_last. intros x I Q.
           assert (score x <= score existing)%nat
             by (apply (survivor_dominates seen); [assumption.. | congruence]).
           lia.
        -- intros E. destruct (Sv _ _ E) as [Qk Sk]. split; [exact Qk|].
           apply survivor_extend; [exact Sk|]. intros Q. congruence.
      * intros x I. rewrite assoc_get_set.
        destruct (String.eqb (mod_id dep) (mod_id x)); [discriminate|].
        apply in_app_or in I. destruct I as [I | [<- | []]];
          [now apply Pr | congruence].
    + split; [exact N|]. split.
      * intros k d E. destruct (Sv _ _ E) as [Qk Sk]. split; [exact Qk|].
        apply survivor_extend; [exact Sk|]. intros Q.
        assert (d = existing) by congruence. subst d. exact Ge.
      * intros x I. apply in_app_or in I.
        destruct I as [I | [<- | []]]; [now apply Pr | congruence].
  - split; [now apply assoc_set_nodup|]. split.
    + intros k d. rewrite assoc_get_set.
      destruct (String.eqb_spec (mod_id dep) k) as [<- | Nk].
      * intros E. inversion E; subst d. split; [reflexivity|].
        apply survivor_last. intros x I Q.
        destruct (Pr x I). now rewrite Q.
      * intros E. destruct (Sv _ _ E) as [Qk Sk]. split; [exact Qk|].
        apply survivor_extend; [exact Sk|]. intros Q. congruence.
    + intros x I. rewrite assoc_get_set.
      destruct (String.eqb_spec (mod_id dep) (mod_id x)) as [Q | Nq];
        [discriminate|].
      apply in_app_or in I. destruct I as [I | [<- | []]];
        [now apply Pr | now destruct Nq].
Qed.

Lemma dedupe_fold_inv deps :
  forall seen by_id,
    dedupe_inv seen by_id ->
    dedupe_inv (seen ++ deps) (fold_left dedupe_step deps by_id).
Proof.
  induction deps as [|dep deps IH]; intros seen by_id I; simpl.
  - now rewrite app_nil_r.
  - replace (seen ++ dep :: deps)%list with ((seen ++ [dep]) ++ deps)%list
      by (now rewrite <- app_assoc).
    apply IH. now apply dedupe_step_inv.
Qed.

Lemma dedupe_invariant deps : dedupe_inv deps (dedupe deps).
Proof.
  change (dedupe deps) with (fold_left dedupe_step deps []).
  apply (dedupe_fold_inv deps [] []).
  split; [constructor|]. split; [discriminate | intros x []].
Qed.

(** X11.  De-duplication keeps exactly one entry per id: no id is kept
    twice, every id read is kept, and the entry kept for an id is the
    first of those with the most aliases among the entries of that id. *)
Theorem dedupe_keeps_first_best (deps : list Dependency) :
  NoDup (map fst (dedupe deps))
  /\ (forall k d, In (k, d) (dedupe deps) -> k = mod_id d /\ survivor deps d)
  /\ (forall x, In x deps -> exists d, In (mod_id x, d) (dedupe deps)).
Proof.
  destruct (dedupe_invariant deps) as [N [Sv Pr]].
  split; [exact N|]. split.
  - intros k d I. apply Sv. now apply in_assoc_get.
  - intros x I. destruct (assoc_get (dedupe deps) (mod_id x)) as [d|] eqn:G.
    + exists d. now apply assoc_get_in.
    + now destruct (Pr x I).
Qed.

(** ** The order of the ids *)

Lemma ascii_compare_lt_trans a b c :
  Ascii.compare a b = Lt -> Ascii.compare b c = Lt -> Ascii.compare a c = Lt.
Proof.
  unfold Ascii.compare. rewrite !N.compare_lt_iff. lia.
Qed.

Lemma string_compare_lt_trans a :
  forall b c,
    String.compare a b = Lt -> String.compare b c = Lt ->
    String.compare a c = Lt.
Proof.
  induction a as [|x a IH]; intros [|y b] [|z c]; simpl; try congruence.
  destruct (Ascii.compare x y) eqn:Cxy; try discriminate;
    destruct (Ascii.compare y z) eqn:Cyz; try discriminate; intros E1 E2.
  - apply Ascii.compare_eq_iff in Cxy, Cyz. subst.
    assert (R : Ascii.compare z z = Eq)
      by (unfold Ascii.compare; apply N.compare_refl).
    rewrite R. now apply (IH b c).
  - apply Ascii.compare_eq_iff in Cxy. subst. now rewrite Cyz.
  - apply Ascii.compare_eq_iff in Cyz. subst. now rewrite Cxy.
  - now rewrite (ascii_compare_lt_trans _ _ _ Cxy Cyz).
Qed.

Lemma ltb_trans a b c :
  String.ltb a b = true -> String.ltb b c = true -> String.ltb a c = true.
Proof.
  unfold String.ltb. intros E1 E2.
  destruct (String.compare a b) eqn:C1; try discriminate.
  destruct (String.compare b c) eqn:C2; try discriminate.
  now rewrite (string_compare_lt_trans _ _ _ C1 C2).
Qed.

Lemma ltb_total a b :
  String.ltb b a = false -> a <> b -> String.ltb a b = true.
Proof.
  unfold String.ltb. rewrite (String.compare_antisym a b).
  destruct (String.compare b a) eqn:C; simpl; try congruence.
  apply String.compare_eq_iff in C. congruence.
Qed.

Section SortByText.
Context {A : Type}.

Lemma insert_sorted_text_cons (x y : string * A) l :
  insert_sorted string_lt x (y :: l)
  = if String.ltb (fst x) (fst y) then Ok (x :: y :: l)
    else (r <- insert_sorted string_lt x l ;; Ok (y :: r)).
Proof. reflexivity. Qed.

Lemma insert_sorted_text (x : string * A) l :
  StronglySorted key_not_after l ->
  exists r,
    insert_sorted string_lt x l = Ok r /\ StronglySorted key_not_after r.
Proof.
  induction 1 as [|y l Sl IH Fy].
  - eexists. split; [reflexivity|]. repeat constructor.
  - rewrite insert_sorted_text_cons.
    destruct (String.ltb (fst x) (fst y)) eqn:L.
    + eexists. split; [reflexivity|]. constructor.
      * now constructor.
      * assert (Hy : key_not_after x y).
        { unfold key_not_after.
          destruct (String.ltb (fst y) (fst x)) eqn:L'; [|reflexivity].
          pose proof (ltb_trans _ _ _ L L') as Q.
          unfold String.ltb in Q.
          assert (R : String.compare (fst x) (fst x) = Eq).
          { clear. induction (fst x) as [|c s IHs]; simpl; [reflexivity|].
            unfold Ascii.compare. now rewrite N.compare_refl. }
          rewrite R in Q. discriminate Q. }
        constructor; [exact Hy|].
        eapply Forall_impl; [|exact Fy]. intros z Hz.
        unfold key_not_after in *.
        destruct (String.ltb (fst z) (fst x)) eqn:Lz; [|reflexivity].
        rewrite (ltb_trans _ _ _ Lz L) in Hz. discriminate Hz.
    + destruct IH as [r [E Sr]]. rewrite E. simpl.
      eexists. split; [reflexivity|]. constructor; [exact Sr|].
      apply insert_sorted_permutation in E.
      eapply Permutation_Forall; [exact E|].
      constructor; [exact L | exact Fy].
Qed.

Lemma sort_pairs_text (todo : list (string * A)) :
  forall done,
    StronglySorted key_not_after done ->
    exists r,
      sort_pairs string_lt done todo = Ok r /\ StronglySorted key_not_after r.
Proof.
  induction todo as [|x todo IH]; intros done Sd; simpl.
  - now exists done.
  - destruct (insert_sorted_text x done Sd) as [d [-> Sd']]. simpl.
    now apply IH.
Qed.

Lemma strongly_sorted_map_snd (key : A -> string) (l : list (string * A)) :
  Forall (fun p => fst p = key (snd p)) l ->
  StronglySorted key_not_after l ->
  StronglySorted (fun a b => String.ltb (key b) (key a) = false) (map snd l).
Proof.
  intros K S. induction S as [|y l Sl IH Fy]; simpl; constructor.
  - apply IH. now inversion K.
  - inversion K as [|? ? Ky Kl]; subst. rewrite Forall_map.
    rewrite Forall_forall in *. intros z I.
    specialize (Fy z I). specialize (Kl z I). unfold key_not_after in Fy.
    now rewrite <- Ky, <- Kl.
Qed.

(** Sorting by a text key never raises; it gives a permutation of the
    list in which no entry has a smaller key than an entry before it. *)
Lemma sort_by_text (key : A -> string) (l : list A) :
  exists sorted,
    sort_by_key string_lt key l = Ok sorted
    /\ Permutation l sorted
    /\ StronglySorted (fun a b => String.ltb (key b) (key a) = false) sorted.
Proof.
  unfold sort_by_key.
  destruct (sort_pairs_text (map (fun a => (key a, a)) l) [])
    as [r [E Sr]]; [constructor|].
  rewrite E. simpl. eexists. split; [reflexivity|].
  assert (P : Permutation (map (fun a => (key a, a)) l) r)
    by (apply sort_pairs_permutation in E; exact E).
  split.
  - apply (Permutation_map snd) in P. rewrite map_map in P. simpl in P.
    now rewrite map_id in P.
  - apply strongly_sorted_map_snd; [|exact Sr].
    eapply Permutation_Forall; [exact P|].
    rewrite Forall_map. apply Forall_forall. reflexivity.
Qed.

End SortByText.

Lemma strictly_sorted_ids (l : list Dependency) :
  NoDup (map mod_id l) ->
  StronglySorted (fun a b => String.ltb (mod_id b) (mod_id a) = false) l ->
  StronglySorted id_before l.
Proof.
  intros N S. induction S as [|y l Sl IH Fy]; constructor.
  - apply IH. now inversion N.
  - inversion N as [|? ? Ny Nl]; subst. rewrite Forall_forall in *.
    intros z I. apply ltb_total; [now apply Fy|].
    intros Q. apply Ny. rewrite Q. now apply in_map.
Qed.

Lemma dedupe_ids deps :
  map mod_id (map snd (dedupe deps)) = map fst (dedupe deps).
Proof.
  destruct (dedupe_invariant deps) as [N [Sv _]].
  rewrite map_map. apply map_ext_in. intros [k d] I. simpl.
  symmetry. apply (Sv k d). now apply in_assoc_get.
Qed.

Section RequiredDependencies.
Context `{Runtime}.

(** X12.  When the three extractors return, the dependencies to resolve
    are the entries de-duplication keeps, in strictly ascending order of
    their ids: the order of resolution does not depend on the order in
    which the manifests declare them. *)
Theorem required_dependencies_sorted project d1 d2 d3 :
  read_fabric_dependencies (fabric_manifest project) = Ok d1 ->
  read_forge_dependencies (forge_manifest project) = Ok d2 ->
  read_quilt_dependencies (quilt_manifest project) = Ok d3 ->
  exists deps,
    required_dependencies project = Ok deps
    /\ Permutation (map snd (dedupe (d1 ++ d2 ++ d3))) deps
    /\ StronglySorted id_before deps.
Proof.
  intros E1 E2 E3. unfold required_dependencies. rewrite E1, E2, E3. simpl.
  destruct (sort_by_text mod_id (map snd (dedupe (d1 ++ d2 ++ d3))))
    as [sorted [E [P S]]].
  exists sorted. split; [exact E|]. split; [exact P|].
  apply strictly_sorted_ids; [|exact S].
  apply (Permutation_NoDup (Permutation_map mod_id P)).
  rewrite dedupe_ids. apply dedupe_invariant.
Qed.

End RequiredDependencies.

Lemma required_dependencies_sorted_witness :
  exists deps,
    @required_dependencies sample_runtime two_dependency_project = Ok deps
    /\ Permutation
         (map snd (dedupe ([sodium_plain; fabric_api_plain] ++ [] ++ [])))
         deps
    /\ StronglySorted id_before deps.
Proof.
  apply (@required_dependencies_sorted sample_runtime two_dependency_project);
    reflexivity.
Defined.

(* ================================================================== *)
(** * A run that succeeds *)

Lemma str_int_nonempty n : Py.nonempty (Py.str_int n) = true.
Proof.
  destruct n as [|p|p]; [reflexivity | |].
  - unfold Py.str_int. simpl.
    pose proof (DecimalPos.Unsigned.to_uint_nonnil p) as N.
    destruct (Pos.to_uint p); [congruence | reflexivity ..].
  - reflexivity.
Qed.

Section RunFacts.
Context `{Runtime}.

Lemma resolve_one_artifacts args dep rs :
  resolve_one args dep = Ok rs ->
  if has_alias dep
  then exists r,
      rs = [r] /\ artifact_of dep r /\ is_ok (entry_lines r) = true
  else rs = [].
Proof.
  unfold resolve_one, has_alias, artifact_of. intros E.
  destruct (some_nonempty (modrinth dep)) eqn:M; simpl.
  - destruct (resolve_modrinth dep (arg_loader args)
                (arg_minecraft_version args) (arg_policy args))
      as [r|e] eqn:R; simpl in E; [|discriminate E].
    destruct (resolve_modrinth_chosen _ _ _ _ _ R)
      as [alias [vs [cs [chosen [A [_ [_ [_ [C ->]]]]]]]]].
    destruct (modrinth_candidate_inv _ _ C) as [d [vn [-> [Vn [N _]]]]].
    rewrite A in M. simpl in M. simpl in E. rewrite Vn in E. simpl in E.
    exists (mkResolved "modrinth" (mod_id dep) (Some alias) (Some vn) None None).
    split; [now inversion E|]. split; [split; reflexivity|].
    unfold entry_lines. simpl. now rewrite M, N.
  - destruct (some_nonempty (curseforge dep)) eqn:C; simpl.
    + destruct (resolve_curseforge dep (arg_loader args)
                  (arg_minecraft_version args) (arg_policy args))
        as [r|e] eqn:R; simpl in E; [|discriminate E].
      destruct (resolve_curseforge_chosen _ _ _ _ _ R)
        as [alias [label [payload [data [cs [files [d [text
           [A [_ [_ [_ [_ [_ [_ [_ [_ [T ->]]]]]]]]]]]]]]]]]].
      rewrite A in C. simpl in C.
      exists (mkResolved "curseforge" (mod_id dep) None None
                (Some alias) (Some text)).
      split; [now inversion E|]. split; [split; reflexivity|].
      unfold entry_lines. simpl. rewrite C.
      assert (Nt : Py.nonempty text = true).
      { destruct T as [[n [_ ->]] | [b [_ ->]]];
          [apply str_int_nonempty | now destruct b]. }
      now rewrite Nt.
    + destruct (arg_strict args); [discriminate E | now inversion E].
Qed.

Lemma resolve_loop_artifacts args deps :
  forall acc resolved,
    resolve_loop args deps acc = Ok resolved ->
    exists added,
      resolved = (acc ++ added)%list
      /\ Forall2 artifact_of (filter has_alias deps) added
      /\ Forall (fun r => is_ok (entry_lines r) = true) added.
Proof.
  induction deps as [|dep deps IH]; intros acc resolved E; simpl in E.
  - exists []. inversion E. rewrite app_nil_r. repeat constructor.
  - destruct (resolve_one args dep) as [rs|e] eqn:R; simpl in E;
      [|discriminate E].
    destruct (IH _ _ E) as [added [-> [F W]]].
    apply resolve_one_artifacts in R. simpl.
    destruct (has_alias dep).
    + destruct R as [r [-> [Ar Wr]]]. exists (r :: added).
      split; [now rewrite <- app_assoc|]. split; constructor; assumption.
    + subst rs. exists added. rewrite app_nil_r. repeat split; assumption.
Qed.

(** X13.  The resolution loop gives one artifact for each dependency
    that has an alias, in the order of the dependencies and under their
    ids; a dependency with a Modrinth alias is resolved on Modrinth even
    when it has a CurseForge alias too, and one without alias adds
    nothing. *)
Theorem resolution_follows_dependencies args deps resolved :
  resolve_loop args deps [] = Ok resolved ->
  Forall2 artifact_of (filter has_alias deps) resolved.
Proof.
  intros E. destruct (resolve_loop_artifacts _ _ _ _ E) as [added [-> [F _]]].
  exact F.
Qed.

Lemma all_entry_lines_ok resolved :
  Forall (fun r => is_ok (entry_lines r) = true) resolved ->
  exists ls, all_entry_lines resolved = Ok ls.
Proof.
  induction 1 as [|r resolved Wr _ [ls E]]; simpl; [now exists []|].
  destruct (entry_lines r) as [l|e]; [|discriminate Wr].
  rewrite E. simpl. now eexists.
Qed.

Lemma write_dependencies_yml_ok out resolved w :
  Forall (fun r => is_ok (entry_lines r) = true) resolved ->
  exists content,
    write_dependencies_yml out resolved w = (write_file out content w, Ok tt).
Proof.
  intros W. destruct resolved as [|r rest]; [eexists; reflexivity|].
  unfold write_dependencies_yml.
  destruct (all_entry_lines_ok _ W) as [ls ->]. eexists. reflexivity.
Qed.

(** X14.  When the extractors return and every resolution succeeds, the
    run succeeds: the writer accepts every artifact the resolvers
    return, the document is written to the output path, the two report
    lines are printed with the number of dependencies that have an
    alias, nothing goes to the error stream and the exit status is 0.
    The file system is taken to accept the write. *)
Theorem successful_run args project w deps resolved :
  required_dependencies project = Ok deps ->
  resolve_loop args deps [] = Ok resolved ->
  exists content,
    script args project w
    = (mkWorld ((arg_out args, content) :: files w)
         (stdout w ++ report (arg_out args)
                        (List.length (filter has_alias deps)))%list
         (stderr w),
       0%Z).
Proof.
  intros D R. destruct (resolve_loop_artifacts _ _ _ _ R) as [added [Q [F W]]].
  simpl in Q. subst added.
  destruct (write_dependencies_yml_ok (arg_out args) resolved w W)
    as [content Wr].
  exists content. unfold script, main. rewrite D. simpl bind. rewrite R, Wr.
  unfold print_out, write_file, report. simpl.
  rewrite (Forall2_length F), <- app_assoc. reflexivity.
Qed.

Lemma resolve_loop_without_aliases args deps :
  arg_strict args = false ->
  Forall (fun d => has_alias d = false) deps ->
  forall acc, resolve_loop args deps acc = Ok acc.
Proof.
  intros P F. induction F as [|dep deps Nd _ IH]; intros acc; simpl;
    [reflexivity|].
  unfold resolve_one. unfold has_alias in Nd.
  apply orb_false_elim in Nd. destruct Nd as [-> ->]. rewrite P. simpl.
  rewrite app_nil_r. apply IH.
Qed.

(** X15.  Without [--strict], a project none of whose dependencies has
    an alias gives the document with the empty runtime list and the exit
    status 0, whatever the catalogs hold: they are not consulted.  The
    file system is taken to accept the write. *)
Theorem permissive_run_without_aliases args project w deps :
  arg_strict args = false ->
  required_dependencies project = Ok deps ->
  Forall (fun d => has_alias d = false) deps ->
  script args project w
  = (mkWorld ((arg_out args, empty_document) :: files w)
       (stdout w ++ report (arg_out args) 0)%list
       (stderr w),
     0%Z).
Proof.
  intros P D F. unfold script, main. rewrite D. simpl bind.
  rewrite (resolve_loop_without_aliases args deps P F).
  unfold print_out, write_file, report. simpl.
  rewrite <- app_assoc. reflexivity.
Qed.

End RunFacts.

Lemma resolution_follows_dependencies_witness :
  Forall2 artifact_of (filter has_alias [jei_any; sodium_any])
    [jei_latest; sodium_latest].
Proof.
  apply (@resolution_follows_dependencies sample_runtime fabric_args
           [jei_any; sodium_any] [jei_latest; sodium_latest]).
  reflexivity.
Defined.

Lemma successful_run_witness :
  exists content,
    @script sample_runtime fabric_args sodium_project empty_world
    = (mkWorld ((arg_out fabric_args, content) :: files empty_world)
         (stdout empty_world
          ++ report (arg_out fabric_args)
               (List.length (filter has_alias [sodium_any])))%list
         (stderr empty_world),
       0%Z).
Proof.
  apply (@successful_run sample_runtime fabric_args sodium_project
           empty_world [sodium_any] [sodium_latest]);
    reflexivity.
Defined.

Lemma permissive_run_without_aliases_witness :
  @script sample_runtime fabric_args project_without_alias empty_world
  = (mkWorld ((arg_out fabric_args, empty_document) :: files empty_world)
       (stdout empty_world ++ report (arg_out fabric_args) 0)%list
       (stderr empty_world),
     0%Z).
Proof.
  apply (@permissive_run_without_aliases sample_runtime fabric_args
           project_without_alias empty_world
           [mkDependency "foo" "*" None None]);
    [reflexivity | reflexivity | repeat constructor].
Defined.

(* ================================================================== *)
(** * The ranges the extractors hand over *)

Lemma lstrip_starts s : not_starting Py.is_space (Py.lstrip s) = true.
Proof.
  induction s as [|c s IH]; simpl; [reflexivity|].
  destruct (Py.is_space c) eqn:C; [exact IH|]. simpl. now rewrite C.
Qed.

Lemma rstrip_idempotent s : Py.rstrip (Py.rstrip s) = Py.rstrip s.
Proof.
  induction s as [|c s IH]; simpl; [reflexivity|].
  destruct (Py.rstrip s) as [|c' r] eqn:R.
  - destruct (Py.is_space c) eqn:C; simpl; [reflexivity|]. now rewrite C.
  - change (Py.rstrip (String c (String c' r)))
      with (match Py.rstrip (String c' r) with
            | EmptyString =>
                if Py.is_space c then EmptyString else String c EmptyString
            | r' => String c r'
            end).
    now rewrite IH.
Qed.

Lemma rstrip_keeps_head s :
  not_starting Py.is_space s = true ->
  not_starting Py.is_space (Py.rstrip s) = true.
Proof.
  destruct s as [|c s]; simpl; [reflexivity|]. intros C.
  destruct (Py.rstrip s); simpl; [|exact C].
  apply negb_true_iff in C. rewrite C. simpl. now rewrite C.
Qed.

Lemma strip_idempotent s : Py.strip (Py.strip s) = Py.strip s.
Proof.
  unfold Py.strip.
  rewrite (lstrip_not_starting (Py.rstrip (Py.lstrip s))).
  - apply rstrip_idempotent.
  - apply rstrip_keeps_head, lstrip_starts.
Qed.

Lemma usable_strip_or_star i r m c :
  usable_range (mkDependency i (strip_or_star r) m c).
Proof.
  unfold usable_range, strip_or_star. simpl.
  destruct (Py.nonempty (Py.strip r)) eqn:N.
  - split; [exact N | apply strip_idempotent].
  - split; reflexivity.
Qed.

Lemma usable_strip_or_default i (r : json) m c :
  usable_range
    (mkDependency i
       (Py.strip match r with
                 | JStr t => if Py.nonempty (Py.strip t) then t else "*"
                 | _ => "*"
                 end) m c).
Proof.
  unfold usable_range. simpl. split; [|apply strip_idempotent].
  destruct r as [| | | |t| |]; try reflexivity.
  destruct (Py.nonempty (Py.strip t)) eqn:N; [exact N | reflexivity].
Qed.

Section RangeFacts.
Context `{Runtime}.

Lemma fabric_ranges_usable manifest deps :
  read_fabric_dependencies manifest = Ok deps -> Forall usable_range deps.
Proof.
  unfold read_fabric_dependencies.
  destruct manifest as [[| | | | | |data]|]; try discriminate;
    [|intros E; inversion E; constructor].
  destruct (extract_alias_map_from_fabric_custom _) as [alias_map|e];
    [|discriminate].
  simpl. intros E. inversion E; subst; clear E.
  apply Forall_forall. intros d. rewrite in_flat_map.
  intros [[k v] [_ I]]. simpl in I.
  destruct (String.eqb k "minecraft" || String.eqb k "java"
            || String.eqb k "fabricloader"); [destruct I|].
  destruct I as [<- | []]. apply usable_strip_or_star.
Qed.

Lemma forge_ranges_usable manifest deps :
  read_forge_dependencies manifest = Ok deps -> Forall usable_range deps.
Proof.
  unfold read_forge_dependencies.
  destruct manifest as [[| | | | | |data]|]; try discriminate;
    [|intros E; inversion E; constructor].
  assert (G : forall entry d, In d (forge_entry entry) -> usable_range d).
  { intros entry d. unfold forge_entry.
    destruct entry as [| | | | | |e]; try none_listed.
    destruct (dict_get e "modId") as [| | | |dep_id| |]; try none_listed.
    destruct (negb (Py.nonempty dep_id)); [none_listed|].
    destruct (String.eqb dep_id "minecraft"); [none_listed|].
    destruct (dict_get e "mandatory") as [|[|]| | | | |]; try none_listed.
    destruct (dict_get e "mc-publish") as [| | | | | |mcp];
      try (one_listed; apply usable_strip_or_default).
    destruct (dict_get mcp "ignore") as [|[|]| | | | |];
      try none_listed; one_listed; apply usable_strip_or_default. }
  destruct (dict_get data "dependencies") as [| | | | | |deps_root];
    try (intros E; inversion E; constructor).
  destruct (match dict_get data "mods" with JList (JDict m0 :: _) => _ | _ => None end)
    as [mid|]; [|intros E; inversion E; constructor].
  destruct (dict_get deps_root mid) as [| | | | |entries|];
    try (intros E; inversion E; constructor).
  intros E. inversion E; subst; clear E.
  apply Forall_forall. intros d. rewrite in_flat_map.
  intros [entry [_ I]]. exact (G entry d I).
Qed.

Lemma quilt_ranges_usable manifest deps :
  read_quilt_dependencies manifest = Ok deps -> Forall usable_range deps.
Proof.
  unfold read_quilt_dependencies.
  destruct manifest as [[| | | | | |data]|]; try discriminate;
    [|intros E; inversion E; constructor].
  match goal with
  | |- bind ?m _ = _ -> _ => destruct m as [alias_map|e]; [|discriminate]
  end.
  simpl. intros E. inversion E; subst; clear E.
  apply Forall_forall. intros d. rewrite in_flat_map.
  intros [item [_ I]]. unfold quilt_entry in I.
  destruct item as [| | | |dep_id| |o]; try destruct I.
  - destruct (String.eqb dep_id "minecraft" || String.eqb dep_id "java");
      [destruct I|].
    destruct I as [<- | []]. split; reflexivity.
  - destruct (dict_get o "id") as [| | | |dep_id| |]; try destruct I.
    destruct (negb (Py.nonempty dep_id)); [destruct I|].
    destruct (match dict_get o "optional" with JBool true => true | _ => false end);
      [destruct I|].
    destruct (String.eqb dep_id "minecraft" || String.eqb dep_id "java");
      [destruct I|].
    destruct I as [<- | []]. apply usable_strip_or_default.
Qed.

(** X16.  Every dependency an extractor returns has a range that is not
    empty and has no whitespace around it: a missing, non-text or blank
    range of the manifest has become ["*"]. *)
Theorem extracted_ranges_are_usable manifest deps :
  read_fabric_dependencies manifest = Ok deps
  \/ read_forge_dependencies manifest = Ok deps
  \/ read_quilt_dependencies manifest = Ok deps ->
  Forall usable_range deps.
Proof.
  intros [E | [E | E]];
    [exact (fabric_ranges_usable _ _ E) | exact (forge_ranges_usable _ _ E)
     | exact (quilt_ranges_usable _ _ E)].
Qed.

End RangeFacts.

Lemma extracted_ranges_are_usable_witness :
  Forall usable_range [mkDependency "qsl" "*" None None].
Proof.
  apply (@extracted_ranges_are_usable sample_runtime
           (Some quilt_manifest_blank_range)).
  right. right. reflexivity.
Defined.

(* ================================================================== *)
(** * mc-publish dependency strings *)

(** ** Character classes *)

Ltac by_cases_on c :=
  destruct c as [[|] [|] [|] [|] [|] [|] [|] [|]];
  intros E; vm_compute in E |- *; first [reflexivity | discriminate E].

Lemma id_char_not_space c : is_id_char c = true -> Py.is_space c = false.
Proof. by_cases_on c. Qed.

Lemma id_char_not_brace c : is_id_char c = true -> Ascii.eqb c "{" = false.
Proof. by_cases_on c. Qed.

Lemma platform_char_not_space c :
  is_platform_char c = true -> Py.is_space c = false.
Proof. by_cases_on c. Qed.

Lemma alias_char_not_space c : is_alias_char c = true -> Py.is_space c = false.
Proof.
  unfold is_alias_char. intros E. apply andb_prop in E.
  now apply negb_true_iff.
Qed.

Lemma alias_char_not_close c :
  is_alias_char c = true -> Ascii.eqb "}" c = false.
Proof.
  unfold is_alias_char, not_close_brace. intros E. apply andb_prop in E.
  rewrite Ascii.eqb_sym. now apply negb_true_iff.
Qed.

Lemma all_chars_impl (p q : ascii -> bool) s :
  (forall c, p c = true -> q c = true) ->
  all_chars p s = true -> all_chars q s = true.
Proof.
  intros I. induction s as [|c s IH]; simpl; [reflexivity|].
  intros E. apply andb_prop in E. destruct E as [Pc Ps].
  now rewrite (I c Pc), (IH Ps).
Qed.

Lemma id_spaceless s : all_chars is_id_char s = true -> spaceless s.
Proof.
  apply all_chars_impl. intros c E. unfold not_space.
  now rewrite (id_char_not_space c E).
Qed.

Lemma platform_spaceless s : all_chars is_platform_char s = true -> spaceless s.
Proof.
  apply all_chars_impl. intros c E. unfold not_space.
  now rewrite (platform_char_not_space c E).
Qed.

Lemma alias_spaceless s : all_chars is_alias_char s = true -> spaceless s.
Proof.
  apply all_chars_impl. intros c E. unfold not_space.
  now rewrite (alias_char_not_space c E).
Qed.

Lemma id_without_brace s :
  all_chars is_id_char s = true -> has_char "{" s = false.
Proof.
  induction s as [|c s IH]; simpl; [reflexivity|].
  intros E. apply andb_prop in E. destruct E as [Pc Ps].
  now rewrite (id_char_not_brace c Pc), (IH Ps).
Qed.


Lemma starts_without_app p q s b :
  (forall c, p c = true -> q c = false) ->
  Py.nonempty s = true -> all_chars p s = true ->
  not_starting q (s ++ b) = true.
Proof.
  intros I N A. destruct s as [|c s]; [discriminate N|]. simpl in *.
  apply andb_prop in A. destruct A as [Pc _]. now rewrite (I c Pc).
Qed.

(** ** Steps of a match *)

Section MatchSteps.
Context {A : Type}.
Implicit Type k : @Re.cont A.

Lemma m_seq_ok r1 r2 k pos s g x :
  Re.m r1 (Re.m r2 k) pos s g = Some x ->
  Re.m (Re.Seq r1 r2) k pos s g = Some x.
Proof. exact (fun E => E). Qed.

Lemma m_group_ok i r k pos s g x :
  Re.m r (fun pos' s' g' =>
            k pos' s' ((i, String.substring 0 (pos' - pos) s) :: g'))
       pos s g = Some x ->
  Re.m (Re.Group i r) k pos s g = Some x.
Proof. exact (fun E => E). Qed.


Lemma m_chr_ok p k pos c s g x :
  p c = true -> k (S pos) s g = Some x ->
  Re.m (Re.Chr p) k pos (String c s) g = Some x.
Proof. intros P K. cbn [Re.m]. now rewrite P. Qed.

Lemma m_star_skip_ok (greedy : bool) p k pos s g x :
  not_starting p s = true -> k pos s g = Some x ->
  Re.m (Re.Star greedy p) k pos s g = Some x.
Proof. intros N K. simpl. now rewrite star_not_starting. Qed.

Lemma star_greedy_max p k a :
  forall pos b g x,
    all_chars p a = true -> not_starting p b = true ->
    k (pos + String.length a) b g = Some x ->
    Re.star true p k pos (a ++ b) g = Some x.
Proof.
  induction a as [|c a IH]; intros pos b g x Pa Nb K; simpl in *.
  - rewrite Nat.add_0_r in K. now rewrite star_not_starting.
  - apply andb_prop in Pa. destruct Pa as [Pc Pa]. rewrite Pc.
    rewrite (IH (S pos) b g x Pa Nb); [reflexivity|].
    now replace (S pos + String.length a)
      with (pos + S (String.length a)) by lia.
Qed.

Lemma m_plus_max_ok p k a pos b g x :
  Py.nonempty a = true -> all_chars p a = true -> not_starting p b = true ->
  k (pos + String.length a) b g = Some x ->
  Re.m (Re.Plus true p) k pos (a ++ b) g = Some x.
Proof.
  intros N Pa Nb K. destruct a as [|c a]; [discriminate N|].
  simpl in Pa. apply andb_prop in Pa. destruct Pa as [Pc Pa].
  unfold Re.Plus. simpl. rewrite Pc.
  apply star_greedy_max; try assumption.
  now replace (S pos + String.length a)
    with (pos + String.length (String c a)) by (simpl; lia).
Qed.

(** A lazy repetition goes on for as long as what follows it fails. *)
Lemma star_lazy_through p q k a :
  forall pos b g x,
    all_chars p a = true -> all_chars q a = true ->
    (forall pos' c s', q c = true -> k pos' (String c s') g = None) ->
    k (pos + String.length a) b g = Some x ->
    Re.star false p k pos (a ++ b) g = Some x.
Proof.
  induction a as [|c a IH]; intros pos b g x Pa Qa F K; simpl in *.
  - rewrite Nat.add_0_r in K. destruct b as [|c b]; simpl; [exact K|].
    destruct (p c); [now rewrite K | exact K].
  - apply andb_prop in Pa. destruct Pa as [Pc Pa].
    apply andb_prop in Qa. destruct Qa as [Qc Qa].
    rewrite Pc, (F pos c (a ++ b) Qc).
    apply IH; try assumption.
    now replace (S pos + String.length a)
      with (pos + S (String.length a)) by lia.
Qed.

Lemma m_plus_lazy_ok p q k a pos b g x :
  Py.nonempty a = true -> all_chars p a = true -> all_chars q a = true ->
  (forall pos' c s', q c = true -> k pos' (String c s') g = None) ->
  k (pos + String.length a) b g = Some x ->
  Re.m (Re.Plus false p) k pos (a ++ b) g = Some x.
Proof.
  intros N Pa Qa F K. destruct a as [|c a]; [discriminate N|].
  simpl in Pa, Qa. apply andb_prop in Pa. destruct Pa as [Pc Pa].
  apply andb_prop in Qa. destruct Qa as [Qc Qa].
  unfold Re.Plus. simpl. rewrite Pc.
  apply (star_lazy_through p q); try assumption.
  now replace (S pos + String.length a)
    with (pos + String.length (String c a)) by (simpl; lia).
Qed.

End MatchSteps.

Lemma star_greedy_total p (F : nat -> string -> Re.caps -> Re.found) s :
  forall pos g,
    Re.star true p (fun pos' s' g' => Some (F pos' s' g')) pos s g
    = Some (F (pos + String.length (take_while p s)) (drop_while p s) g).
Proof.
  induction s as [|c s IH]; intros pos g; simpl.
  - now rewrite Nat.add_0_r.
  - destruct (p c); simpl.
    + rewrite IH. do 2 f_equal. lia.
    + now rewrite Nat.add_0_r.
Qed.

Lemma substring_prefix a b :
  String.substring 0 (String.length a) (a ++ b) = a.
Proof. induction a as [|c a IH]; simpl; [now destruct b | now rewrite IH]. Qed.

(** ** The dependency id *)

(** The id pattern matches the longest run of id characters at the
    start, when there is one. *)
Lemma match_dep_id s :
  Re.match_ re_dep_id s
  = if Py.nonempty (take_while is_id_char s)
    then Some (Re.Found (String.length (take_while is_id_char s))
                 (drop_while is_id_char s)
                 [(1, take_while is_id_char s)])
    else None.
Proof.
  unfold Re.match_, re_dep_id, Re.Plus. destruct s as [|c s]; [reflexivity|].
  cbn [Re.m Nat.eqb]. cbn [take_while drop_while].
  destruct (is_id_char c); [|reflexivity].
  unfold Re.accept.
  rewrite (star_greedy_total is_id_char
             (fun pos' s' g' =>
                Re.Found pos' s'
                  ((1, String.substring 0 (pos' - 0) (String c s)) :: g'))).
  cbn [Py.nonempty String.length]. do 3 f_equal.
  rewrite Nat.sub_0_r. cbn [Nat.add String.substring].
  now rewrite substring_take_while.
Qed.

Lemma parse_mc_publish_unfold `{Runtime} value :
  parse_mc_publish_dependency_string value
  = if Py.nonempty (take_while is_id_char (Py.strip value))
    then Ok (take_while is_id_char (Py.strip value),
             fold_left
               (fun acc pa =>
                  assoc_set acc (Py.lower (Py.strip (fst pa)))
                    (Py.strip (snd pa)))
               (Re.findall2 re_alias value) [])
    else Raise (Exn ValueError
                  ("Invalid mc-publish dependency string: "
                   ++ py_repr (JStr value))).
Proof.
  unfold parse_mc_publish_dependency_string. rewrite match_dep_id.
  destruct (Py.nonempty (take_while is_id_char (Py.strip value)));
    reflexivity.
Qed.

(** X17.  The id of an mc-publish dependency string is the longest run
    of letters, digits, [_], [-] and [.] at the start of the stripped
    string; the string is refused with a [ValueError] exactly when that
    run is empty. *)
Theorem mc_publish_dependency_id `{Runtime} (value : string) :
  let id := take_while is_id_char (Py.strip value) in
  (Py.nonempty id = false ->
   parse_mc_publish_dependency_string value
   = Raise (Exn ValueError
              ("Invalid mc-publish dependency string: "
               ++ py_repr (JStr value))))
  /\ (Py.nonempty id = true ->
      exists aliases,
        parse_mc_publish_dependency_string value = Ok (id, aliases)).
Proof.
  intros id. subst id. rewrite parse_mc_publish_unfold. split; intros ->.
  - reflexivity.
  - eexists. reflexivity.
Qed.

Lemma mc_publish_dependency_id_witness :
  exists aliases,
    @parse_mc_publish_dependency_string sample_runtime
      "  sodium@0.5.x(required){modrinth:AANobbMI}  "
    = Ok ("sodium", aliases).
Proof.
  apply (proj2 (@mc_publish_dependency_id sample_runtime
                  "  sodium@0.5.x(required){modrinth:AANobbMI}  ")).
  reflexivity.
Defined.

(** ** The alias annotations *)

Lemma note_app p a rest :
  note (p, a) ++ rest = String "{" (p ++ String ":" (a ++ String "}" rest)).
Proof.
  unfold note. simpl. f_equal. rewrite append_assoc. f_equal. simpl. f_equal.
  now rewrite append_assoc.
Qed.

Lemma length_note p a :
  String.length (note (p, a)) = String.length p + String.length a + 3.
Proof.
  unfold note. simpl. rewrite length_append. simpl. rewrite length_append.
  simpl. lia.
Qed.

Lemma close_fails pos0 s0 pos' c s' g :
  is_alias_char c = true ->
  (fun pos1 s1 g1 =>
     Re.m (Re.Seq (Re.Star true Py.is_space) (Re.Chr (Ascii.eqb "}")))
       Re.accept pos1 s1
       ((2, String.substring 0 (pos1 - pos0) s0) :: g1))
    pos' (String c s') g = None.
Proof.
  intros E. cbv beta. cbn [Re.m Re.star].
  rewrite (alias_char_not_space c E). cbn [Re.m].
  now rewrite (alias_char_not_close c E).
Qed.

(** The alias pattern matches an annotation whole and captures its
    platform and its alias. *)
Lemma match_note pos p a rest :
  well_formed_note (p, a) ->
  Re.m re_alias Re.accept pos
    (String "{" (p ++ String ":" (a ++ String "}" rest))) []
  = Some (Re.Found (pos + (String.length p + String.length a + 3)) rest
            [(2, a); (1, p)]).
Proof.
  intros [Np [Pp [Na Pa]]]. simpl in Np, Pp, Na, Pa. unfold re_alias.
  apply m_seq_ok, m_chr_ok; [reflexivity|].
  apply m_seq_ok, m_star_skip_ok;
    [exact (starts_without_app _ _ _ _ platform_char_not_space Np Pp)|].
  apply m_seq_ok, m_group_ok, m_plus_max_ok;
    [exact Np | exact Pp | reflexivity |]. cbv beta.
  apply m_seq_ok, m_star_skip_ok; [reflexivity|].
  apply m_seq_ok, m_chr_ok; [reflexivity|].
  apply m_seq_ok, m_star_skip_ok;
    [exact (starts_without_app _ _ _ _ alias_char_not_space Na Pa)|].
  apply m_seq_ok, m_group_ok.
  apply (m_plus_lazy_ok not_close_brace is_alias_char);
    [exact Na | | exact Pa | intros; now apply close_fails |].
  { revert Pa. apply all_chars_impl. unfold is_alias_char. intros c E.
    apply andb_prop in E. apply E. }
  cbv beta.
  apply m_seq_ok, m_star_skip_ok; [reflexivity|].
  apply m_chr_ok; [reflexivity|].
  unfold Re.accept. f_equal.
  repeat match goal with
         | |- context [String.substring 0 (?u + ?n - ?u) _] =>
             replace (u + n - u) with n by lia
         end.
  rewrite !substring_prefix. f_equal. lia.
Qed.

Lemma alias_needs_brace pos c s :
  Ascii.eqb c "{" = false -> Re.m re_alias Re.accept pos (String c s) [] = None.
Proof.
  intros N. rewrite Ascii.eqb_sym in N. unfold re_alias. cbn [Re.m].
  now rewrite N.
Qed.

Lemma search_from_cons r pos c s :
  Re.search_from r pos (String c s)
  = match Re.m r Re.accept pos (String c s) [] with
    | Some f =>
        Some ("", String.substring 0 (Re.f_end f - pos) (String c s), f)
    | None =>
        match Re.search_from r (S pos) s with
        | Some (skipped, matched, f) => Some (String c skipped, matched, f)
        | None => None
        end
    end.
Proof. reflexivity. Qed.

(** The search for an annotation passes over a text without [{]. *)
Lemma search_alias_skip a :
  forall pos b,
    has_char "{" a = false ->
    Re.search_from re_alias pos (a ++ b)
    = match Re.search_from re_alias (pos + String.length a) b with
      | Some (skipped, matched, f) => Some (a ++ skipped, matched, f)
      | None => None
      end.
Proof.
  induction a as [|c a IH]; intros pos b N.
  - simpl. rewrite Nat.add_0_r.
    destruct (Re.search_from re_alias pos b) as [[[sk mt] f]|]; reflexivity.
  - simpl in N. apply orb_false_elim in N. destruct N as [Nc Na].
    change (String c a ++ b) with (String c (a ++ b)).
    rewrite search_from_cons, (alias_needs_brace _ _ _ Nc), (IH (S pos) b Na).
    replace (S pos + String.length a)
      with (pos + String.length (String c a)) by (simpl; lia).
    destruct (Re.search_from re_alias _ b) as [[[sk mt] f]|]; reflexivity.
Qed.

Lemma search_alias_none tail pos :
  has_char "{" tail = false -> Re.search_from re_alias pos tail = None.
Proof.
  intros N. pose proof (search_alias_skip tail pos "" N) as E.
  rewrite append_empty_r in E. rewrite E. reflexivity.
Qed.

Lemma search_alias_note pos p a rest :
  well_formed_note (p, a) ->
  Re.search_from re_alias pos (note (p, a) ++ rest)
  = Some ("", note (p, a),
          Re.Found (pos + String.length (note (p, a))) rest [(2, a); (1, p)]).
Proof.
  intros W. rewrite length_note.
  pose proof (match_note pos p a rest W) as M.
  rewrite note_app, search_from_cons, M. cbn [Re.f_end].
  rewrite <- note_app.
  replace (pos + (String.length p + String.length a + 3) - pos)
    with (String.length (note (p, a))) by (rewrite length_note; lia).
  now rewrite substring_prefix.
Qed.

Lemma scan_alias_skip fuel pos a b :
  has_char "{" a = false ->
  map alias_groups (fst (Re.scan fuel re_alias pos (a ++ b)))
  = map alias_groups
      (fst (Re.scan fuel re_alias (pos + String.length a) b)).
Proof.
  intros N. destruct fuel as [|fuel]; [reflexivity|].
  cbn [Re.scan]. rewrite (search_alias_skip a pos b N).
  destruct (Re.search_from re_alias _ b) as [[[sk mt] f]|]; [|reflexivity].
  destruct (Re.scan fuel re_alias (Re.f_end f) (Re.f_rest f)). reflexivity.
Qed.

Lemma scan_alias_notes tail entries :
  has_char "{" tail = false ->
  Forall well_formed_note entries ->
  forall fuel pos,
    List.length entries < fuel ->
    map alias_groups
      (fst (Re.scan fuel re_alias pos (notes entries ++ tail)))
    = entries.
Proof.
  intros Nt. induction 1 as [|[p a] entries W _ IH]; intros fuel pos L;
    (destruct fuel as [|fuel]; [inversion L|]); cbn [Re.scan notes].
  - simpl. now rewrite (search_alias_none tail pos Nt).
  - rewrite append_assoc, (search_alias_note pos p a _ W).
    cbn [Re.f_end Re.f_rest].
    specialize (IH fuel (pos + String.length (note (p, a)))
                  ltac:(simpl in L; lia)).
    destruct (Re.scan fuel re_alias _ (notes entries ++ tail)) as [ms last].
    simpl in IH. simpl. now rewrite IH.
Qed.

Lemma length_notes entries :
  List.length entries <= String.length (notes entries).
Proof.
  induction entries as [|[p a] entries IH]; simpl; [lia|].
  rewrite length_append. simpl in IH. lia.
Qed.

(** [re.findall] gives back the annotations of a dependency string, in
    order. *)
Lemma findall_notes before entries tail :
  has_char "{" before = false -> has_char "{" tail = false ->
  Forall well_formed_note entries ->
  Re.findall2 re_alias (before ++ notes entries ++ tail) = entries.
Proof.
  intros Nb Nt W. unfold Re.findall2, Re.matches.
  change (map (fun x => (Re.group_or_empty (snd x) 1,
                         Re.group_or_empty (snd x) 2)))
    with (map alias_groups).
  rewrite (scan_alias_skip _ 0 before _ Nb).
  apply scan_alias_notes; try assumption.
  pose proof (length_notes entries).
  rewrite !length_append. lia.
Qed.

(** ** Stripping a dependency string *)

Lemma rstrip_after_spaceless a b :
  spaceless a -> Py.rstrip (a ++ b) = a ++ Py.rstrip b.
Proof.
  induction a as [|c a IH]; intros Sa; [reflexivity|].
  change (String c a ++ b) with (String c (a ++ b)).
  cbn [Py.rstrip]. rewrite (IH (spaceless_tail _ _ Sa)).
  pose proof (spaceless_head _ _ Sa) as Hc.
  destruct a as [|c' a]; simpl.
  - destruct (Py.rstrip b); [now rewrite Hc | reflexivity].
  - reflexivity.
Qed.

Lemma rstrip_not_starting p b :
  not_starting p b = true -> not_starting p (Py.rstrip b) = true.
Proof.
  destruct b as [|c b]; simpl; [reflexivity|]. intros N.
  destruct (Py.rstrip b); simpl; [|exact N].
  destruct (Py.is_space c); simpl; [reflexivity | exact N].
Qed.


Lemma not_starting_notes entries tail :
  not_starting is_id_char tail = true ->
  not_starting is_id_char (notes entries ++ tail) = true.
Proof. destruct entries as [|[p a] entries]; simpl; auto. Qed.

Lemma id_of_dependency_string id rest :
  Py.nonempty id = true -> all_chars is_id_char id = true ->
  not_starting is_id_char rest = true ->
  take_while is_id_char (Py.strip (id ++ rest)) = id.
Proof.
  intros N Pi Nr. unfold Py.strip.
  rewrite lstrip_not_starting.
  - rewrite (rstrip_after_spaceless _ _ (id_spaceless _ Pi)).
    apply take_while_app; [exact Pi | now apply rstrip_not_starting].
  - exact (starts_without_app _ _ _ _ id_char_not_space N Pi).
Qed.

(** ** The alias table *)

Lemma alias_fold_plain entries :
  Forall well_formed_note entries ->
  forall acc,
    fold_left
      (fun acc pa =>
         assoc_set acc (Py.lower (Py.strip (fst pa))) (Py.strip (snd pa)))
      entries acc
    = fold_left (fun acc pa => assoc_set acc (Py.lower (fst pa)) (snd pa))
        entries acc.
Proof.
  induction 1 as [|[p a] entries [_ [Pp [_ Pa]]] _ IH]; intros acc;
    [reflexivity|].
  simpl in *.
  rewrite (strip_spaceless p (platform_spaceless p Pp)),
          (strip_spaceless a (alias_spaceless a Pa)).
  apply IH.
Qed.

Lemma alias_table_lookup entries platform :
  assoc_get (alias_table_of entries) platform = last_alias entries platform.
Proof.
  unfold alias_table_of, last_alias.
  induction entries as [|[p a] entries IH] using rev_ind; [reflexivity|].
  rewrite fold_left_app, rev_app_distr. simpl.
  rewrite assoc_get_set.
  destruct (String.eqb (Py.lower p) platform); [reflexivity | exact IH].
Qed.

(* ================================================================== *)
(** * The alias map of a manifest *)

Section AliasLoop.
Context `{Runtime}.

Lemma collect_aliases_str value rest mapping :
  collect_aliases (JStr value :: rest) mapping
  = ('(dep_id, aliases) <- parse_mc_publish_dependency_string value ;;
     match aliases with
     | [] => collect_aliases rest mapping
     | _ :: _ =>
         collect_aliases rest
           (assoc_set mapping dep_id
              (assoc_update (aliases_of mapping dep_id) aliases))
     end).
Proof. reflexivity. Qed.

Lemma collect_aliases_accepts items :
  Forall accepted_item items ->
  forall mapping, exists m, collect_aliases items mapping = Ok m.
Proof.
  induction 1 as [|item items Ai _ IH]; intros mapping; [now exists mapping|].
  destruct item as [| | | |value| |]; try apply IH.
  rewrite collect_aliases_str, parse_mc_publish_unfold.
  simpl in Ai. unfold has_id in Ai. rewrite Ai. cbn [bind].
  match goal with
  | |- context [match ?t with [] => _ | _ :: _ => _ end] => destruct t
  end; apply IH.
Qed.

Lemma collect_aliases_refuses before value after :
  Forall accepted_item before -> has_id value = false ->
  forall mapping,
    collect_aliases (before ++ JStr value :: after) mapping
    = Raise (invalid_dependency_string value).
Proof.
  intros Ab Bad. induction Ab as [|item before Ai _ IH]; intros mapping.
  - simpl app. rewrite collect_aliases_str, parse_mc_publish_unfold.
    unfold has_id in Bad. rewrite Bad. reflexivity.
  - destruct item as [| | | |v| |]; try apply IH.
    change ((JStr v :: before) ++ JStr value :: after)%list
      with (JStr v :: (before ++ JStr value :: after))%list.
    rewrite collect_aliases_str, parse_mc_publish_unfold.
    simpl in Ai. unfold has_id in Ai. rewrite Ai. cbn [bind].
    match goal with
    | |- context [match ?t with [] => _ | _ :: _ => _ end] => destruct t
    end; apply IH.
Qed.

(** X18.  One annotation without id makes the extraction fail: the
    Fabric and the Quilt extractor raise the [ValueError] of the first
    string of the annotation list that does not begin with an id,
    whatever the manifest declares besides. *)
Theorem malformed_annotation_aborts_extraction
        data mcp before value after :
  dict_get mcp "dependencies" = JList (before ++ JStr value :: after) ->
  Forall accepted_item before -> has_id value = false ->
  (forall custom,
      dict_get data "custom" = JDict custom ->
      dict_get custom "mc-publish" = JDict mcp ->
      read_fabric_dependencies (Some (JDict data))
      = Raise (invalid_dependency_string value))
  /\ (dict_get data "mc-publish" = JDict mcp ->
      read_quilt_dependencies (Some (JDict data))
      = Raise (invalid_dependency_string value)).
Proof.
  intros D Ab Bad. split.
  - intros custom C M. unfold read_fabric_dependencies.
    rewrite C. unfold extract_alias_map_from_fabric_custom.
    rewrite M, D, (collect_aliases_refuses _ _ _ Ab Bad). reflexivity.
  - intros M. unfold read_quilt_dependencies.
    rewrite M, D, (collect_aliases_refuses _ _ _ Ab Bad). reflexivity.
Qed.

End AliasLoop.

Lemma malformed_annotation_aborts_extraction_witness :
  @read_fabric_dependencies sample_runtime
    (Some fabric_manifest_bad_annotation)
  = Raise (@invalid_dependency_string sample_runtime "{modrinth:P7dR8mSH}").
Proof.
  unfold fabric_manifest_bad_annotation.
  eapply (proj1 (@malformed_annotation_aborts_extraction sample_runtime
                   _ _ [JStr "sodium{modrinth:AANobbMI}"]
                   "{modrinth:P7dR8mSH}" [] _ _ _)).
  - reflexivity.
  - reflexivity.
  Unshelve.
  + reflexivity.
  + repeat constructor.
  + reflexivity.
Defined.

(** ** The map the annotations fill *)

Lemma find_app {A} (f : A -> bool) l1 l2 :
  find f (l1 ++ l2)%list
  = match find f l1 with
    | Some x => Some x
    | None => find f l2
    end.
Proof.
  induction l1 as [|x l1 IH]; simpl; [reflexivity|].
  destruct (f x); [reflexivity | exact IH].
Qed.

Lemma last_alias_app a b platform :
  last_alias (a ++ b)%list platform
  = match last_alias b platform with
    | Some v => Some v
    | None => last_alias a platform
    end.
Proof.
  unfold last_alias. rewrite rev_app_distr, find_app.
  destruct (find _ (rev b)); reflexivity.
Qed.

Lemma assoc_get_absent {V} (l : list (string * V)) k :
  ~ In k (map fst l) -> assoc_get l k = None.
Proof.
  induction l as [|[a b] l IH]; simpl; [reflexivity|].
  intros N. destruct (String.eqb_spec a k) as [-> | Nak]; [tauto|].
  apply IH. tauto.
Qed.

Lemma assoc_update_lookup {V} (new : list (string * V)) :
  NoDup (map fst new) ->
  forall old k,
    assoc_get (assoc_update old new) k
    = match assoc_get new k with
      | Some v => Some v
      | None => assoc_get old k
      end.
Proof.
  unfold assoc_update.
  induction new as [|[a v] new IH]; intros N old k; [reflexivity|].
  inversion N as [|? ? Na Nn]; subst. simpl.
  rewrite (IH Nn), assoc_get_set.
  destruct (String.eqb_spec a k) as [-> | Nak]; [|reflexivity].
  now rewrite (assoc_get_absent _ _ Na).
Qed.

Lemma alias_fold_nodup entries :
  forall acc : alias_table,
    NoDup (map fst acc) ->
    NoDup (map fst
             (fold_left
                (fun acc pa => assoc_set acc (Py.lower (fst pa)) (snd pa))
                entries acc)).
Proof.
  induction entries as [|pa entries IH]; intros acc N; [exact N|].
  simpl. apply IH. now apply assoc_set_nodup.
Qed.

Lemma assoc_set_nonempty {V} (l : list (string * V)) k v : assoc_set l k v <> [].
Proof.
  destruct l as [|[a b] l]; simpl; [discriminate|].
  destruct (String.eqb a k); discriminate.
Qed.

Lemma alias_fold_nonempty entries :
  forall acc : alias_table,
    acc <> [] ->
    fold_left (fun acc pa => assoc_set acc (Py.lower (fst pa)) (snd pa))
              entries acc <> [].
Proof.
  induction entries as [|pa entries IH]; intros acc N; [exact N|].
  simpl. apply IH, assoc_set_nonempty.
Qed.

Lemma alias_table_empty entries : alias_table_of entries = [] -> entries = [].
Proof.
  destruct entries as [|pa entries]; [reflexivity|].
  unfold alias_table_of. simpl. intros E.
  assert (N : [(Py.lower (fst pa), snd pa)] <> []) by discriminate.
  now destruct (alias_fold_nonempty entries _ N).
Qed.

Lemma annotations_of_snoc specs spec id :
  annotations_of (specs ++ [spec]) id
  = (annotations_of specs id
     ++ (if String.eqb (fst spec) id then snd spec else []))%list.
Proof.
  unfold annotations_of. rewrite flat_map_app. simpl.
  now rewrite app_nil_r.
Qed.

Section AliasMap.
Context `{Runtime}.

(** A dependency string made of an id and its annotations parses to the
    id and to the table of the annotations. *)
Lemma parse_annotated id mid entries tail :
  Py.nonempty id = true -> all_chars is_id_char id = true ->
  not_starting is_id_char mid = true -> has_char "{" mid = false ->
  Forall well_formed_note entries ->
  not_starting is_id_char tail = true -> has_char "{" tail = false ->
  parse_mc_publish_dependency_string (id ++ mid ++ notes entries ++ tail)
  = Ok (id, alias_table_of entries).
Proof.
  intros N Pi Nm Bm W Nt Bt.
  rewrite parse_mc_publish_unfold.
  assert (Nr : not_starting is_id_char (mid ++ notes entries ++ tail) = true).
  { destruct mid as [|c mid]; [|exact Nm].
    now apply not_starting_notes. }
  rewrite (id_of_dependency_string id _ N Pi Nr), N.
  rewrite <- (append_assoc id mid).
  rewrite findall_notes; try assumption.
  - now rewrite alias_fold_plain.
  - rewrite has_char_app, (id_without_brace id Pi), Bm. reflexivity.
Qed.

Lemma collect_aliases_step spec rest mapping :
  well_formed_spec spec ->
  collect_aliases (annotated spec :: rest) mapping
  = collect_aliases rest
      match snd spec with
      | [] => mapping
      | _ :: _ =>
          assoc_set mapping (fst spec)
            (assoc_update (aliases_of mapping (fst spec))
               (alias_table_of (snd spec)))
      end.
Proof.
  destruct spec as [id entries]. intros [N [Pi W]]. simpl in N, Pi, W.
  unfold annotated. rewrite collect_aliases_str. cbn [fst snd].
  pose proof (parse_annotated id "" entries "" N Pi eq_refl eq_refl W
                eq_refl eq_refl) as P.
  simpl in P. rewrite append_empty_r in P. rewrite P. cbn [bind].
  destruct (alias_table_of entries) as [|kv t] eqn:T.
  - now rewrite (alias_table_empty _ T).
  - destruct entries as [|pa entries]; [discriminate T | reflexivity].
Qed.

Lemma alias_map_step seen spec mapping :
  well_formed_spec spec ->
  alias_map_of seen mapping ->
  alias_map_of (seen ++ [spec])
    match snd spec with
    | [] => mapping
    | _ :: _ =>
        assoc_set mapping (fst spec)
          (assoc_update (aliases_of mapping (fst spec))
             (alias_table_of (snd spec)))
    end.
Proof.
  destruct spec as [id entries]. intros _ Inv i platform. cbn [fst snd].
  rewrite annotations_of_snoc. cbn [fst snd].
  destruct entries as [|pa entries].
  - rewrite Inv. destruct (String.eqb id i); now rewrite app_nil_r.
  - unfold aliases_of at 1. rewrite assoc_get_set.
    destruct (String.eqb_spec id i) as [<- | Ni].
    + rewrite assoc_update_lookup
        by (apply alias_fold_nodup; constructor).
      now rewrite alias_table_lookup, last_alias_app, Inv.
    + rewrite app_nil_r. apply Inv.
Qed.

Lemma collect_aliases_map specs :
  Forall well_formed_spec specs ->
  forall seen mapping,
    alias_map_of seen mapping ->
    exists m,
      collect_aliases (map annotated specs) mapping = Ok m
      /\ alias_map_of (seen ++ specs) m.
Proof.
  induction 1 as [|spec specs W _ IH]; intros seen mapping Inv.
  - exists mapping. now rewrite app_nil_r.
  - cbn [map]. rewrite (collect_aliases_step _ _ _ W).
    destruct (IH _ _ (alias_map_step seen spec mapping W Inv)) as [m [E Im]].
    exists m. split; [exact E|].
    now rewrite <- app_assoc in Im.
Qed.

(** X19.  The alias map of a Fabric manifest whose annotation list is
    made of dependency strings [id{platform:alias}...]: the aliases of
    an id are those of all the strings for this id together, and for
    each platform the last annotation decides. *)
Theorem alias_map_merges_annotations custom mcp specs :
  dict_get custom "mc-publish" = JDict mcp ->
  dict_get mcp "dependencies" = JList (map annotated specs) ->
  Forall well_formed_spec specs ->
  exists m,
    extract_alias_map_from_fabric_custom (JDict custom) = Ok m
    /\ forall id platform,
         assoc_get (aliases_of m id) platform
         = last_alias (annotations_of specs id) platform.
Proof.
  intros M D W. unfold extract_alias_map_from_fabric_custom. rewrite M, D.
  destruct (collect_aliases_map specs W [] []) as [m [E Im]];
    [intros id platform; reflexivity|].
  exists m. split; [exact E | exact Im].
Qed.

End AliasMap.

Lemma alias_map_merges_annotations_witness :
  exists m,
    @extract_alias_map_from_fabric_custom sample_runtime
      (JDict [("mc-publish",
               JDict [("dependencies",
                       JList (map annotated
                                [("sodium", [("modrinth", "AANobbMI")]);
                                 ("lithium", [("modrinth", "gvQqBUqZ")]);
                                 ("sodium", [("curseforge", "394468")])]))])])
    = Ok m
    /\ forall id platform,
         assoc_get (aliases_of m id) platform
         = last_alias
             (annotations_of
                [("sodium", [("modrinth", "AANobbMI")]);
                 ("lithium", [("modrinth", "gvQqBUqZ")]);
                 ("sodium", [("curseforge", "394468")])] id) platform.
Proof.
  apply (@alias_map_merges_annotations sample_runtime _
           [("dependencies",
             JList (map annotated
                      [("sodium", [("modrinth", "AANobbMI")]);
                       ("lithium", [("modrinth", "gvQqBUqZ")]);
                       ("sodium", [("curseforge", "394468")])]))]);
    try reflexivity.
  repeat constructor.
Defined.

Section AnnotationFacts.
Context `{Runtime}.

(** X20.  A dependency string made of an id, a text without [{] that
    does not go on with an id character, the annotations
    [{platform:alias}] and a text without [{] parses to the id and to
    the alias table of the annotations: each platform name lower-cased,
    with the alias of the last annotation for it. *)
Theorem mc_publish_annotations id mid entries tail :
  Py.nonempty id = true -> all_chars is_id_char id = true ->
  not_starting is_id_char mid = true -> has_char "{" mid = false ->
  Forall well_formed_note entries ->
  not_starting is_id_char tail = true -> has_char "{" tail = false ->
  exists aliases,
    parse_mc_publish_dependency_string (id ++ mid ++ notes entries ++ tail)
    = Ok (id, aliases)
    /\ forall platform,
         assoc_get aliases platform = last_alias entries platform.
Proof.
  intros N Pi Nm Bm W Nt Bt.
  exists (alias_table_of entries). split; [|apply alias_table_lookup].
  now apply parse_annotated.
Qed.

End AnnotationFacts.

Lemma mc_publish_annotations_witness :
  exists aliases,
    @parse_mc_publish_dependency_string sample_runtime
      ("sodium" ++ "@0.5.x(required)"
       ++ notes [("Modrinth", "old"); ("curseforge", "394468");
                 ("modrinth", "AANobbMI")]
       ++ "#(ignore:github)")
    = Ok ("sodium", aliases)
    /\ forall platform,
         assoc_get aliases platform
         = last_alias [("Modrinth", "old"); ("curseforge", "394468");
                       ("modrinth", "AANobbMI")] platform.
Proof.
  apply (@mc_publish_annotations sample_runtime "sodium" "@0.5.x(required)"
           [("Modrinth", "old"); ("curseforge", "394468");
            ("modrinth", "AANobbMI")]
           "#(ignore:github)");
    try reflexivity.
  repeat constructor.
Defined.

(* ================================================================== *)
(** * Text around the digits of a version *)

Lemma digit_pieces_blank s :
  all_chars not_digit s = true ->
  exists blanks,
    digit_pieces s = "" :: blanks /\ filter Py.nonempty blanks = [].
Proof.
  induction s as [|c s IH]; simpl; intros A.
  - now exists [].
  - apply andb_prop in A. destruct A as [C A]. unfold not_digit in C.
    apply negb_true_iff in C. rewrite C.
    destruct (IH A) as [blanks [-> F]]. exists ("" :: blanks).
    split; [reflexivity | exact F].
Qed.

Lemma digit_pieces_nonempty s : digit_pieces s <> [].
Proof.
  destruct s as [|c s]; simpl; [discriminate|].
  destruct (Py.is_digit c); [|discriminate].
  destruct (digit_pieces s); discriminate.
Qed.

Lemma digit_pieces_suffix a b :
  all_chars not_digit b = true ->
  exists blanks,
    digit_pieces (a ++ b) = (digit_pieces a ++ blanks)%list
    /\ filter Py.nonempty blanks = [].
Proof.
  intros B. induction a as [|c a [blanks [E F]]].
  - destruct (digit_pieces_blank b B) as [blanks [E F]].
    exists blanks. simpl. rewrite E. split; [reflexivity | exact F].
  - exists blanks. split; [|exact F].
    change (String c a ++ b) with (String c (a ++ b)).
    cbn [digit_pieces]. rewrite E.
    destruct (Py.is_digit c); [|reflexivity].
    pose proof (digit_pieces_nonempty a) as N.
    destruct (digit_pieces a); [now destruct N | reflexivity].
Qed.

Lemma digit_runs_suffix a b :
  all_chars not_digit b = true -> digit_runs (a ++ b) = digit_runs a.
Proof.
  intros B. unfold digit_runs.
  destruct (digit_pieces_suffix a b B) as [blanks [-> F]].
  now rewrite filter_app, F, app_nil_r.
Qed.

Lemma digit_runs_prefix a b :
  all_chars not_digit a = true -> digit_runs (a ++ b) = digit_runs b.
Proof.
  induction a as [|c a IH]; simpl; intros A; [reflexivity|].
  apply andb_prop in A. destruct A as [C A]. unfold not_digit in C.
  apply negb_true_iff in C. now rewrite (digit_runs_skip _ _ C), IH.
Qed.

Lemma satisfies_by_key a b cs :
  parse_version_key a = parse_version_key b ->
  satisfies_constraints a cs = satisfies_constraints b cs.
Proof.
  intros K. induction cs as [|c cs IH]; [reflexivity|].
  cbn [satisfies_constraints]. unfold compare_versions.
  now rewrite K, IH.
Qed.

(** X21.  What a version string holds outside its digits does not count:
    a text without digits before or after a version changes neither its
    key nor the constraints it satisfies, so a prefix such as [v] and a
    qualifier such as [-SNAPSHOT] are ignored. *)
Theorem text_without_digits_is_ignored
        (before v after : string) (cs : list Constraint) :
  all_chars not_digit before = true -> all_chars not_digit after = true ->
  parse_version_key (before ++ v ++ after) = parse_version_key v
  /\ compare_versions (before ++ v ++ after) v = 0%Z
  /\ satisfies_constraints (before ++ v ++ after) cs
     = satisfies_constraints v cs.
Proof.
  intros B A.
  assert (K : parse_version_key (before ++ v ++ after) = parse_version_key v).
  { rewrite !parse_version_key_spec. unfold version_key_spec.
    now rewrite (digit_runs_prefix _ _ B), (digit_runs_suffix _ _ A). }
  split; [exact K|]. split; [|now apply satisfies_by_key].
  rewrite compare_versions_keys, K, lex_compare_refl. reflexivity.
Qed.

Lemma text_without_digits_is_ignored_witness :
  parse_version_key ("v" ++ "1.20.1" ++ "-SNAPSHOT") = parse_version_key "1.20.1"
  /\ compare_versions ("v" ++ "1.20.1" ++ "-SNAPSHOT") "1.20.1" = 0%Z
  /\ satisfies_constraints ("v" ++ "1.20.1" ++ "-SNAPSHOT")
       [mkConstraint ">=" "1.20"; mkConstraint "<" "1.21"]
     = satisfies_constraints "1.20.1"
         [mkConstraint ">=" "1.20"; mkConstraint "<" "1.21"].
Proof.
  apply (text_without_digits_is_ignored "v" "1.20.1" "-SNAPSHOT");
    reflexivity.
Defined.

(* ================================================================== *)
(** * The strict flag *)

Section StrictFacts.
Context `{Runtime}.

Lemma resolve_one_aliased loader mc policy out strict dep :
  has_alias dep = true ->
  resolve_one (mkArgs loader mc policy out strict) dep
  = resolve_one (mkArgs loader mc policy out false) dep.
Proof.
  unfold has_alias, resolve_one. cbn [arg_loader arg_minecraft_version
                                       arg_policy arg_strict].
  destruct (some_nonempty (modrinth dep)); [reflexivity|].
  destruct (some_nonempty (curseforge dep)); [reflexivity | discriminate].
Qed.

Lemma resolve_loop_aliased loader mc policy out strict deps :
  Forall (fun d => has_alias d = true) deps ->
  forall acc,
    resolve_loop (mkArgs loader mc policy out strict) deps acc
    = resolve_loop (mkArgs loader mc policy out false) deps acc.
Proof.
  induction 1 as [|dep deps Ad _ IH]; intros acc; [reflexivity|].
  cbn [resolve_loop]. rewrite (resolve_one_aliased _ _ _ _ strict dep Ad).
  destruct (resolve_one _ dep) as [r|e]; [|reflexivity].
  cbn [bind]. apply IH.
Qed.

(** X22.  When every required dependency has an alias, [--strict]
    changes nothing: the run writes and prints the same and ends with
    the same status, a failure included. *)
Theorem strict_is_inert_when_aliased loader mc policy out project w deps :
  required_dependencies project = Ok deps ->
  Forall (fun d => has_alias d = true) deps ->
  script (mkArgs loader mc policy out true) project w
  = script (mkArgs loader mc policy out false) project w.
Proof.
  intros D A. unfold script, main. rewrite D. cbn [bind].
  now rewrite (resolve_loop_aliased loader mc policy out true deps A).
Qed.

End StrictFacts.

Lemma strict_is_inert_when_aliased_witness :
  @script sample_runtime (mkArgs "fabric" "1.20.1" "max" "deps.yml" true)
    sodium_project empty_world
  = @script sample_runtime (mkArgs "fabric" "1.20.1" "max" "deps.yml" false)
      sodium_project empty_world.
Proof.
  apply (@strict_is_inert_when_aliased sample_runtime "fabric" "1.20.1" "max"
           "deps.yml" sodium_project empty_world [sodium_any]);
    [reflexivity | repeat constructor].
Defined.

(* ================================================================== *)
(** * The parser under the interpreter's limit *)

(** ** The size of a number and of its decimal text *)








(** ** Conversions within the limit *)










(** ** The digit runs of a short string *)








(** ** The expansion of a caret or tilde range *)




(** ** The parser *)










(* ================================================================== *)
(** * Narrowing by an exact version *)

Lemma prefix_split x :
  forall s, String.prefix x s = true -> exists b, s = x ++ b.
Proof.
  induction x as [|c x IH]; intros s P; [now exists s|].
  destruct s as [|c' s]; [discriminate P|]. simpl in P.
  destruct (ascii_dec c c') as [<- | N]; [|discriminate P].
  destruct (IH s P) as [b ->]. now exists b.
Qed.

(** [needle in hay] holds exactly when the needle occurs in the text. *)
Lemma contains_occurs hay needle :
  Py.contains hay needle = true <-> occurs_in needle hay.
Proof.
  split.
  - induction hay as [|c hay IH]; rewrite contains_unfold; intros C;
      apply orb_prop in C; destruct C as [P | C].
    + destruct (prefix_split _ _ P) as [b E]. now exists "", b.
    + discriminate C.
    + destruct (prefix_split _ _ P) as [b E]. now exists "", b.
    + destruct (IH C) as [a [b ->]]. now exists (String c a), b.
  - intros [a [b ->]]. apply contains_mid.
Qed.

Section NarrowingFacts.
Context `{Runtime}.

(** The test of the narrowing loop holds exactly of the files whose
    name or display name contains the text. *)
Lemma names_contain_mentions needle item :
  names_contain needle item = true <-> mentions needle item.
Proof.
  unfold names_contain, mentions. split.
  - destruct item as [| | | | | |d]; try discriminate.
    intros C. exists d. split; [reflexivity|].
    apply orb_prop in C. destruct C as [C | C];
      apply contains_occurs in C; auto.
  - intros [d [-> O]]. apply orb_true_iff.
    destruct O as [O | O]; apply contains_occurs in O; auto.
Qed.

Lemma filter_none {A} (f : A -> bool) l :
  (forall x, In x l -> f x = false) -> filter f l = [].
Proof.
  induction l as [|x l IH]; intros N; [reflexivity|]. simpl.
  rewrite (N x (or_introl eq_refl)). apply IH. intros y I. apply N. now right.
Qed.

Lemma filter_some {A} (f : A -> bool) l x :
  In x l -> f x = true -> filter f l <> [].
Proof.
  intros I T E. assert (J : In x (filter f l)) by (apply filter_In; auto).
  rewrite E in J. destruct J.
Qed.

(** C5.  In [resolve_curseforge], when the range parses to exactly one
    constraint with operator [=], the files kept after the loader and
    runtime filter are narrowed to those whose [fileName] or
    [displayName] contains the bound as a substring: the resolver raises
    when no file does, and selects among the files that do otherwise.
    For every other constraint list the selection is made among the
    files kept, without narrowing. *)
Theorem curseforge_narrows_only_exact
        dep alias loader mc policy label payload data cs :
  curseforge dep = Some alias ->
  Re.fullmatch re_digits alias <> None ->
  curseforge_expected_loader_label loader = Ok label ->
  curseforge_files alias = Ok (JDict payload) ->
  dict_get payload "data" = JList data ->
  filter (curseforge_compatible mc label) data <> [] ->
  parse_constraints (Py.strip (version_range dep)) = Ok cs ->
  let filtered := filter (curseforge_compatible mc label) data in
  (forall needle,
      cs = [mkConstraint "=" needle] ->
      exists keep : json -> bool,
        (forall f, keep f = true <-> mentions needle f)
        /\ ((forall f, In f filtered -> ~ mentions needle f) ->
            exists msg,
              resolve_curseforge dep loader mc policy
              = Raise (Exn RuntimeError msg))
        /\ ((exists f, In f filtered /\ mentions needle f) ->
            resolve_curseforge dep loader mc policy
            = select_file dep alias policy (filter keep filtered)))
  /\ ((forall needle, cs <> [mkConstraint "=" needle]) ->
      resolve_curseforge dep loader mc policy
      = select_file dep alias policy filtered).
Proof.
  intros A M L P D F C filtered.
  rewrite (resolve_curseforge_filtered _ _ _ _ _ _ _ _ _ A M L P D F C).
  fold filtered. split.
  - intros needle ->. rewrite narrow_exact_single.
    exists (names_contain needle).
    split; [intros f; apply names_contain_mentions|]. split.
    + intros N. rewrite filter_none; [eexists; reflexivity|].
      intros f I. destruct (names_contain needle f) eqn:T; [|reflexivity].
      destruct (N f I). now apply names_contain_mentions.
    + intros [f [I Mf]]. apply names_contain_mentions in Mf.
      pose proof (filter_some _ _ _ I Mf) as N.
      destruct (filter (names_contain needle) filtered);
        [now destruct N | reflexivity].
  - intros N. now rewrite narrow_exact_other.
Qed.

End NarrowingFacts.

Lemma curseforge_narrows_only_exact_witness :
  @resolve_curseforge sample_runtime jei_15_3 "fabric" "1.20.1" "min"
  = Ok jei_15_3_file
  /\ exists msg,
       @resolve_curseforge sample_runtime jei_exact "fabric" "1.20.1" "min"
       = Raise (Exn RuntimeError msg).
Proof.
  split.
  - destruct (proj1 (@curseforge_narrows_only_exact sample_runtime
                       jei_15_3 "238222" "fabric" "1.20.1" "min" "Fabric"
                       _ _ [mkConstraint "=" "15.3.0"]
                       eq_refl ltac:(vm_compute; discriminate) eq_refl
                       eq_refl eq_refl ltac:(vm_compute; discriminate)
                       eq_refl)
                "15.3.0" eq_refl) as [keep [K [_ Kept]]].
    rewrite Kept.
    + cbn [filter curseforge_compatible dict_get str_in_list existsb
             String.eqb Ascii.eqb Bool.eqb andb orb].
      match goal with
      | |- context [keep ?f1] =>
          assert (K1 : keep f1 = false)
      end.
      { match goal with |- ?k = false => destruct k eqn:T end;
          [|reflexivity].
        apply K in T. destruct T as [d [E O]]. inversion E; subst d.
        destruct O as [O | O]; apply contains_occurs in O;
          vm_compute in O; discriminate O. }
      rewrite K1.
      match goal with
      | |- context [keep ?f2] =>
          assert (K2 : keep f2 = true)
      end.
      { apply K. eexists. split; [reflexivity|]. left.
        exists "jei-1.20.1-fabric-", ".jar". reflexivity. }
      rewrite K2. reflexivity.
    + eexists. split; [right; left; reflexivity|].
      eexists. split; [reflexivity|]. left.
      exists "jei-1.20.1-fabric-", ".jar". reflexivity.
  - destruct (proj1 (@curseforge_narrows_only_exact sample_runtime
                       jei_exact "238222" "fabric" "1.20.1" "min" "Fabric"
                       _ _ [mkConstraint "=" "15.9.9"]
                       eq_refl ltac:(vm_compute; discriminate) eq_refl
                       eq_refl eq_refl ltac:(vm_compute; discriminate)
                       eq_refl)
                "15.9.9" eq_refl) as [keep [K [None_ _]]].
    apply None_. intros f I [d [E O]]. subst f.
    vm_compute in I.
    destruct I as [I | [I | []]]; inversion I; subst d;
      destruct O as [O | O]; apply contains_occurs in O;
      vm_compute in O; discriminate O.
Defined.

(* ================================================================== *)
(** * The first failure ends the run *)

Section AbortFacts.
Context `{Runtime}.

(** The loop raises the exception of the first dependency that fails. *)
Lemma resolve_loop_first_failure args deps :
  forall resolved dep e,
    In dep deps -> resolve_one args dep = Raise e ->
    exists before dep' after e',
      deps = (before ++ dep' :: after)%list
      /\ Forall (fun d => is_ok (resolve_one args d) = true) before
      /\ resolve_one args dep' = Raise e'
      /\ resolve_loop args deps resolved = Raise e'.
Proof.
  induction deps as [|d deps IH]; intros resolved dep e I R; [destruct I|].
  simpl. destruct (resolve_one args d) as [r|e0] eqn:E.
  - destruct I as [-> | I]; [congruence|].
    destruct (IH (resolved ++ r)%list dep e I R)
      as [before [dep' [after [e' [-> [B [R' L]]]]]]].
    exists (d :: before), dep', after, e'. simpl.
    split; [reflexivity|]. split; [|auto].
    constructor; [now rewrite E | exact B].
  - exists [], d, deps, e0. simpl. auto.
Qed.

(** The dependencies are resolved in strictly ascending order of their
    ids. *)
Lemma required_dependencies_in_id_order project deps :
  required_dependencies project = Ok deps -> StronglySorted id_before deps.
Proof.
  unfold required_dependencies.
  destruct (read_fabric_dependencies _) as [d1|e]; [|discriminate].
  destruct (read_forge_dependencies _) as [d2|e]; [|discriminate].
  destruct (read_quilt_dependencies _) as [d3|e]; [|discriminate].
  cbn [bind].
  destruct (sort_by_text mod_id (map snd (dedupe (d1 ++ d2 ++ d3))))
    as [sorted [E [P S]]].
  rewrite E. intros Q. inversion Q; subst deps.
  apply strictly_sorted_ids; [|exact S].
  apply (Permutation_NoDup (Permutation_map mod_id P)).
  rewrite dedupe_ids. apply dedupe_invariant.
Qed.

(** C7, as the script has it.  The dependencies are resolved in strictly
    ascending order of their ids.  When the resolution of one of them
    fails, the script ends with status 2; no file is written and nothing
    is printed on the standard output; the error stream receives
    [ERROR: ] followed by the message of the first failing dependency in
    that order: every dependency before it resolves.  The message for a
    dependency without alias, under strict mode, names that dependency;
    the message for a dependency none of whose Modrinth versions
    satisfies the range names the dependency, the loader and the
    Minecraft version. *)
Theorem failed_resolution_aborts_run args project w deps dep e :
  required_dependencies project = Ok deps ->
  In dep deps ->
  resolve_one args dep = Raise e ->
  StronglySorted id_before deps
  /\ (exists before dep' after e',
         deps = (before ++ dep' :: after)%list
         /\ Forall (fun d => is_ok (resolve_one args d) = true) before
         /\ resolve_one args dep' = Raise e'
         /\ script args project w
            = (print_err ("ERROR: " ++ exn_msg e') w, 2%Z))
  /\ snd (script args project w) = 2%Z
  /\ files (fst (script args project w)) = files w
  /\ stdout (fst (script args project w)) = stdout w
  /\ (some_nonempty (modrinth dep) = false ->
      some_nonempty (curseforge dep) = false ->
      Py.contains (exn_msg e) (mod_id dep) = true)
  /\ (forall alias vs cs,
         modrinth dep = Some alias -> Py.nonempty alias = true ->
         modrinth_versions alias (arg_loader args) (arg_minecraft_version args)
         = Ok (JList vs) ->
         parse_constraints (version_range dep) = Ok cs ->
         filter (modrinth_candidate cs) vs = [] ->
         Py.contains (exn_msg e) (mod_id dep) = true
         /\ Py.contains (exn_msg e) (arg_loader args) = true
         /\ Py.contains (exn_msg e) (arg_minecraft_version args) = true).
Proof.
  intros Q I R.
  split; [exact (required_dependencies_in_id_order _ _ Q)|].
  destruct (resolve_loop_first_failure args deps [] dep e I R)
    as [before [dep' [after [e' [Ed [B [R' L]]]]]]].
  assert (S : script args project w
              = (print_err ("ERROR: " ++ exn_msg e') w, 2%Z)).
  { unfold script, main. rewrite Q. simpl. now rewrite L. }
  split; [exists before, dep', after, e'; auto|].
  rewrite S. split; [reflexivity|]. split; [reflexivity|].
  split; [reflexivity|]. split.
  - intros M C. unfold resolve_one in R. rewrite M, C in R.
    destruct (arg_strict args); [|discriminate R].
    inversion R; subst; clear R. simpl.
    apply (contains_mid "Required dependency '").
  - intros alias vs cs A N V P F.
    destruct (modrinth_unsatisfiable dep alias _ _ (arg_policy args) vs cs
                A N V P F) as [msg [E [C1 [C2 C3]]]].
    unfold resolve_one in R. unfold some_nonempty in R.
    rewrite A, N, E in R. simpl in R.
    inversion R; subst; clear R. simpl. auto.
Qed.

End AbortFacts.

Lemma failed_resolution_aborts_run_witness :
  snd (@script sample_runtime strict_args project_without_alias empty_world) = 2%Z
  /\ files (fst (@script sample_runtime strict_args project_without_alias
                   empty_world)) = [].
Proof.
  pose proof (@failed_resolution_aborts_run sample_runtime strict_args
                project_without_alias empty_world
                [mkDependency "foo" "*" None None]
                (mkDependency "foo" "*" None None)
                (Exn RuntimeError
                   "Required dependency 'foo' has no mc-publish Modrinth/CurseForge alias in metadata")
                eq_refl (or_introl eq_refl) eq_refl) as T.
  split; [exact (proj1 (proj2 (proj2 T)))
         | exact (proj1 (proj2 (proj2 (proj2 T))))].
Defined.

(* ================================================================== *)
(** * What the parser does with a malformed range *)





